(** * media-play-records: session merging, aggregation and goal resolution

    A shallow embedding of the History and Calendar components
    (buildDisplayRecords, getVideoKey, getLanguageStats, importData,
    saveGoal, loadGoals, the calendar cell) and of the IndexedDB service
    (getDailyGoal, saveDailyGoal), with the properties of the
    specification stated over them; and of the handlers around them
    (loadRecords, manual entry and editing, selection and deletion, the
    visibility toggle, exportData, the timeline of a card, the calendar
    grid) with the records store (saveRecord, getAllRecords,
    deleteRecord), with properties read off the code.

    Conventions of the embedding.
    - A JavaScript number that holds seconds, milliseconds or minutes is a
      [Z]; [Math.floor (x / 60)] is [x / 60] on [Z].
    - A string is a sequence of Latin-1 code points ([string] of the
      standard library, one [ascii] per code point 0..255).
    - A date string is held as the instant it denotes, that is the value
      of [new Date(s).getTime()] in milliseconds (the data model requires
      every [date] to be a parseable instant).
    - An optional property ([channelName?], [visibility?]) is an
      [option]; [null] and [undefined] are both [None].
    - An object used as a map is the finite map of its own properties.
      Where the key is a language tag read from a record, the properties
      every object inherits are modelled too (module [JsObject]). *)

From Stdlib Require Import ZArith List Ascii Lia Bool.
From Stdlib Require QArith OrdersEx.
From stdpp Require Import gmap strings list fin_maps pretty sorting.

Local Open Scope Z_scope.

(** ** String built-ins: [trim] and [toLowerCase] on Latin-1 strings *)

Module JsString.

Definition code (c : ascii) : N := N_of_ascii c.

(** WhiteSpace and LineTerminator code points below 256:
    TAB, LF, VT, FF, CR, SP and NBSP. *)
Definition isWhiteSpace (c : ascii) : bool :=
  ((9 <=? code c) && (code c <=? 13) || (code c =? 32) || (code c =? 160))%N.

(** Upper-case letters that have a lower-case partner 32 places up:
    A..Z, and U+00C0..U+00DE except the multiplication sign U+00D7. *)
Definition isUpper (c : ascii) : bool :=
  ((65 <=? code c) && (code c <=? 90)
   || (192 <=? code c) && (code c <=? 222) && negb (code c =? 215))%N.

Definition lowerChar (c : ascii) : ascii :=
  if isUpper c then ascii_of_N (code c + 32) else c.

Fixpoint toLowerCase (s : string) : string :=
  match s with
  | EmptyString => EmptyString
  | String c s' => String (lowerChar c) (toLowerCase s')
  end.

Fixpoint trimStart (s : string) : string :=
  match s with
  | EmptyString => EmptyString
  | String c s' => if isWhiteSpace c then trimStart s' else s
  end.

Fixpoint trimEnd (s : string) : string :=
  match s with
  | EmptyString => EmptyString
  | String c s' =>
      match trimEnd s' with
      | EmptyString => if isWhiteSpace c then EmptyString else String c EmptyString
      | t => String c t
      end
  end.

Definition trim (s : string) : string := trimEnd (trimStart s).

(** [allWhite s]: every code point of [s] is white space. *)
Fixpoint allWhite (s : string) : bool :=
  match s with
  | EmptyString => true
  | String c s' => isWhiteSpace c && allWhite s'
  end.

(** Two code points are the same letter up to case: equal, or one is the
    upper-case letter whose lower-case partner is the other. *)
Definition sameCharUpToCase (c d : ascii) : bool :=
  ((code c =? code d)
   || isUpper c && (code d =? code c + 32)
   || isUpper d && (code c =? code d + 32))%N.

Fixpoint sameUpToCase (s t : string) : bool :=
  match s, t with
  | EmptyString, EmptyString => true
  | String c s', String d t' => sameCharUpToCase c d && sameUpToCase s' t'
  | _, _ => false
  end.

(** [s] and [t] differ only in surrounding white space and letter case. *)
Definition sameUpToCaseAndPadding (s t : string) : Prop :=
  ∃ l1 r1 l2 r2 s0 t0,
    s = l1 +:+ s0 +:+ r1 ∧ t = l2 +:+ t0 +:+ r2 ∧
    allWhite l1 = true ∧ allWhite r1 = true ∧
    allWhite l2 = true ∧ allWhite r2 = true ∧
    sameUpToCase s0 t0 = true.

End JsString.

(** ** Date built-ins: instants, and the calendar reading of an instant *)

Module JsDate.

(** [1000 * 60 * 60], the divisor of [gapHours]. *)
Definition msPerHour : Z := 1000 * 60 * 60.
Definition msPerDay : Z := 24 * msPerHour.

(** The host's reading of an instant (milliseconds since the epoch) in
    local time: [getFullYear], [getMonth] (0-based) and [getDate].  The
    time zone is the host's, so the three readings are an interface. *)
Class LocalTime := {
  getFullYear : Z → Z;
  getMonth : Z → Z;
  getDate : Z → Z
}.

(** Days since 1970-01-01 of the proleptic Gregorian date [y]-[m]-[d],
    with [m] in 1..12. *)
Definition daysFromCivil (y m d : Z) : Z :=
  let y' := if m <=? 2 then y - 1 else y in
  let era := y' / 400 in
  let yoe := y' - era * 400 in
  let mp := (m + 9) mod 12 in
  let doy := (153 * mp + 2) / 5 + d - 1 in
  let doe := yoe * 365 + yoe / 4 - yoe / 100 + doy in
  era * 146097 + doe - 719468.

(** The Gregorian date of a day number: (year, month in 1..12, day). *)
Definition civilFromDays (n : Z) : Z * Z * Z :=
  let z := n + 719468 in
  let era := z / 146097 in
  let doe := z - era * 146097 in
  let yoe := (doe - doe / 1460 + doe / 36524 - doe / 146096) / 365 in
  let doy := doe - (365 * yoe + yoe / 4 - yoe / 100) in
  let mp := (5 * doy + 2) / 153 in
  let d := doy - (153 * mp + 2) / 5 + 1 in
  let m := if mp <? 10 then mp + 3 else mp - 9 in
  (if m <=? 2 then yoe + era * 400 + 1 else yoe + era * 400, m, d).

(** The instant of [y-m-dThh:mi:ssZ], as [Date.UTC] and the parser of ISO
    strings give it; a date-only string [y-m-d] is midnight UTC. *)
Definition utc (y m d hh mi ss : Z) : Z :=
  daysFromCivil y m d * msPerDay + hh * msPerHour + mi * 60000 + ss * 1000.

Definition dateOnly (y m d : Z) : Z := utc y m d 0 0 0.

(** A host whose local time is UTC. *)
#[export] Instance utcTime : LocalTime := {|
  getFullYear t := (civilFromDays (t / msPerDay)).1.1;
  getMonth t := (civilFromDays (t / msPerDay)).1.2 - 1;
  getDate t := (civilFromDays (t / msPerDay)).2
|}.

End JsDate.

(** ** Objects used as maps from language tags to totals *)

Module JsObject.

(** The names every object inherits from [Object.prototype]. *)
Definition inheritedNames : list string :=
  ["constructor"; "hasOwnProperty"; "isPrototypeOf"; "propertyIsEnumerable";
   "toLocaleString"; "toString"; "valueOf"; "__proto__";
   "__defineGetter__"; "__defineSetter__"; "__lookupGetter__"; "__lookupSetter__"].

(** A property of an object of totals: a number, or the text that adding
    a number to an inherited function (or to a text) leaves. *)
Inductive total := Num (n : Z) | Text.

(** [key in obj]: an own or an inherited property. *)
Definition hasProperty (obj : gmap string total) (key : string) : bool :=
  bool_decide (is_Some (obj !! key)) || bool_decide (key ∈ inheritedNames).

(** [obj[key] = text]: an own property, except that [__proto__] is an
    accessor whose setter ignores a text. *)
Definition setText (obj : gmap string total) (key : string) : gmap string total :=
  if bool_decide (key = "__proto__") then obj else <[key := Text]> obj.

(** [typeof v === "number" ? v : 0]. *)
Definition numberOr0 (v : option total) : Z :=
  match v with
  | Some (Num n) => n
  | _ => 0
  end.

(** The literal [{ cantonese: 0, english: 0, japanese: 0, spanish: 0 }]. *)
Definition zeroTotals : gmap string total :=
  {[ "cantonese" := Num 0; "english" := Num 0; "japanese" := Num 0; "spanish" := Num 0 ]}.

End JsObject.

(** ** JSON values, as [JSON.parse] returns them *)

Module Json.

(** A number is an exact rational (every finite double is one); an object
    lists its properties in the order of the text. *)
#[local] Unset Elimination Schemes.
Inductive json :=
| JNull
| JBool (b : bool)
| JNum (n : QArith_base.Q)
| JStr (s : string)
| JArr (items : list json)
| JObj (props : list (string * json)).
#[local] Set Elimination Schemes.

(** [v.key] for a key that is no built-in property of arrays, strings,
    numbers or booleans ([version], [records], [sessionId]): the own
    property of an object, [undefined] ([None]) otherwise.  Of a key
    written twice the parser keeps the last value.  The caller handles
    [null], on which a property access throws. *)
Definition getProp (v : json) (key : string) : option json :=
  match v with
  | JObj props => snd <$> find (λ kv, bool_decide (kv.1 = key)) (rev props)
  | _ => None
  end.

(** [!!v]. *)
Definition truthy (v : option json) : bool :=
  match v with
  | None | Some JNull => false
  | Some (JBool b) => b
  | Some (JNum n) => negb (QArith_base.Qeq_bool n (QArith_base.inject_Z 0))
  | Some (JStr s) => negb (bool_decide (s = EmptyString))
  | Some (JArr _) | Some (JObj _) => true
  end.

(** [Array.isArray(v)]. *)
Definition isArray (v : option json) : bool :=
  match v with Some (JArr _) => true | _ => false end.

End Json.

(** ** types/database.ts *)

Module Types.

Record PlaybackRecord := mkPlaybackRecord {
  sessionId : string;
  title : string;
  url : string;
  language : string;
  duration : Z;
  date : Z;
  channelName : option string;
  channelLogo : option string
}.

(** [date] of a DailyGoal is [goalDate] here: the instant of its
    YYYY-MM-DD string, midnight UTC. *)
Record DailyGoal := mkDailyGoal {
  goalDate : Z;
  goals : gmap string Z;
  visibility : option (gmap string bool);
  updatedAt : Z
}.

(** The values of the type [Language]. *)
Definition Language : list string := ["cantonese"; "english"; "japanese"; "spanish"].

End Types.

(** ** utils/constants *)

Module Constants.

(** Modelled from the spec: [DEFAULT_DAILY_GOAL], imported from
    utils/constants, which is not among the sources.  The specification
    gives it as the hard-coded default goal set, all languages with goal 0. *)
Definition DEFAULT_DAILY_GOAL : gmap string Z :=
  {[ "cantonese" := 0; "english" := 0; "japanese" := 0; "spanish" := 0 ]}.

End Constants.

(** ** services/database: the IndexedDB service *)

Module Database.
Import Json Types.

(** [array.sort(cmp)]: the sort is stable, and [cmp a b <= 0] keeps [a]
    before [b]. *)
Fixpoint sortInsert {A} (cmp : A → A → Z) (x : A) (l : list A) : list A :=
  match l with
  | [] => [x]
  | y :: l' => if cmp x y <=? 0 then x :: l else y :: sortInsert cmp x l'
  end.

Definition sort {A} (cmp : A → A → Z) (l : list A) : list A :=
  foldr (sortInsert cmp) [] l.

(** The object store [dailyGoals], key path [date]: its documents in key
    order, one per key. *)
Definition GoalStore := list DailyGoal.

(** [store.put(doc)]: the document replaces the one stored under its key. *)
Definition put (doc : DailyGoal) (store : GoalStore) : GoalStore :=
  filter (λ g, goalDate g < goalDate doc) store
  ++ doc :: filter (λ g, goalDate doc < goalDate g) store.

(** [saveDailyGoal]; [now] is the clock read for [updatedAt]. *)
Definition saveDailyGoal (store : GoalStore) (now : Z) (dailyGoal : DailyGoal)
  : GoalStore :=
  let completeDailyGoal :=
    {| goalDate := goalDate dailyGoal;
       goals := goals dailyGoal;
       visibility := visibility dailyGoal;
       updatedAt := now |} in
  put completeDailyGoal store.

Definition getAllDailyGoals (store : GoalStore) : list DailyGoal := store.

(** The body of [request.onsuccess] in [getDailyGoal], on the documents
    [store.getAll()] returned. *)
Definition closestGoal (allGoals : list DailyGoal) (date : Z) : option DailyGoal :=
  if bool_decide (length allGoals = 0%nat) then None
  else
    let sortedGoals := sort (λ a b, goalDate b - goalDate a) allGoals in
    let targetDate := date in
    find (λ goal, bool_decide (goalDate goal ≤ targetDate)) sortedGoals.

Definition getDailyGoal (store : GoalStore) (date : Z) : option DailyGoal :=
  closestGoal (getAllDailyGoals store) date.

(** A value IndexedDB accepts as a key: a string, a number, or an array of
    keys. *)
Fixpoint validKey (v : json) : bool :=
  match v with
  | JStr _ | JNum _ => true
  | JArr items => forallb validKey items
  | _ => false
  end.

(** Whether [saveRecord(record)] resolves: reading [record.sessionId]
    throws on [null], and [store.put] refuses a document whose key path
    [sessionId] holds no valid key. *)
Definition saveRecordResolves (record : json) : bool :=
  match record with
  | JNull => false
  | _ => match getProp record "sessionId" with
         | Some k => validKey k
         | None => false
         end
  end.

End Database.

(** ** components/History: merge key and display records *)

Module History.
Import JsString JsDate Types.

Record TimelineSegment := mkSegment { segStart : Z; segEnd : Z }.

(** [PlaybackRecord & { ... }]: the record's own properties are [base]. *)
Record DisplayRecord := mkDisplayRecord {
  base : PlaybackRecord;
  mergedSessionIds : list string;
  totalDuration : Z;
  startDate : Z;
  isMerged : bool;
  spanStart : Z;
  spanEnd : Z;
  segments : list TimelineSegment
}.

(** [s || ""] on an optional string. *)
Definition orEmpty (o : option string) : string := default EmptyString o.

(** [!s] on an optional string: absent or empty. *)
Definition falsy (o : option string) : bool :=
  match o with
  | None => true
  | Some s => bool_decide (s = EmptyString)
  end.

Definition getVideoKey (record : PlaybackRecord) : string :=
  let channelKey := toLowerCase (trim (orEmpty (channelName record))) in
  let titleKey := toLowerCase (trim (title record)) in
  channelKey +:+ "::" +:+ titleKey +:+ "::" +:+ language record.

(** The object literal built for a record on its own; the source writes it
    twice, in the [map] of the unmerged view and where a new accumulator
    starts. *)
Definition single (record : PlaybackRecord) : DisplayRecord :=
  let startMs := date record in
  let endMs := startMs + duration record * 1000 in
  {| base := record;
     mergedSessionIds := [sessionId record];
     totalDuration := duration record;
     startDate := date record;
     isMerged := false;
     spanStart := startMs;
     spanEnd := endMs;
     segments := [mkSegment startMs endMs] |}.

(** The mutable variables of the merging pass. *)
Record MergeState := mkMergeState {
  merged : list DisplayRecord;
  current : option DisplayRecord;
  lastMergedDate : option Z
}.

Definition initialState : MergeState := mkMergeState [] None None.

Definition pushCurrent (merged : list DisplayRecord) (record : option DisplayRecord)
  : list DisplayRecord :=
  match record with
  | None => merged
  | Some record =>
      merged ++
      [ {| base := base record;
           mergedSessionIds := mergedSessionIds record;
           totalDuration := totalDuration record;
           startDate := startDate record;
           isMerged := bool_decide (1 < length (mergedSessionIds record))%nat;
           spanStart := spanStart record;
           spanEnd := spanEnd record;
           segments := segments record |} ]
  end.

(** [Math.abs(prev - cur) / (1000 * 60 * 60)], as an exact quotient.  Both
    instants are integers, so the floating-point quotient compares with 2
    as the exact one does. *)
Definition gapHours (prevDate currentDate : Z) : QArith_base.Q :=
  QArith_base.Qdiv (QArith_base.inject_Z (Z.abs (prevDate - currentDate)))
                   (QArith_base.inject_Z msPerHour).

Definition gapExceeds2 (prevDate currentDate : Z) : bool :=
  negb (QArith_base.Qle_bool (gapHours prevDate currentDate) (QArith_base.inject_Z 2)).

Section Merge.
Context `{LocalTime}.

Definition crossesDay (prevDate currentDate : Z) : bool :=
  negb (getFullYear prevDate =? getFullYear currentDate)
  || negb (getMonth prevDate =? getMonth currentDate)
  || negb (getDate prevDate =? getDate currentDate).

Definition shouldMerge (cur : DisplayRecord) (lastMerged : option Z)
    (record : PlaybackRecord) : bool :=
  let prevDate := match lastMerged with Some d => d | None => startDate cur end in
  let currentDate := date record in
  bool_decide (getVideoKey (base cur) = getVideoKey record)
  && negb (crossesDay prevDate currentDate && gapExceeds2 prevDate currentDate).

(** The branch [if (shouldMerge) { ... return; }]. *)
Definition foldInto (cur : DisplayRecord) (record : PlaybackRecord) : DisplayRecord :=
  let startMs := date record in
  let endMs := startMs + duration record * 1000 in
  {| base :=
       {| sessionId := sessionId (base cur);
          title := title (base cur);
          url := url (base cur);
          language := language (base cur);
          duration := duration (base cur);
          date := date (base cur);
          channelName :=
            if falsy (channelName (base cur)) then channelName record
            else channelName (base cur);
          channelLogo :=
            if falsy (channelLogo (base cur)) then channelLogo record
            else channelLogo (base cur) |};
     mergedSessionIds := mergedSessionIds cur ++ [sessionId record];
     totalDuration := totalDuration cur + duration record;
     startDate := if startMs <? startDate cur then date record else startDate cur;
     isMerged := isMerged cur;
     spanStart := Z.min (spanStart cur) startMs;
     spanEnd := Z.max (spanEnd cur) endMs;
     segments := segments cur ++ [mkSegment startMs endMs] |}.

(** The callback of [records.forEach]. *)
Definition forEachBody (st : MergeState) (record : PlaybackRecord) : MergeState :=
  match current st with
  | Some cur =>
      if shouldMerge cur (lastMergedDate st) record then
        {| merged := merged st;
           current := Some (foldInto cur record);
           lastMergedDate := Some (date record) |}
      else
        {| merged := pushCurrent (merged st) (Some cur);
           current := Some (single record);
           lastMergedDate := Some (date record) |}
  | None =>
      {| merged := merged st;
         current := Some (single record);
         lastMergedDate := Some (date record) |}
  end.

Definition runMerge (records : list PlaybackRecord) : MergeState :=
  fold_left forEachBody records initialState.

Definition buildDisplayRecords (records : list PlaybackRecord)
    (mergeConsecutive : bool) : list DisplayRecord :=
  if negb mergeConsecutive then map single records
  else
    let st := runMerge records in
    pushCurrent (merged st) (current st).

End Merge.

(** *** getLanguageStats *)

(** The callback of [records.forEach]:
    [if (record.language in stats) stats[record.language] += record.duration]. *)
Definition addToStats (stats : gmap string JsObject.total) (record : PlaybackRecord)
  : gmap string JsObject.total :=
  if JsObject.hasProperty stats (language record) then
    match stats !! language record with
    | Some (JsObject.Num n) =>
        <[language record := JsObject.Num (n + duration record)]> stats
    | Some JsObject.Text => stats
    | None => JsObject.setText stats (language record)
    end
  else stats.

Definition getLanguageStats (records : list PlaybackRecord) : gmap string JsObject.total :=
  fold_left addToStats records JsObject.zeroTotals.

(** *** importData *)

Inductive ImportOutcome := Imported | ImportFailed.

(** The loop [for (const record of data.records) await saveRecord(record)]:
    the calls issued, in order, and whether all of them resolved.  A call
    that rejects is issued, and ends the loop. *)
Fixpoint saveAll (records : list Json.json) : list Json.json * bool :=
  match records with
  | [] => ([], true)
  | record :: rest =>
      if Database.saveRecordResolves record then
        let '(calls, ok) := saveAll rest in (record :: calls, ok)
      else ([record], false)
  end.

(** [importData], on what [JSON.parse(text)] gave ([None]: it threw): the
    [saveRecord] calls issued and the message shown. *)
Definition importData (parsed : option Json.json)
  : list Json.json * ImportOutcome :=
  match parsed with
  | None | Some Json.JNull => ([], ImportFailed)
  | Some data =>
      if negb (Json.truthy (Json.getProp data "version"))
         || negb (Json.truthy (Json.getProp data "records"))
         || negb (Json.isArray (Json.getProp data "records"))
      then ([], ImportFailed)
      else
        match Json.getProp data "records" with
        | Some (Json.JArr records) =>
            let '(calls, ok) := saveAll records in
            (calls, if ok then Imported else ImportFailed)
        | _ => ([], ImportFailed)
        end
  end.

(** *** Goals and visibility *)

(** [visibility?.key ?? true]. *)
Definition visibleOr (visibility : option (gmap string bool)) (key : string) : bool :=
  default true (visibility ≫= (.!! key)).

Definition normalizeVisibility (visibility : option (gmap string bool))
  : gmap string bool :=
  {[ "cantonese" := visibleOr visibility "cantonese";
     "english" := visibleOr visibility "english";
     "japanese" := visibleOr visibility "japanese";
     "spanish" := visibleOr visibility "spanish" ]}.

(** The component state the goal functions read and set. *)
Record GoalState := mkGoalState {
  goalInputs : gmap string Z;
  languageVisibility : gmap string bool;
  monthGoals : list DailyGoal
}.

(** [goalInputs[language] || 0]. *)
Definition goalOf (goalInputs : gmap string Z) (language : string) : Z :=
  default 0 (goalInputs !! language).

(** [loadGoals]; [inSelectedMonth g] is [g.date.startsWith(selectedMonth)]. *)
Definition loadGoals (store : Database.GoalStore) (inSelectedMonth : DailyGoal → bool)
    (now today : Z) (st : GoalState) : GoalState :=
  let dailyGoal :=
    match Database.getDailyGoal store today with
    | Some dailyGoal => dailyGoal
    | None =>
        {| goalDate := today;
           goals := Constants.DEFAULT_DAILY_GOAL;
           visibility := None;
           updatedAt := now |}
    end in
  let vis :=
    normalizeVisibility
      (Some (default (languageVisibility st) (visibility dailyGoal))) in
  {| goalInputs := goals dailyGoal;
     languageVisibility := vis;
     monthGoals := List.filter inSelectedMonth (Database.getAllDailyGoals store) |}.

(** The document [saveGoal(language)] hands to [saveDailyGoal]; [language]
    is the key of one of the four goal rows.  A property set to [undefined]
    reads as an absent one. *)
Definition savedGoal (store : Database.GoalStore) (now today : Z) (st : GoalState)
    (language : string) : DailyGoal :=
  let existingDailyGoal := Database.getDailyGoal store today in
  let zeros : gmap string Z :=
    {[ "cantonese" := 0; "english" := 0; "japanese" := 0; "spanish" := 0 ]} in
  let goals0 : gmap string Z :=
    match existingDailyGoal with
    | Some g => goals g ∪ zeros
    | None => zeros
    end in
  let goals1 := <[language := goalOf (goalInputs st) language]> goals0 in
  let baseVisibility :=
    normalizeVisibility
      (Some (default (languageVisibility st) (existingDailyGoal ≫= visibility))) in
  let visibility1 :=
    match languageVisibility st !! language with
    | Some b => <[language := b]> baseVisibility
    | None => delete language baseVisibility
    end in
  {| goalDate := today;
     goals := goals1;
     visibility := Some visibility1;
     updatedAt := now |}.

(** [saveGoal]: the store and the state after the save and the reload. *)
Definition saveGoal (store : Database.GoalStore) (inSelectedMonth : DailyGoal → bool)
    (now today : Z) (st : GoalState) (language : string)
  : Database.GoalStore * GoalState :=
  let store' := Database.saveDailyGoal store now (savedGoal store now today st language) in
  (store', loadGoals store' inSelectedMonth now today st).

End History.

(** ** components/Calendar *)

Module Calendar.
Import JsDate JsObject Types.

Definition LANG_COLORS : gmap string string :=
  {[ "cantonese" := "#f97316"; "english" := "#2563eb";
     "japanese" := "#16a34a"; "spanish" := "#dc2626" ]}.

(** [s.padStart(2, "0")]. *)
Definition padStart2 (s : string) : string :=
  match String.length s with
  | O => "00"
  | S O => "0" +:+ s
  | _ => s
  end.

Section Durations.
Context `{LocalTime}.

(** The key of a day: year, month and day of the month in local time. *)
Definition dateStr (date : Z) : string :=
  pretty (getFullYear date) +:+ "-" +:+ padStart2 (pretty (getMonth date + 1))
  +:+ "-" +:+ padStart2 (pretty (getDate date)).

(** The callback of [allRecords.forEach]:
    [dayRecord[record.language] = (dayRecord[record.language] || 0) + record.duration].
    A number that is read is added to; a text or an inherited function
    that is read is truthy, and the sum is a text; nothing read is 0. *)
Definition addToDay (durations : gmap string (gmap string total))
    (record : PlaybackRecord) : gmap string (gmap string total) :=
  let dateStr := dateStr (date record) in
  let dayRecord := default zeroTotals (durations !! dateStr) in
  let dayRecord :=
    match dayRecord !! language record with
    | Some (Num n) => <[language record := Num (n + duration record)]> dayRecord
    | Some Text => dayRecord
    | None =>
        if bool_decide (language record ∈ inheritedNames)
        then setText dayRecord (language record)
        else <[language record := Num (0 + duration record)]> dayRecord
    end in
  <[dateStr := dayRecord]> durations.

(** The map [updateDailyDurations] hands to [setDailyDurations]. *)
Definition updateDailyDurations (allRecords : list PlaybackRecord)
  : gmap string (gmap string total) :=
  fold_left addToDay allRecords ∅.

End Durations.

(** What a cell of a day shows for one language. *)
Record LangCell := mkLangCell {
  backgroundColor : option string;
  opacityPercent : Z;
  textColor : string;
  minutes : Z
}.

(** [const achieved = goal > 0 && Math.floor(numericDuration / 60) >= goal],
    with [goal = goalInputs[lang] || 0].  Where [goalInputs[lang]] reads an
    inherited function, [goal > 0] is false, as it is for the 0 read here. *)
Definition achieved (goalInputs : gmap string Z) (lang : string)
    (numericDuration : Z) : bool :=
  let goal := default 0 (goalInputs !! lang) in
  (0 <? goal) && (goal <=? numericDuration / 60).

(** The callback of [.map(([lang, duration]) => ...)]; [None] is [null],
    no cell.  The colour is [None] where [LANG_COLORS[lang]] reads an
    inherited function, which is no colour. *)
Definition langDuration (goalInputs : gmap string Z) (lang : string)
    (duration : option total) : option LangCell :=
  let numericDuration := numberOr0 duration in
  if numericDuration <=? 0 then None
  else
    let achieved := achieved goalInputs lang numericDuration in
    Some {| backgroundColor :=
              match LANG_COLORS !! lang with
              | Some color => Some color
              | None => if bool_decide (lang ∈ inheritedNames) then None
                        else Some "#475569"
              end;
            opacityPercent := if achieved then 70 else 35;
            textColor := if achieved then "#ffffff" else "#0f172a";
            minutes := numericDuration / 60 |}.

End Calendar.

(** ** Predicates the properties are stated with *)

Module MergeSpec.
Import Types History JsDate.

Definition sumZ (l : list Z) : Z := foldr Z.add 0 l.

(** The timeline interval of a record: from its start to its start plus
    its duration, in milliseconds. *)
Definition segmentOf (r : PlaybackRecord) : TimelineSegment :=
  mkSegment (date r) (date r + duration r * 1000).

Definition isEarliest (x : Z) (l : list Z) : Prop := x ∈ l ∧ ∀ y, y ∈ l → x ≤ y.
Definition isLatest (x : Z) (l : list Z) : Prop := x ∈ l ∧ ∀ y, y ∈ l → y ≤ x.

(** [d] is the display record of the records [g], its constituents. *)
Definition Constituents (d : DisplayRecord) (g : list PlaybackRecord) : Prop :=
  mergedSessionIds d = sessionId <$> g
  ∧ totalDuration d = sumZ (duration <$> g)
  ∧ segments d = segmentOf <$> g
  ∧ length (segments d) = length (mergedSessionIds d)
  ∧ isEarliest (spanStart d) (date <$> g)
  ∧ isLatest (spanEnd d) (segEnd ∘ segmentOf <$> g).

(** An emitted display record: [isMerged] is set from the number of ids. *)
Definition Emitted (d : DisplayRecord) (g : list PlaybackRecord) : Prop :=
  Constituents d g
  ∧ isMerged d = bool_decide (1 < length (mergedSessionIds d))%nat.

(** The state of the pass after the records [rs]: the emitted records
    cover a prefix of [rs] group by group, and the accumulator the rest,
    which ends with the record merged last. *)
Definition MergeInv (rs : list PlaybackRecord) (st : MergeState) : Prop :=
  ∃ groups, Forall2 Emitted (merged st) groups ∧
    match current st with
    | None => rs = [] ∧ groups = []
    | Some cur =>
        ∃ g a, rs = concat groups ++ g ++ [a]
               ∧ Constituents cur (g ++ [a])
               ∧ lastMergedDate st = Some (date a)
    end.

(** The step on [r] folded it into the accumulator: nothing was emitted,
    and the accumulator gained the id of [r]. *)
Definition foldedInto (st st' : MergeState) (r : PlaybackRecord) : Prop :=
  merged st' = merged st
  ∧ ∃ cur cur', current st = Some cur ∧ current st' = Some cur'
                ∧ mergedSessionIds cur' = mergedSessionIds cur ++ [sessionId r].

(** The gap between two instants exceeds two hours. *)
Definition gapOver2h (prev cur : Z) : Prop := 2 * msPerHour < Z.abs (prev - cur).

(** The channel part of the key of [r] does not begin with a colon, the
    character the key is joined with. *)
Definition channelSafe (r : PlaybackRecord) : Prop :=
  match JsString.toLowerCase (JsString.trim (orEmpty (channelName r))) with
  | String ":" _ => False
  | _ => True
  end.

End MergeSpec.

(** ** Predicates for the aggregation, the import and the samples *)

Module AggregateSpec.
Import Types JsDate Json MergeSpec.

(** The seconds of the records that satisfy [P]. *)
Definition totalWhere (P : PlaybackRecord → Prop) `{!∀ r, Decision (P r)}
    (rs : list PlaybackRecord) : Z :=
  sumZ (duration <$> filter P rs).

(** The seconds a day's entry holds for a language, as the calendar cell
    reads them: the number under the key, 0 when there is none. *)
Definition dayTotal (durations : gmap string (gmap string JsObject.total))
    (day lang : string) : Z :=
  JsObject.numberOr0 (durations !! day ≫= (.!! lang)).

(** A day's entry is kept well: a key that is no inherited name never holds
    a text, and each of the four languages holds a number. *)
Definition DayKept (d : gmap string JsObject.total) : Prop :=
  (∀ l, l ∉ JsObject.inheritedNames → d !! l ≠ Some JsObject.Text)
  ∧ (∀ l, l ∈ Language → ∃ n, d !! l = Some (JsObject.Num n)).

Definition AllKept (durations : gmap string (gmap string JsObject.total)) : Prop :=
  ∀ day d, durations !! day = Some d → DayKept d.

(** A parsed document the import refuses: the text did not parse, or the
    [version] property is missing, or [records] is missing or no array. *)
Definition malformed (parsed : option json) : Prop :=
  match parsed with
  | None => True
  | Some data =>
      getProp data "version" = None
      ∨ ¬ ∃ records, getProp data "records" = Some (JArr records)
  end.

(** A document that passes the check of the import: a truthy [version]
    and an array [records]. *)
Definition validated (data : json) (records : list json) : Prop :=
  truthy (getProp data "version") = true
  ∧ getProp data "records" = Some (JArr records).

(** A record whose [saveRecord] call resolves. *)
Definition accepted (record : json) : Prop :=
  Database.saveRecordResolves record = true.

(** A document of the export format: a version, and an array [records] of
    objects that carry a string [sessionId]. *)
Definition wellFormed (data : json) (records : list json) : Prop :=
  truthy (getProp data "version") = true
  ∧ getProp data "records" = Some (JArr records)
  ∧ Forall (λ r, ∃ id, getProp r "sessionId" = Some (JStr id)) records.

End AggregateSpec.

(** ** Sample data *)

Module Samples.
Import Types JsDate Json History.

(** Three plays on 2024-03-01, newest first as the history lists them.
    All three have the key [":::b::english"]: [play1] by no channel and
    the title [":b"], the other two by the channel [":"] and the title
    ["b"]. *)
Definition play1 : PlaybackRecord :=
  mkPlaybackRecord "s1" ":b" "https://v.example/w?v=1" "english" 300
                   (utc 2024 3 1 10 9 0) None None.
Definition play2 : PlaybackRecord :=
  mkPlaybackRecord "s2" "b" "https://v.example/w?v=2" "english" 240
                   (utc 2024 3 1 10 5 0) (Some ":") None.
Definition play3 : PlaybackRecord :=
  mkPlaybackRecord "s3" "b" "https://v.example/w?v=2" "english" 180
                   (utc 2024 3 1 10 0 0) (Some ":") None.

(** Two plays of one video twenty minutes apart. *)
Definition scenarioA : PlaybackRecord :=
  mkPlaybackRecord "e1" "A" "https://v.example/w?v=3" "english" 600
                   (utc 2024 3 1 10 0 0) None None.
Definition scenarioB : PlaybackRecord :=
  mkPlaybackRecord "e2" "A" "https://v.example/w?v=3" "english" 300
                   (utc 2024 3 1 10 20 0) None None.

(** The same video through two links, with title and channel written
    differently. *)
Definition linkA : PlaybackRecord :=
  mkPlaybackRecord "a" " My Video " "https://v.example/w?v=7&t=10&si=abc" "english" 600
                   (utc 2024 3 1 10 0 0) (Some "Chan") None.
Definition linkB : PlaybackRecord :=
  mkPlaybackRecord "b" "my video" "https://v.example/w?si=abc&v=7" "english" 300
                   (utc 2024 3 2 9 0 0) (Some "  CHAN") (Some "logo.png").

(** A record whose language is none of the four. *)
Definition klingon : PlaybackRecord :=
  mkPlaybackRecord "k" "tlhIngan Hol" "https://v.example/w?v=9" "klingon" 600
                   (utc 2024 3 1 10 0 0) None None.

Definition snapshotJan1 : DailyGoal :=
  mkDailyGoal (dateOnly 2024 1 1)
              {[ "cantonese" := 10; "english" := 20; "japanese" := 0; "spanish" := 45 ]}
              (Some {[ "cantonese" := true; "english" := true;
                       "japanese" := false; "spanish" := true ]})
              0.

(** The goal form after the snapshot was loaded and 30 typed for english. *)
Definition goalForm : GoalState :=
  {| goalInputs := <[ "english" := 30 ]> (goals snapshotJan1);
     languageVisibility := normalizeVisibility (visibility snapshotJan1);
     monthGoals := [snapshotJan1] |}.

Definition exportedDoc : json :=
  JObj [("version", JStr "1.0");
        ("exportDate", JStr "2024-03-01T10:00:00.000Z");
        ("records",
         JArr [JObj [("sessionId", JStr "s1");
                     ("duration", JNum (QArith_base.inject_Z 300))];
               JObj [("sessionId", JStr "s2");
                     ("duration", JNum (QArith_base.inject_Z 240))]]);
        ("goals", JArr [])].

(** A document with a version and an array of three records, the second
    of which carries no [sessionId]. *)
Definition docMissingId : json :=
  JObj [("version", JStr "1.0");
        ("records",
         JArr [JObj [("sessionId", JStr "s1")];
               JObj [("title", JStr "no id")];
               JObj [("sessionId", JStr "s3")]])].

(** A record whose language tag is a name every object inherits. *)
Definition inheritedTag : PlaybackRecord :=
  mkPlaybackRecord "t" "tag" "https://v.example/w?v=8" "toString" 600
                   (utc 2024 3 1 12 0 0) None None.

End Samples.

(** ** services/database: the records store *)

Module Records.
Import Types.

(** The object store [records], key path [sessionId]: its records in key
    order, one per key.  The keys are strings, which IndexedDB orders by
    code unit. *)
Abbreviation RecordStore := (list PlaybackRecord).

Definition keyBefore (a b : string) : bool := String.ltb a b.

(** [s || null] on an optional string. *)
Definition orNull (o : option string) : option string :=
  if History.falsy o then None else o.

(** The object literal [completeRecord] of [saveRecord]. *)
Definition completeRecord (record : PlaybackRecord) : PlaybackRecord :=
  {| sessionId := sessionId record;
     title := title record;
     url := url record;
     language := language record;
     duration := duration record;
     date := date record;
     channelName := orNull (channelName record);
     channelLogo := orNull (channelLogo record) |}.

(** [store.put(doc)]: the record replaces the one stored under its key. *)
Definition putRecord (doc : PlaybackRecord) (store : RecordStore) : RecordStore :=
  filter (λ r, keyBefore (sessionId r) (sessionId doc)) store
  ++ doc :: filter (λ r, keyBefore (sessionId doc) (sessionId r)) store.

Definition saveRecord (store : RecordStore) (record : PlaybackRecord) : RecordStore :=
  putRecord (completeRecord record) store.

(** [store.getAll()]: the records in key order. *)
Definition getAllRecords (store : RecordStore) : list PlaybackRecord := store.

(** [store.delete(sessionId)]. *)
Definition deleteRecord (store : RecordStore) (id : string) : RecordStore :=
  filter (λ r, sessionId r ≠ id) store.

End Records.

(** ** Date built-ins: local dates from their parts, and the weekday *)

Module JsLocalDate.
Import JsDate.

(** [new Date(year, monthIndex, day)], the local midnight of a day given by
    its parts (a part out of range carries over); [getDay], the weekday of
    an instant in local time, Sunday being 0; and [setMonth], the instant
    with the month replaced, the day of the month and the time of day
    kept (a part out of range carries over).  On an instant that is a
    local midnight, [setDate(day)] is [makeDate] of its year and month. *)
Class LocalDates `{LocalTime} := {
  makeDate : Z → Z → Z → Z;
  getDay : Z → Z;
  setMonth : Z → Z → Z
}.

(** A host whose local time is UTC.  A year from 0 to 99 given to the
    constructor stands for 1900 + year; 1970-01-01 was a Thursday. *)
#[export] Instance utcDates : LocalDates := {|
  makeDate year monthIndex day :=
    let year := if (0 <=? year) && (year <=? 99) then 1900 + year else year in
    dateOnly (year + monthIndex / 12) (monthIndex mod 12 + 1) day;
  getDay t := (t / msPerDay + 4) mod 7;
  setMonth t monthIndex :=
    daysFromCivil (getFullYear t + monthIndex / 12) (monthIndex mod 12 + 1) (getDate t)
    * msPerDay + t mod msPerDay
|}.

End JsLocalDate.

(** ** components/History: loading, entering, editing, selecting, deleting

    A handler is modelled as it is called, on the values of the submitted
    form, with the store and the pieces of component state it reads and
    sets; a rejected store request, which the handlers catch and report,
    is outside the model.  The checks a browser makes on a form before it
    calls the handler are no part of the source; what the inputs of the
    edit form hold for the [defaultValue]s they are given is modelled with
    the form ([editDefaults]). *)

Module Actions.
Import JsString JsDate JsLocalDate Types Database Records History.

Record LanguageMeta := mkLanguageMeta {
  key : string;
  label : string;
  color : string
}.

Definition LANGUAGES : list LanguageMeta :=
  [ mkLanguageMeta "cantonese" "Cantonese" "#f97316";
    mkLanguageMeta "english" "English" "#2563eb";
    mkLanguageMeta "japanese" "Japanese" "#16a34a";
    mkLanguageMeta "spanish" "Spanish" "#dc2626" ].

(** Whether [obj[key]] is truthy, for an object of booleans: an own
    property by its value; an inherited one is a function, which is
    truthy. *)
Definition truthyAt (obj : gmap string bool) (key : string) : bool :=
  match obj !! key with
  | Some b => b
  | None => bool_decide (key ∈ JsObject.inheritedNames)
  end.

Definition visibleLanguages (languageVisibility : gmap string bool)
  : list LanguageMeta :=
  filter (λ lang, truthyAt languageVisibility (key lang)) LANGUAGES.

Definition filteredDisplayRecords (languageVisibility : gmap string bool)
    (displayRecords : list DisplayRecord) : list DisplayRecord :=
  filter (λ record, truthyAt languageVisibility (language (base record)))
         displayRecords.

(** *** loadRecords *)

Section Load.
Context `{LocalDates}.

(** The callback of [allRecords.filter]; [now] is the clock it reads. *)
Definition keeps (languageFilter dateFilter : string) (now : Z)
    (record : PlaybackRecord) : bool :=
  if negb (bool_decide (languageFilter = "all"))
     && negb (bool_decide (language record = languageFilter))
  then false
  else
    let recordDate := date record in
    let today := makeDate (getFullYear now) (getMonth now) (getDate now) in
    let weekStart :=
      makeDate (getFullYear today) (getMonth today) (getDate today - getDay today) in
    let monthStart := makeDate (getFullYear today) (getMonth today) 1 in
    if bool_decide (dateFilter = "today") then today <=? recordDate
    else if bool_decide (dateFilter = "week") then weekStart <=? recordDate
    else if bool_decide (dateFilter = "month") then monthStart <=? recordDate
    else true.

(** The list [loadRecords] hands to [setRecords]. *)
Definition loadRecords (store : RecordStore) (languageFilter dateFilter : string)
    (now : Z) : list PlaybackRecord :=
  let allRecords := getAllRecords store in
  let filteredRecords := filter (keeps languageFilter dateFilter now) allRecords in
  sort (λ a b, date b - date a) filteredRecords.

End Load.

(** *** Manual entry and editing *)

(** ["manual_session_" + Date.now() + "_" + Math.random().toString(36).substr(2, 9)];
    [random] is the text the random number gave. *)
Definition generateSessionId (now : Z) (random : string) : string :=
  "manual_session_" +:+ pretty now +:+ "_" +:+ random.

(** What a handler reads from the submitted form.  A date input holds the
    empty text or a day YYYY-MM-DD: [fieldDate] is [None] for the empty
    text, and the instant [new Date(date)] of the day otherwise.
    [fieldDuration] is [parseInt] of the duration input, [None] for NaN. *)
Record EntryForm := mkEntryForm {
  fieldDate : option Z;
  fieldTitle : string;
  fieldUrl : string;
  fieldDuration : option Z;
  fieldLanguage : string
}.

(** How a submit ends: nothing happens, the alert to fill in all required
    fields is shown, or the record is saved and the list reloaded. *)
Inductive Outcome := Ignored | Refused | Saved (store : RecordStore).

(** [!s] on a string. *)
Definition isEmpty (s : string) : bool := bool_decide (s = EmptyString).

(** [handleManualEntry]. *)
Definition handleManualEntry (store : RecordStore) (now : Z) (random : string)
    (form : EntryForm) : Outcome :=
  match fieldDate form, fieldDuration form with
  | Some date, Some durationMinutes =>
      if isEmpty (fieldTitle form) || (durationMinutes =? 0)
         || isEmpty (fieldLanguage form)
      then Refused
      else
        let record :=
          {| sessionId := generateSessionId now random;
             duration := durationMinutes * 60;
             title := fieldTitle form;
             language := fieldLanguage form;
             date := date;
             url := if isEmpty (fieldUrl form) then "manual-entry" else fieldUrl form;
             channelName := None;
             channelLogo := None |} in
        Saved (saveRecord store record)
  | _, _ => Refused
  end.

(** The day of an instant as [toISOString().split("T")[0]] names it: two
    instants have the same text exactly when they have the same UTC day. *)
Definition isoDay (t : Z) : Z := t / msPerDay.

(** The value an input holds for the [defaultValue] it is given.  An
    input of type text strips the line breaks LF and CR from it; an input
    of type url strips them too, and then the ASCII white space (TAB, FF
    and SP are left of it) at both ends. *)
Definition isLineBreak (c : ascii) : bool :=
  ((code c =? 10) || (code c =? 13))%N.

Definition isAsciiWhiteSpace (c : ascii) : bool :=
  ((code c =? 9) || (code c =? 10) || (code c =? 12) || (code c =? 13)
   || (code c =? 32))%N.

Fixpoint stripLineBreaks (s : string) : string :=
  match s with
  | EmptyString => EmptyString
  | String c s' =>
      if isLineBreak c then stripLineBreaks s' else String c (stripLineBreaks s')
  end.

Fixpoint stripStart (s : string) : string :=
  match s with
  | EmptyString => EmptyString
  | String c s' => if isAsciiWhiteSpace c then stripStart s' else s
  end.

Fixpoint stripEnd (s : string) : string :=
  match s with
  | EmptyString => EmptyString
  | String c s' =>
      match stripEnd s' with
      | EmptyString => if isAsciiWhiteSpace c then EmptyString else String c EmptyString
      | t => String c t
      end
  end.

Definition textValue (defaultValue : string) : string :=
  stripLineBreaks defaultValue.

Definition urlValue (defaultValue : string) : string :=
  stripEnd (stripStart (stripLineBreaks defaultValue)).

(** The [option]s of the language select of the edit form, and the one
    selected for a [defaultValue]: the option with that value, the first
    option when there is none. *)
Definition editLanguageOptions : list string :=
  ["cantonese"; "english"; "japanese"; "spanish"].

Definition selectValue (defaultValue : string) : string :=
  if bool_decide (defaultValue ∈ editLanguageOptions) then defaultValue
  else "cantonese".

(** What the edit form of [editingRecord] submits when no field has been
    touched: the [defaultValue]s of the fields, as the inputs hold them. *)
Definition editDefaults (editingRecord : PlaybackRecord) : EntryForm :=
  {| fieldDate := Some (isoDay (date editingRecord) * msPerDay);
     fieldTitle := textValue (title editingRecord);
     fieldUrl := urlValue (url editingRecord);
     fieldDuration := Some (duration editingRecord / 60);
     fieldLanguage := selectValue (language editingRecord) |}.

(** The object literal [updatedRecord] of [handleEditEntry]. *)
Definition updatedRecord (editingRecord : PlaybackRecord) (title url : string)
    (durationMinutes : Z) (language : string) (date : Z) : PlaybackRecord :=
  let originalDurationMinutes := duration editingRecord / 60 in
  let originalDate := isoDay (Types.date editingRecord) in
  let inputDate := isoDay date in
  {| sessionId := sessionId editingRecord;
     title := title;
     url := if isEmpty url then Types.url editingRecord else url;
     duration :=
       if durationMinutes =? originalDurationMinutes then duration editingRecord
       else durationMinutes * 60;
     language := language;
     date := if inputDate =? originalDate then Types.date editingRecord else date;
     channelName := channelName editingRecord;
     channelLogo := channelLogo editingRecord |}.

(** [handleEditEntry]. *)
Definition handleEditEntry (store : RecordStore) (editingRecord : option PlaybackRecord)
    (form : EntryForm) : Outcome :=
  match editingRecord with
  | None => Ignored
  | Some editingRecord =>
      match fieldDuration form, fieldDate form with
      | Some durationMinutes, Some date =>
          if isEmpty (fieldTitle form) || (durationMinutes =? 0)
             || isEmpty (fieldLanguage form)
          then Refused
          else
            Saved (saveRecord store
                     (updatedRecord editingRecord (fieldTitle form) (fieldUrl form)
                                    durationMinutes (fieldLanguage form) date))
      | _, _ => Refused
      end
  end.

(** *** Selecting and deleting *)

(** [Array.from(new Set(l))]: the first occurrence of every value, in
    order. *)
Fixpoint uniq (l : list string) : list string :=
  match l with
  | [] => []
  | x :: l' => x :: filter (λ y, y ≠ x) (uniq l')
  end.

(** [toggleRecordSelection]: the updater given to [setSelectedRecords],
    on the selection [prev]. *)
Definition toggleRecordSelection (sessionIds : string + list string)
    (prev : list string) : list string :=
  let ids := match sessionIds with inl id => [id] | inr ids => ids end in
  let next := uniq prev in
  let allSelected := forallb (λ id, bool_decide (id ∈ next)) ids in
  if allSelected then
    fold_left (λ next id, filter (λ x, x ≠ id) next) ids next
  else
    fold_left (λ next id, if bool_decide (id ∈ next) then next else next ++ [id])
              ids next.

(** [isSelected] of a card. *)
Definition isSelected (selectedRecords : list string) (record : DisplayRecord) : bool :=
  forallb (λ id, bool_decide (id ∈ selectedRecords)) (mergedSessionIds record).

(** [deleteRecordGroup]; [confirm] is the answer to the question asked.
    The store and the selection afterwards. *)
Definition deleteRecordGroup (confirm : string → bool) (store : RecordStore)
    (selectedRecords : list string) (sessionIds : list string)
  : RecordStore * list string :=
  if bool_decide (length sessionIds = 0%nat) then (store, selectedRecords)
  else
    let uniqueIds := uniq sessionIds in
    let message :=
      if bool_decide (length uniqueIds = 1%nat)
      then "Are you sure you want to delete this record?"
      else "Delete this merged record? This will remove "
           +:+ pretty (length uniqueIds) +:+ " segments." in
    if confirm message then
      (fold_left deleteRecord uniqueIds store,
       filter (λ id, id ∉ uniqueIds) selectedRecords)
    else (store, selectedRecords).

(** [batchDelete]. *)
Definition batchDelete (confirm : string → bool) (store : RecordStore)
    (selectedRecords : list string) : RecordStore * list string :=
  if bool_decide (length selectedRecords = 0%nat) then (store, selectedRecords)
  else if confirm ("Are you sure you want to delete the selected "
                   +:+ pretty (length selectedRecords) +:+ " records?")
  then
    let uniqueIds := uniq selectedRecords in
    (fold_left deleteRecord uniqueIds store, [])
  else (store, selectedRecords).

(** *** Visibility of a language *)

(** [toggleLanguageVisibility], the updater it gives to
    [setLanguageVisibility] with what the updater sets off: the goal store
    after [persist], the component state with the visibility the updater
    returns, and the language filter it leaves.  What a changed filter
    sets off in turn is [afterToggle] below. *)
Definition toggleLanguageVisibility (store : GoalStore) (now today : Z)
    (st : GoalState) (languageFilter language : string)
  : GoalStore * GoalState * string :=
  let prev := languageVisibility st in
  let next := <[language := negb (truthyAt prev language)]> prev in
  let languageFilter' :=
    if negb (truthyAt next language) && bool_decide (languageFilter = language)
    then "all" else languageFilter in
  let existingDailyGoal := getDailyGoal store today in
  let goals :=
    match existingDailyGoal with
    | Some g => goals g
    | None => goalInputs st
    end in
  let normalizedVisibility := normalizeVisibility (Some next) in
  let store' :=
    saveDailyGoal store now
      {| goalDate := today;
         goals := goals;
         visibility := Some normalizedVisibility;
         updatedAt := now |} in
  (store',
   {| goalInputs := goalInputs st;
      languageVisibility := next;
      monthGoals := monthGoals st |},
   languageFilter').

(** The state of the component that the list of cards is drawn from. *)
Record Screen := mkScreen {
  goalState : GoalState;
  shownFilter : string;
  shownRecords : list PlaybackRecord
}.

Section Cards.
Context `{LocalTime}.

(** [filteredDisplayRecords] of the component: the cards of the records
    it holds, without those of a language that is not visible. *)
Definition shownCards (mergeDisplay : bool) (screen : Screen) : list DisplayRecord :=
  filteredDisplayRecords (languageVisibility (goalState screen))
                         (buildDisplayRecords (shownRecords screen) mergeDisplay).

End Cards.

Section Toggle.
Context `{LocalDates}.

(** [loadGoals] as the effect runs it while [persist] is under way: the
    goal inputs and the visibility come from its first read
    ([getDailyGoal]), the goals of the month from its second
    ([getAllDailyGoals]). *)
Definition reloadGoals (first second : GoalStore) (inSelectedMonth : DailyGoal → bool)
    (now today : Z) (st : GoalState) : GoalState :=
  {| goalInputs := goalInputs (loadGoals first inSelectedMonth now today st);
     languageVisibility :=
       languageVisibility (loadGoals first inSelectedMonth now today st);
     monthGoals := monthGoals (loadGoals second inSelectedMonth now today st) |}.

(** The component once a click on the visibility of [language] has
    settled.  When the updater leaves the language filter as it was, the
    state is the one the updater returns.  When it changes the filter,
    the effect on [selectedMonth, dateFilter, languageFilter] runs
    [loadGoals(); loadRecords()] with the new filter and the new
    visibility, and what these set is set last.  The effect runs while
    [persist] is under way: [seesFirst] and [seesSecond] tell whether the
    first and the second read of [loadGoals] find the snapshot that
    [persist] writes. *)
Definition afterToggle (seesFirst seesSecond : bool)
    (goalStore : GoalStore) (recordStore : RecordStore)
    (inSelectedMonth : DailyGoal → bool) (now today : Z) (dateFilter : string)
    (screen : Screen) (language : string) : GoalStore * Screen :=
  let '(store', st', languageFilter') :=
    toggleLanguageVisibility goalStore now today (goalState screen)
                             (shownFilter screen) language in
  if bool_decide (languageFilter' = shownFilter screen) then
    (store',
     {| goalState := st';
        shownFilter := languageFilter';
        shownRecords := shownRecords screen |})
  else
    let first := if seesFirst then store' else goalStore in
    let second := if seesSecond then store' else goalStore in
    (store',
     {| goalState := reloadGoals first second inSelectedMonth now today st';
        shownFilter := languageFilter';
        shownRecords := loadRecords recordStore languageFilter' dateFilter now |}).

End Toggle.

(** *** The timeline of a card *)

Definition orderedSegments (record : DisplayRecord) : list TimelineSegment :=
  sort (λ a b, segStart a - segStart b) (segments record).

Definition spanDuration (record : DisplayRecord) : Z :=
  Z.max (spanEnd record - spanStart record) 1.

(** [(part / spanDuration) * 100], as an exact quotient; the rounding of
    the floating-point operations is not modelled. *)
Definition percent (part whole : Z) : QArith_base.Q :=
  QArith_base.Qmult (QArith_base.Qdiv (QArith_base.inject_Z part)
                                      (QArith_base.inject_Z whole))
                    (QArith_base.inject_Z 100).

Definition segmentLeft (record : DisplayRecord) (segment : TimelineSegment)
  : QArith_base.Q :=
  percent (segStart segment - spanStart record) (spanDuration record).

Definition segmentWidth (record : DisplayRecord) (segment : TimelineSegment)
  : QArith_base.Q :=
  percent (segEnd segment - segStart segment) (spanDuration record).

(** [Math.max(width, 1)], the width the segment is drawn with. *)
Definition shownWidth (record : DisplayRecord) (segment : TimelineSegment)
  : QArith_base.Q :=
  let width := segmentWidth record segment in
  if QArith_base.Qle_bool width (QArith_base.inject_Z 1)
  then QArith_base.inject_Z 1 else width.

End Actions.

(** ** Predicates for the store and the handlers *)

Module ActionSpec.
Import Types Records Actions.

(** A record as [saveRecord] stores it: a channel name and a logo that
    are a non-empty text or absent. *)
Definition normalised (r : PlaybackRecord) : Prop := completeRecord r = r.

(** A store as the service keeps it: the records ascend by key, so that
    no two share a [sessionId], and each is normalised. *)
Definition Kept (store : RecordStore) : Prop :=
  StronglySorted (λ a b, keyBefore (sessionId a) (sessionId b)) store
  ∧ Forall normalised store.

(** The calls that change the store. *)
Inductive StoreOp := Save (record : PlaybackRecord) | Delete (id : string).

Definition applyOp (store : RecordStore) (op : StoreOp) : RecordStore :=
  match op with
  | Save record => saveRecord store record
  | Delete id => deleteRecord store id
  end.

(** The store after a history of calls on the empty store. *)
Definition runOps (ops : list StoreOp) : RecordStore := fold_left applyOp ops [].

(** A visibility with the entry of one language turned over, the others
    as they are. *)
Definition flipped (visibility : gmap string bool) (language : string)
  : gmap string bool :=
  <[language := negb (truthyAt visibility language)]> visibility.

End ActionSpec.

(** ** The grouping of a list into cards, stated on neighbours *)

Module GroupSpec.
Import Types JsDate History.

Section Joins.
Context `{LocalTime}.

(** Two neighbours of the list belong to one card: they have the same
    merge key, and they are not on different calendar days more than two
    hours apart. *)
Definition joins (a b : PlaybackRecord) : bool :=
  bool_decide (getVideoKey a = getVideoKey b)
  && negb (crossesDay (date a) (date b) && gapExceeds2 (date a) (date b)).

End Joins.

(** The runs of a list: its maximal stretches in which every element is
    related to the next. *)
Fixpoint runs {A} (R : A → A → bool) (l : list A) : list (list A) :=
  match l with
  | [] => []
  | a :: l' =>
      match runs R l' with
      | (b :: g) :: gs => if R a b then (a :: b :: g) :: gs else [a] :: (b :: g) :: gs
      | _ => [[a]]
      end
  end.

(** What appending [b] makes of the runs of a list: [b] extends the last
    run when the last element is related to it, and starts a run
    otherwise. *)
Fixpoint snocRun {A} (R : A → A → bool) (b : A) (G : list (list A)) : list (list A) :=
  match G with
  | [] => [[b]]
  | [g] =>
      match last g with
      | Some a => if R a b then [g ++ [b]] else [g; [b]]
      | None => [[b]]
      end
  | g :: G' => g :: snocRun R b G'
  end.

(** The groups of a list read backwards. *)
Definition mirror {A} (G : list (list A)) : list (list A) := reverse (reverse <$> G).

End GroupSpec.

(** ** components/History: exportData *)

Module DataExport.
Import Json Types.

Section Document.
(** [toISOString] of an instant. *)
Variable toISOString : Z → string.

(** A stored record as [JSON.stringify] writes it and [JSON.parse] reads
    it back. *)
Definition recordJson (r : PlaybackRecord) : json :=
  JObj [("sessionId", JStr (sessionId r));
        ("title", JStr (title r));
        ("url", JStr (url r));
        ("language", JStr (language r));
        ("duration", JNum (QArith_base.inject_Z (duration r)));
        ("date", JStr (toISOString (date r)));
        ("channelName", match channelName r with Some s => JStr s | None => JNull end);
        ("channelLogo", match channelLogo r with Some s => JStr s | None => JNull end)].

(** The document [exportData] writes: [records] and [goals] are the lists
    the component holds, the goals as they are written; [now] is the
    clock. *)
Definition exportData (records : list PlaybackRecord) (goals : list json) (now : Z)
  : json :=
  JObj [("version", JStr "1.0");
        ("exportDate", JStr (toISOString now));
        ("records", JArr (recordJson <$> records));
        ("goals", JArr goals)].

End Document.

End DataExport.

(** ** components/Calendar: the grid of a month *)

Module CalendarGrid.
Import JsDate JsLocalDate JsObject Types Calendar.

Record CalendarDay := mkCalendarDay {
  cellDate : Z;
  cellDateStr : option string;
  isCurrentMonth : bool;
  isToday : bool;
  cellDuration : option (gmap string total);
  isPlaceholder : bool
}.

Section Grid.
Context `{LocalDates}.

(** [a.toDateString() === b.toDateString()]: the same day in local
    time. *)
Definition sameDateString (a b : Z) : bool :=
  (getFullYear a =? getFullYear b) && (getMonth a =? getMonth b)
  && (getDate a =? getDate b).

(** [generateCalendarDays]; [now] is the clock. *)
Definition generateCalendarDays (currentMonth now : Z)
    (dailyDurations : gmap string (gmap string total)) : list CalendarDay :=
  let year := getFullYear currentMonth in
  let month := getMonth currentMonth in
  let firstDay := makeDate year month 1 in
  let lastDay := makeDate year (month + 1) 0 in
  let firstDayWeekday := getDay firstDay in
  let daysInMonth := getDate lastDay in
  replicate (Z.to_nat firstDayWeekday)
            {| cellDate := now;
               cellDateStr := None;
               isCurrentMonth := false;
               isToday := false;
               cellDuration := None;
               isPlaceholder := true |}
  ++ ((λ i,
         let date := makeDate year month i in
         let dateStr :=
           pretty year +:+ "-" +:+ padStart2 (pretty (month + 1))
           +:+ "-" +:+ padStart2 (pretty i) in
         {| cellDate := date;
            cellDateStr := Some dateStr;
            isCurrentMonth := true;
            isToday := sameDateString date now;
            cellDuration := dailyDurations !! dateStr;
            isPlaceholder := false |})
        <$> seqZ 1 daysInMonth).

(** [changeMonth]: the updater given to [setCurrentMonth], on the month
    shown. *)
Definition changeMonth (direction : string) (prev : Z) : Z :=
  let newMonth := prev in
  if bool_decide (direction = "prev")
  then setMonth newMonth (getMonth newMonth - 1)
  else setMonth newMonth (getMonth newMonth + 1).

End Grid.

End CalendarGrid.

(** ** The 400-year cycle of the calendar, checked day by day *)

Module Gregorian.

(** For a day of the cycle, the year of the cycle that [civilFromDays]
    computes lies in the cycle, and the day lies in that year: on or
    after its first day and before the first day of the next (the last
    year of the cycle has the leap day of the cycle). *)
Definition dayOk (doe : Z) : bool :=
  let yoe := (doe - doe / 1460 + doe / 36524 - doe / 146096) / 365 in
  let doy := doe - (365 * yoe + yoe / 4 - yoe / 100) in
  (0 <=? yoe) && (yoe <? 400) && (0 <=? doy) && (doy <=? 365)
  && (doe <? 365 * (yoe + 1) + (yoe + 1) / 4 - (yoe + 1) / 100 + (yoe + 1) / 400).

(** [p] holds of the [fuel] integers from [n] on. *)
Fixpoint allFrom (fuel : nat) (n : Z) (p : Z → bool) : bool :=
  match fuel with
  | O => true
  | S fuel => p n && allFrom fuel (n + 1) p
  end.

End Gregorian.

(** ** Sample data for the store and the handlers *)

Module MoreSamples.
Import Types JsDate History Records Actions.

(** [scenarioA] with another title, as an edit would store it. *)
Definition retitled : PlaybackRecord :=
  mkPlaybackRecord "e1" "A, first part" "https://v.example/w?v=3" "english" 600
                   (utc 2024 3 1 10 0 0) None None.

(** A record of 45 seconds. *)
Definition glimpse : PlaybackRecord :=
  mkPlaybackRecord "g1" "Trailer" "https://v.example/w?v=5" "japanese" 45
                   (utc 2024 3 1 9 0 0) None None.

(** The edit form of [scenarioA] with the duration set to 12 minutes and
    the day moved to 2024-03-02. *)
Definition editedForm : EntryForm :=
  {| fieldDate := Some (dateOnly 2024 3 2);
     fieldTitle := "A";
     fieldUrl := "";
     fieldDuration := Some 12;
     fieldLanguage := "english" |}.

(** A manual entry of 15 minutes of english on 2024-03-01. *)
Definition manualForm : EntryForm :=
  {| fieldDate := Some (dateOnly 2024 3 1);
     fieldTitle := "Podcast";
     fieldUrl := "";
     fieldDuration := Some 15;
     fieldLanguage := "english" |}.

(** Friday 2024-03-01, 10:00 UTC. *)
Definition friday : Z := utc 2024 3 1 10 0 0.

(** A record in spanish, and the component with the language filter on
    english, holding the one english record of the store
    [[scenarioA; siesta]]. *)
Definition siesta : PlaybackRecord :=
  mkPlaybackRecord "p1" "Siesta" "https://v.example/w?v=6" "spanish" 900
                   (utc 2024 3 1 8 0 0) None None.

Definition englishOnly : Screen :=
  {| goalState := Samples.goalForm;
     shownFilter := "english";
     shownRecords := [Samples.scenarioA] |}.

End MoreSamples.

(** * Properties *)

Import JsString JsDate Json Types.

(** ** Strings *)

Section StringFacts.

Lemma code_lt_256 c : (code c < 256)%N.
Proof. apply N_ascii_bounded. Qed.

Lemma code_inj c d : code c = code d → c = d.
Proof.
  intros H. rewrite <- (ascii_N_embedding c), <- (ascii_N_embedding d).
  unfold code in H. by rewrite H.
Qed.

Lemma code_ascii_of_N n : (n < 256)%N → code (ascii_of_N n) = n.
Proof. apply N_ascii_embedding. Qed.

(** Turns the comparisons of code points in the hypotheses into
    arithmetic facts, splitting the boolean connectives. *)
Ltac code_facts :=
  repeat match goal with
         | H : (_ || _) = true |- _ => apply orb_true_iff in H; destruct H
         | H : (_ && _) = true |- _ => apply andb_true_iff in H; destruct H
         | H : (_ || _) = false |- _ => apply orb_false_iff in H; destruct H
         | H : (_ && _) = false |- _ => apply andb_false_iff in H; destruct H
         | H : negb _ = true |- _ => apply negb_true_iff in H
         | H : negb _ = false |- _ => apply negb_false_iff in H
         | H : (_ <=? _)%N = true |- _ => apply N.leb_le in H
         | H : (_ <=? _)%N = false |- _ => apply N.leb_gt in H
         | H : (_ =? _)%N = true |- _ => apply N.eqb_eq in H
         | H : (_ =? _)%N = false |- _ => apply N.eqb_neq in H
         end.

Lemma sameChar_lower c d :
  sameCharUpToCase c d = true → lowerChar c = lowerChar d.
Proof.
  unfold sameCharUpToCase, lowerChar, isUpper.
  pose proof (code_lt_256 c). pose proof (code_lt_256 d).
  intros Hs. apply code_inj.
  repeat match goal with
         | |- context [if ?b then _ else _] => destruct b eqn:?
         end;
    code_facts; rewrite ?code_ascii_of_N by lia; lia.
Qed.

Lemma sameChar_white c d :
  sameCharUpToCase c d = true → isWhiteSpace c = isWhiteSpace d.
Proof.
  unfold sameCharUpToCase, isWhiteSpace, isUpper.
  pose proof (code_lt_256 c). pose proof (code_lt_256 d).
  intros Hs. code_facts;
    repeat match goal with
           | |- context [(?a <=? ?b)%N] => destruct (N.leb_spec a b)
           | |- context [(?a =? ?b)%N] => destruct (N.eqb_spec a b)
           end; simpl; try reflexivity; lia.
Qed.

Lemma sameUpToCase_lower s t :
  sameUpToCase s t = true → toLowerCase s = toLowerCase t.
Proof.
  revert t. induction s as [|c s IH]; intros [|d t]; simpl; try done.
  intros [Hc Hs]%andb_true_iff. f_equal; [by apply sameChar_lower | by apply IH].
Qed.

Lemma sameUpToCase_trimStart s t :
  sameUpToCase s t = true → sameUpToCase (trimStart s) (trimStart t) = true.
Proof.
  revert t. induction s as [|c s IH]; intros [|d t]; simpl; try done.
  intros H. pose proof H as [Hc Hs]%andb_true_iff.
  rewrite <- (sameChar_white c d Hc).
  destruct (isWhiteSpace c); [by apply IH | exact H].
Qed.

Lemma sameUpToCase_trimEnd s t :
  sameUpToCase s t = true → sameUpToCase (trimEnd s) (trimEnd t) = true.
Proof.
  revert t. induction s as [|c s IH]; intros [|d t]; simpl; try done.
  intros [Hc Hs]%andb_true_iff.
  specialize (IH t Hs). rewrite <- (sameChar_white c d Hc).
  destruct (trimEnd s) as [|c' s'] eqn:Es; destruct (trimEnd t) as [|d' t'] eqn:Et;
    simpl in IH; try done.
  - destruct (isWhiteSpace c); simpl; [done | by rewrite Hc].
  - simpl. by rewrite Hc, IH.
Qed.

Lemma trimStart_app_white w s : allWhite w = true → trimStart (w +:+ s) = trimStart s.
Proof.
  induction w as [|c w IH]; simpl; [done |].
  intros [Hc Hw]%andb_true_iff. rewrite Hc. by apply IH.
Qed.

Lemma trimEnd_white w : allWhite w = true → trimEnd w = EmptyString.
Proof.
  induction w as [|c w IH]; simpl; [done |].
  intros [Hc Hw]%andb_true_iff. by rewrite IH, Hc.
Qed.

Lemma trimEnd_app_white s w : allWhite w = true → trimEnd (s +:+ w) = trimEnd s.
Proof.
  intros Hw. induction s as [|c s IH]; simpl.
  - by apply trimEnd_white.
  - by rewrite IH.
Qed.

Lemma trimStart_white w : allWhite w = true → trimStart w = EmptyString.
Proof.
  induction w as [|c w IH]; simpl; [done |].
  intros [Hc Hw]%andb_true_iff. rewrite Hc. by apply IH.
Qed.

Lemma trim_app_white_r s w : allWhite w = true → trim (s +:+ w) = trim s.
Proof.
  intros Hw. unfold trim. induction s as [|c s IH].
  - change (EmptyString +:+ w) with w. by rewrite trimStart_white.
  - change (String c s +:+ w) with (String c (s +:+ w)).
    cbn [trimStart]. destruct (isWhiteSpace c); [exact IH |].
    by apply (trimEnd_app_white (String c s)).
Qed.

Lemma trim_padding l s r :
  allWhite l = true → allWhite r = true → trim (l +:+ s +:+ r) = trim s.
Proof.
  intros Hl Hr. unfold trim. rewrite trimStart_app_white by done.
  by apply trim_app_white_r.
Qed.

Lemma normalize_sameUpToCaseAndPadding s t :
  sameUpToCaseAndPadding s t →
  toLowerCase (trim s) = toLowerCase (trim t).
Proof.
  intros (l1 & r1 & l2 & r2 & s0 & t0 & -> & -> & Hl1 & Hr1 & Hl2 & Hr2 & Hst).
  rewrite !trim_padding by done.
  apply sameUpToCase_lower. unfold trim.
  by apply sameUpToCase_trimEnd, sameUpToCase_trimStart.
Qed.

End StringFacts.

(** ** Dates *)

Example civil_roundtrip_2024_03_01 :
  civilFromDays (daysFromCivil 2024 3 1) = (2024, 3, 1)
  ∧ utc 2024 3 1 10 0 0 = 1709287200000
  ∧ dateOnly 1970 1 1 = 0
  ∧ civilFromDays (-1) = (1969, 12, 31).
Proof. by vm_compute. Qed.


(** ** Merging *)

Section MergeFacts.
Import History MergeSpec.
Context `{LocalTime}.

Lemma gapExceeds2_spec p c : gapExceeds2 p c = true ↔ gapOver2h p c.
Proof.
  unfold gapExceeds2, gapOver2h, gapHours.
  rewrite negb_true_iff, <- not_true_iff_false, QArith_base.Qle_bool_iff.
  unfold QArith_base.Qle, QArith_base.Qdiv, QArith_base.Qmult, QArith_base.Qinv,
    QArith_base.inject_Z, msPerHour; simpl.
  lia.
Qed.

Lemma sumZ_app l1 l2 : sumZ (l1 ++ l2) = sumZ l1 + sumZ l2.
Proof. unfold sumZ. induction l1 as [|x l1 IH]; simpl; lia. Qed.

Lemma isEarliest_single x : isEarliest x [x].
Proof. split; [set_solver | intros y ->%list_elem_of_singleton; lia]. Qed.

Lemma isLatest_single x : isLatest x [x].
Proof. split; [set_solver | intros y ->%list_elem_of_singleton; lia]. Qed.

Lemma isEarliest_snoc x l y : isEarliest x l → isEarliest (Z.min x y) (l ++ [y]).
Proof.
  intros [Hin Hle]. split.
  - destruct (Z.min_spec x y) as [[_ ->]|[_ ->]]; set_solver.
  - intros z [Hz| ->%list_elem_of_singleton]%elem_of_app; [specialize (Hle z Hz)|]; lia.
Qed.

Lemma isLatest_snoc x l y : isLatest x l → isLatest (Z.max x y) (l ++ [y]).
Proof.
  intros [Hin Hle]. split.
  - destruct (Z.max_spec x y) as [[_ ->]|[_ ->]]; set_solver.
  - intros z [Hz| ->%list_elem_of_singleton]%elem_of_app; [specialize (Hle z Hz)|]; lia.
Qed.

Lemma Constituents_single r : Constituents (single r) [r].
Proof.
  unfold Constituents, single; simpl.
  split_and!; try apply isEarliest_single; try apply isLatest_single; try done.
  unfold sumZ; simpl; lia.
Qed.

Lemma Constituents_foldInto cur g r :
  Constituents cur g → Constituents (foldInto cur r) (g ++ [r]).
Proof.
  intros (Hids & Htot & Hseg & Hlen & Hmin & Hmax).
  unfold Constituents, foldInto; simpl.
  rewrite !fmap_app, sumZ_app, Hids, Htot, Hseg, !length_app, !length_fmap.
  split_and!; try done.
  - unfold sumZ; simpl; lia.
  - by apply isEarliest_snoc.
  - by apply (isLatest_snoc _ _ (date r + duration r * 1000)).
Qed.

Lemma runMerge_snoc rs r : runMerge (rs ++ [r]) = forEachBody (runMerge rs) r.
Proof. unfold runMerge. by rewrite fold_left_app. Qed.

Lemma Emitted_pushCurrent m cur groups g :
  Forall2 Emitted m groups → Constituents cur g →
  Forall2 Emitted (pushCurrent m (Some cur)) (groups ++ [g]).
Proof.
  intros Hm Hc. apply Forall2_app; [done |].
  constructor; [| constructor]. by split.
Qed.

Lemma MergeInv_step rs st r :
  MergeInv rs st → MergeInv (rs ++ [r]) (forEachBody st r).
Proof.
  intros (groups & Hem & Hcur). unfold forEachBody.
  destruct (current st) as [cur|] eqn:Ecur.
  - destruct Hcur as (g & a & -> & Hc & Hl).
    destruct (shouldMerge cur (lastMergedDate st) r) eqn:Es.
    + exists groups. split; [done |]. simpl.
      exists (g ++ [a]), r. split_and!; [by rewrite <- !app_assoc | | done].
      by apply Constituents_foldInto.
    + exists (groups ++ [g ++ [a]]). split; [by apply Emitted_pushCurrent |].
      simpl. exists [], r. rewrite concat_app; simpl. rewrite app_nil_r.
      split_and!; [by rewrite <- !app_assoc | apply Constituents_single | done].
  - destruct Hcur as [-> ->]. exists []. split; [done |]. simpl.
    exists [], r. split_and!; [done | apply Constituents_single | done].
Qed.

Lemma MergeInv_run rs : MergeInv rs (runMerge rs).
Proof.
  induction rs as [|r rs IH] using rev_ind.
  - exists []. split; [constructor | done].
  - rewrite runMerge_snoc. by apply MergeInv_step.
Qed.

(** Every display record is emitted for one group of consecutive input
    records, and the groups make up the input. *)
Lemma build_groups rs mergeConsecutive :
  ∃ groups, concat groups = rs
            ∧ Forall2 Emitted (buildDisplayRecords rs mergeConsecutive) groups.
Proof.
  unfold buildDisplayRecords. destruct mergeConsecutive; simpl.
  - destruct (MergeInv_run rs) as (groups & Hem & Hcur).
    destruct (current (runMerge rs)) as [cur|].
    + destruct Hcur as (g & a & -> & Hc & _).
      exists (groups ++ [g ++ [a]]). split.
      * rewrite concat_app; simpl. by rewrite app_nil_r.
      * by apply Emitted_pushCurrent.
    + destruct Hcur as [-> ->]. by exists [].
  - exists ((λ r, [r]) <$> rs). split.
    + induction rs as [|r rs IH]; csimpl; [done | by rewrite IH].
    + induction rs as [|r rs IH]; simpl; constructor; [| done].
      split; [apply Constituents_single | done].
Qed.

(** C9. With merging off, each record becomes its own display record, in
    input order: not merged, its own session id as the only merged id, its
    duration as the total, and one segment from its start to its start
    plus its duration. *)
Theorem unmerged_view_is_singletons (rs : list PlaybackRecord) :
  Forall2
    (λ d r, base d = r
            ∧ isMerged d = false
            ∧ mergedSessionIds d = [sessionId r]
            ∧ totalDuration d = duration r
            ∧ segments d = [mkSegment (date r) (date r + duration r * 1000)])
    (buildDisplayRecords rs false) rs.
Proof.
  unfold buildDisplayRecords; simpl.
  induction rs as [|r rs IH]; simpl; constructor; [| exact IH].
  by split_and!.
Qed.

(** C10. With either setting the display records partition the input: the
    merged session ids, concatenated in emission order, are the session ids
    of the input in input order; and a display record is marked merged
    exactly when it holds more than one id. *)
Theorem display_records_partition_input (rs : list PlaybackRecord) (mergeConsecutive : bool) :
  concat (mergedSessionIds <$> buildDisplayRecords rs mergeConsecutive)
    = sessionId <$> rs
  ∧ Forall (λ d, isMerged d = true ↔ (1 < length (mergedSessionIds d))%nat)
           (buildDisplayRecords rs mergeConsecutive).
Proof.
  destruct (build_groups rs mergeConsecutive) as (groups & <- & Hem).
  induction Hem as [|d g ds gs [Hd Hm] _ [IH1 IH2]]; [by split |].
  split.
  - simpl. rewrite fmap_app. f_equal; [| exact IH1].
    by destruct Hd as [-> _].
  - constructor; [| exact IH2].
    rewrite Hm. apply bool_decide_eq_true.
Qed.

(** C2. With either setting, every display record stands for a group of
    consecutive input records (the groups concatenate to the input): its
    merged ids are the ids of the group, its total duration is the sum of
    their durations, it has one segment per constituent, its span starts at
    the earliest constituent start and ends at the latest constituent end. *)
Theorem display_record_totals_and_span (rs : list PlaybackRecord) (mergeConsecutive : bool) :
  ∃ groups : list (list PlaybackRecord),
    concat groups = rs
    ∧ Forall2
        (λ d g,
           mergedSessionIds d = sessionId <$> g
           ∧ totalDuration d = sumZ (duration <$> g)
           ∧ segments d = segmentOf <$> g
           ∧ length (segments d) = length (mergedSessionIds d)
           ∧ isEarliest (spanStart d) (date <$> g)
           ∧ isLatest (spanEnd d) ((λ r, date r + duration r * 1000) <$> g))
        (buildDisplayRecords rs mergeConsecutive) groups.
Proof.
  destruct (build_groups rs mergeConsecutive) as (groups & Hcat & Hem).
  exists groups. split; [done |].
  eapply Forall2_impl; [exact Hem |]. by intros d g [Hd _].
Qed.

Lemma shouldMerge_spec cur d r :
  shouldMerge cur (Some d) r = true ↔
  getVideoKey r = getVideoKey (base cur)
  ∧ ¬ (crossesDay d (date r) = true ∧ gapOver2h d (date r)).
Proof.
  unfold shouldMerge.
  rewrite andb_true_iff, bool_decide_eq_true, negb_true_iff, andb_false_iff.
  rewrite <- gapExceeds2_spec.
  split; intros [Hk Hg]; (split; [done |]).
  - intros [Hc Hx]. destruct Hg; congruence.
  - destruct (crossesDay d (date r)); [| by left].
    destruct (gapExceeds2 d (date r)); [| by right]. by destruct Hg.
Qed.

(** After the records [pre ++ [a]] the pass holds an accumulator and the
    date of [a] as the date merged last, and the step on the next record
    folds it exactly when [shouldMerge] says so. *)
Lemma folded_iff_shouldMerge (pre : list PlaybackRecord) (a r : PlaybackRecord) :
  ∃ cur,
    current (runMerge (pre ++ [a])) = Some cur
    ∧ lastMergedDate (runMerge (pre ++ [a])) = Some (date a)
    ∧ (foldedInto (runMerge (pre ++ [a])) (runMerge (pre ++ [a] ++ [r])) r
       ↔ shouldMerge cur (Some (date a)) r = true).
Proof.
  rewrite (app_assoc pre [a] [r]), (runMerge_snoc (pre ++ [a]) r).
  destruct (MergeInv_run (pre ++ [a])) as (groups & Hem & Hcur).
  set (st := runMerge (pre ++ [a])) in *.
  destruct (current st) as [cur|] eqn:Ecur.
  2:{ destruct Hcur as [Hnil _]. by destruct pre. }
  destruct Hcur as (g & a' & Hrs & Hc & Hl).
  assert (a' = a) as ->.
  { rewrite (app_assoc (concat groups) g [a']) in Hrs.
    by apply app_inj_tail in Hrs as [_ ->]. }
  exists cur. split_and!; [done | done |].
  rewrite <- Hl. unfold foldedInto, forEachBody. rewrite Ecur.
  destruct (shouldMerge cur (lastMergedDate st) r); simpl.
  - split; [done | intros _]. split; [done |]. by exists cur, (foldInto cur r).
  - split; [| done]. intros [Hm _]. apply (f_equal length) in Hm.
    rewrite length_app in Hm. simpl in Hm. lia.
Qed.

(** The merge rule, for every input: after the records [pre ++ [a]] the
    pass holds an accumulator, and the next record [r] is folded into it
    exactly when the key of [r] is the accumulator's key and it is not the
    case that [r] falls on another calendar day than [a], the record merged
    last, with a gap over two hours. *)
Theorem merge_rule (pre : list PlaybackRecord) (a r : PlaybackRecord) :
  ∃ cur,
    current (runMerge (pre ++ [a])) = Some cur
    ∧ lastMergedDate (runMerge (pre ++ [a])) = Some (date a)
    ∧ (foldedInto (runMerge (pre ++ [a])) (runMerge (pre ++ [a] ++ [r])) r
       ↔ getVideoKey r = getVideoKey (base cur)
         ∧ ¬ (crossesDay (date a) (date r) = true ∧ gapOver2h (date a) (date r))).
Proof.
  destruct (folded_iff_shouldMerge pre a r) as (cur & Hcur & Hlast & Hfold).
  exists cur. split_and!; [done | done |].
  by rewrite Hfold, shouldMerge_spec.
Qed.

Lemma foldInto_key cur r :
  getVideoKey (base cur) = getVideoKey r → channelSafe r →
  getVideoKey (base (foldInto cur r)) = getVideoKey (base cur).
Proof.
  unfold getVideoKey, channelSafe, foldInto; cbn [base channelName title language].
  intros Hk Hsafe.
  destruct (falsy (channelName (base cur))) eqn:Ef; [| done].
  assert (toLowerCase (trim (orEmpty (channelName (base cur)))) = EmptyString) as Hcur.
  { destruct (channelName (base cur)) as [s|]; [| done].
    simpl in Ef. apply bool_decide_eq_true in Ef. by subst s. }
  rewrite Hcur in Hk |- *.
  destruct (toLowerCase (trim (orEmpty (channelName r)))) as [|c s]; [done |].
  simpl in Hk. injection Hk as <- _. done.
Qed.

(** After any record whose channel part does not begin with a colon, the
    key of the accumulator is the key of that record. *)
Lemma accumulator_key (pre : list PlaybackRecord) (a : PlaybackRecord) :
  channelSafe a →
  ∃ cur, current (runMerge (pre ++ [a])) = Some cur
         ∧ getVideoKey (base cur) = getVideoKey a.
Proof.
  intros Hsafe. rewrite runMerge_snoc. unfold forEachBody.
  destruct (current (runMerge pre)) as [cur|]; [| by eexists].
  destruct (shouldMerge cur (lastMergedDate (runMerge pre)) a) eqn:Es;
    [| by eexists].
  eexists. split; [done |]. cbn [current].
  unfold shouldMerge in Es. apply andb_true_iff in Es as [Hk%bool_decide_eq_true _].
  by rewrite foldInto_key.
Qed.

(** In every input, a record [b] that follows a record [a] with the same
    key is folded into the accumulator that holds [a] exactly when the two
    do not lie on different calendar days more than two hours apart,
    provided the channel part of the key of [a] does not begin with a
    colon. *)
Theorem consecutive_same_key_merge (pre : list PlaybackRecord) (a b : PlaybackRecord) :
  channelSafe a →
  getVideoKey a = getVideoKey b →
  foldedInto (runMerge (pre ++ [a])) (runMerge (pre ++ [a] ++ [b])) b
  ↔ ¬ (crossesDay (date a) (date b) = true ∧ gapOver2h (date a) (date b)).
Proof.
  intros Hsafe Hk.
  destruct (folded_iff_shouldMerge pre a b) as (cur & Hcur & _ & ->).
  destruct (accumulator_key pre a Hsafe) as (cur' & Hcur' & Hkey).
  rewrite Hcur in Hcur'. injection Hcur' as <-.
  rewrite shouldMerge_spec, Hkey. split; [by intros [_ ?] | by intros ?].
Qed.

(** Two records on their own: with equal keys they become one display
    record when they fall on the same calendar day or lie at most two
    hours apart, and two display records otherwise. *)
Theorem two_records_merge (a b : PlaybackRecord) :
  getVideoKey a = getVideoKey b →
  (¬ (crossesDay (date a) (date b) = true ∧ gapOver2h (date a) (date b)) →
   mergedSessionIds <$> buildDisplayRecords [a; b] true
     = [[sessionId a; sessionId b]])
  ∧ (crossesDay (date a) (date b) = true ∧ gapOver2h (date a) (date b) →
     mergedSessionIds <$> buildDisplayRecords [a; b] true
       = [[sessionId a]; [sessionId b]]).
Proof.
  intros Hk. unfold buildDisplayRecords, runMerge. cbn [negb fold_left].
  change (forEachBody initialState a)
    with (mkMergeState [] (Some (single a)) (Some (date a))).
  unfold forEachBody; cbn [current lastMergedDate merged].
  pose proof (shouldMerge_spec (single a) (date a) b) as Hs. simpl in Hs.
  destruct (shouldMerge (single a) (Some (date a)) b) eqn:Es; cbn.
  - split; [done |]. intros Hx. by destruct (proj2 (proj1 Hs eq_refl)).
  - split; [| done]. intros Hx. assert (false = true) by (apply Hs; by split). done.
Qed.

(** The scenario of two plays of "A" at 10:00 and 10:20, merged: one
    display record of 900 seconds with two segments, spanning 10:00:00 to
    10:25:00, in whatever time zone the host reads the instants. *)
Theorem two_plays_scenario :
  ∃ d, buildDisplayRecords [Samples.scenarioA; Samples.scenarioB] true = [d]
       ∧ mergedSessionIds d = ["e1"; "e2"]
       ∧ isMerged d = true
       ∧ totalDuration d = 900
       ∧ length (segments d) = 2%nat
       ∧ spanStart d = utc 2024 3 1 10 0 0
       ∧ spanEnd d = utc 2024 3 1 10 25 0.
Proof.
  unfold buildDisplayRecords, runMerge. cbn [negb fold_left].
  change (forEachBody initialState Samples.scenarioA)
    with (mkMergeState [] (Some (single Samples.scenarioA))
                       (Some (date Samples.scenarioA))).
  unfold forEachBody; cbn [current lastMergedDate merged].
  assert (shouldMerge (single Samples.scenarioA) (Some (date Samples.scenarioA))
                      Samples.scenarioB = true) as ->.
  { apply shouldMerge_spec. split; [by vm_compute |].
    intros [_ Hgap]. unfold gapOver2h in Hgap. by vm_compute in Hgap. }
  eexists. split; [reflexivity |]. by vm_compute.
Qed.

End MergeFacts.

(** ** Goal resolution *)

Section GoalFacts.
Import Database History Constants.

Lemma elem_of_sortInsert {A} (cmp : A → A → Z) x y l :
  y ∈ sortInsert cmp x l ↔ y = x ∨ y ∈ l.
Proof.
  induction l as [|z l IH]; simpl.
  - set_solver.
  - destruct (cmp x z <=? 0); [by rewrite (elem_of_cons (z :: l)) |].
    rewrite !elem_of_cons, IH. tauto.
Qed.

Lemma elem_of_sort {A} (cmp : A → A → Z) y l : y ∈ sort cmp l ↔ y ∈ l.
Proof.
  unfold sort. induction l as [|z l IH]; simpl; [done |].
  rewrite elem_of_sortInsert, elem_of_cons, IH. tauto.
Qed.

(** The comparator of [getDailyGoal] sorts by date, latest first. *)
Lemma sort_latest_first l :
  StronglySorted (λ a b, goalDate b ≤ goalDate a)
                 (sort (λ a b, goalDate b - goalDate a) l).
Proof.
  unfold sort. induction l as [|x l IH]; simpl; [constructor |].
  revert IH. generalize (foldr (sortInsert (λ a b, goalDate b - goalDate a)) [] l).
  clear l. intros l Hl. induction Hl as [|y l Hl IH Hy]; simpl.
  - repeat constructor.
  - destruct (Z.leb_spec (goalDate y - goalDate x) 0).
    + constructor; [by constructor |].
      constructor; [lia |].
      eapply Forall_impl; [exact Hy |]. simpl. intros z Hz. lia.
    + constructor; [exact IH |].
      apply Forall_forall. intros z [-> | Hz]%elem_of_sortInsert; [lia |].
      rewrite Forall_forall in Hy. by apply Hy.
Qed.

Lemma find_latest_first l target g :
  StronglySorted (λ a b, goalDate b ≤ goalDate a) l →
  find (λ goal, bool_decide (goalDate goal ≤ target)) l = Some g →
  g ∈ l ∧ goalDate g ≤ target
  ∧ ∀ g', g' ∈ l → goalDate g' ≤ target → goalDate g' ≤ goalDate g.
Proof.
  induction 1 as [|x l Hl IH Hx]; simpl; [done |].
  case_bool_decide as Hd.
  - intros [= ->]. split_and!; [apply list_elem_of_here | done |].
    intros g' [-> | Hg']%elem_of_cons _; [lia |].
    rewrite Forall_forall in Hx. by apply Hx.
  - intros Hf. destruct (IH Hf) as (Hin & Hle & Hmax).
    split_and!; [by apply list_elem_of_further | done |].
    intros g' [-> | Hg']%elem_of_cons Hg; [lia | by apply Hmax].
Qed.

Lemma find_none_iff {A} (p : A → bool) l :
  find p l = None ↔ ∀ x, x ∈ l → p x = false.
Proof.
  induction l as [|x l IH]; simpl; [set_solver |].
  destruct (p x) eqn:Ep.
  - split; [done |]. intros Hx. rewrite Hx in Ep by apply list_elem_of_here. done.
  - rewrite IH. split.
    + intros Hl y [-> | Hy]%elem_of_cons; auto.
    + intros Hl y Hy. apply Hl. by apply list_elem_of_further.
Qed.

Lemma closestGoal_some allGoals target g :
  closestGoal allGoals target = Some g →
  g ∈ allGoals ∧ goalDate g ≤ target
  ∧ ∀ g', g' ∈ allGoals → goalDate g' ≤ target → goalDate g' ≤ goalDate g.
Proof.
  unfold closestGoal. case_bool_decide; [done |].
  intros Hf. apply find_latest_first in Hf as (Hin & Hle & Hmax);
    [| apply sort_latest_first].
  rewrite elem_of_sort in Hin. split_and!; [done | done |].
  intros g' Hg'. apply Hmax. by rewrite elem_of_sort.
Qed.

Lemma closestGoal_none allGoals target :
  closestGoal allGoals target = None ↔ ∀ g, g ∈ allGoals → target < goalDate g.
Proof.
  unfold closestGoal. case_bool_decide as Hlen.
  - destruct allGoals; [| done]. set_solver.
  - rewrite find_none_iff. split.
    + intros Hf g Hg. specialize (Hf g). rewrite elem_of_sort in Hf.
      specialize (Hf Hg). apply bool_decide_eq_false in Hf. lia.
    + intros Hf g Hg. rewrite elem_of_sort in Hg. specialize (Hf g Hg).
      apply bool_decide_eq_false. lia.
Qed.

Lemma DEFAULT_DAILY_GOAL_zero l :
  DEFAULT_DAILY_GOAL !! l = if bool_decide (l ∈ Language) then Some 0 else None.
Proof.
  unfold DEFAULT_DAILY_GOAL, Language.
  case_bool_decide as Hl.
  - repeat (apply elem_of_cons in Hl as [-> | Hl]; [by simplify_map_eq |]).
    by apply elem_of_nil in Hl.
  - rewrite !lookup_insert_ne, lookup_singleton_ne; [done | ..]; set_solver.
Qed.

(** C5. Resolving the goals for a target date gives the stored DailyGoal
    with the greatest date at or before the target; when every stored
    date is later (or nothing is stored) it gives none, and the goals
    loaded are the default goal set, goal 0 for every language.  With
    snapshots for 2024-01-01 and 2024-01-10, 2024-01-05 resolves to the
    first and 2023-12-31 to the default. *)
Theorem goal_resolution_carries_forward
    (store : GoalStore) (target : Z)
    (inMonth : DailyGoal → bool) (now : Z) (st : GoalState) :
  (∀ g, getDailyGoal store target = Some g →
        g ∈ store ∧ goalDate g ≤ target
        ∧ (∀ g', g' ∈ store → goalDate g' ≤ target → goalDate g' ≤ goalDate g)
        ∧ goalInputs (loadGoals store inMonth now target st) = goals g)
  ∧ ((∃ g', g' ∈ store ∧ goalDate g' ≤ target) →
     is_Some (getDailyGoal store target))
  ∧ ((∀ g', g' ∈ store → target < goalDate g') →
     getDailyGoal store target = None
     ∧ goalInputs (loadGoals store inMonth now target st) = DEFAULT_DAILY_GOAL)
  ∧ (∀ l, DEFAULT_DAILY_GOAL !! l
          = if bool_decide (l ∈ Language) then Some 0 else None)
  ∧ (∀ g1 g10 : DailyGoal,
       goalDate g1 = dateOnly 2024 1 1 → goalDate g10 = dateOnly 2024 1 10 →
       getDailyGoal [g1; g10] (dateOnly 2024 1 5) = Some g1
       ∧ getDailyGoal [g1; g10] (dateOnly 2023 12 31) = None
       ∧ goalInputs (loadGoals [g1; g10] inMonth now (dateOnly 2023 12 31) st)
         = DEFAULT_DAILY_GOAL).
Proof.
  unfold getDailyGoal, getAllDailyGoals. split_and!.
  - intros g Hg. destruct (closestGoal_some _ _ _ Hg) as (? & ? & ?).
    split_and!; try done.
    unfold loadGoals, getDailyGoal, getAllDailyGoals. by rewrite Hg.
  - intros (g' & Hin & Hle).
    destruct (closestGoal store target) eqn:E; [by eexists |].
    rewrite closestGoal_none in E. specialize (E g' Hin). lia.
  - intros Hall. apply closestGoal_none in Hall. split; [done |].
    unfold loadGoals, getDailyGoal, getAllDailyGoals. by rewrite Hall.
  - apply DEFAULT_DAILY_GOAL_zero.
  - intros g1 g10 H1 H10.
    assert (closestGoal [g1; g10] (dateOnly 2023 12 31) = None) as Hnone.
    { apply closestGoal_none. intros g [-> | [-> | []%elem_of_nil]%elem_of_cons]%elem_of_cons.
      - rewrite H1. by vm_compute.
      - rewrite H10. by vm_compute. }
    split_and!; [| done |].
    + unfold closestGoal, sort; simpl. rewrite H1, H10.
      change (dateOnly 2024 1 1 - dateOnly 2024 1 10 <=? 0) with true; simpl.
      rewrite H1, H10.
      by change (bool_decide (dateOnly 2024 1 10 ≤ dateOnly 2024 1 5)) with false.
    + unfold loadGoals, getDailyGoal, getAllDailyGoals. by rewrite Hnone.
Qed.

Lemma elem_of_put doc store g :
  g ∈ put doc store ↔ g = doc ∨ (g ∈ store ∧ goalDate g ≠ goalDate doc).
Proof.
  unfold put. rewrite elem_of_app, elem_of_cons, !list_elem_of_filter.
  split; [intros [[? ?] | [-> | [? ?]]] | intros [-> | [? ?]]]; try (by auto).
  - right. split; [done | lia].
  - right. split; [done | lia].
  - destruct (Z.lt_total (goalDate g) (goalDate doc)) as [? | [? | ?]]; [auto | done | auto].
Qed.

Lemma getDailyGoal_put doc store :
  getDailyGoal (put doc store) (goalDate doc) = Some doc.
Proof.
  unfold getDailyGoal, getAllDailyGoals.
  assert (doc ∈ put doc store) as Hdoc by (apply elem_of_put; by left).
  destruct (closestGoal (put doc store) (goalDate doc)) as [g|] eqn:E.
  - apply closestGoal_some in E as (Hin & Hle & Hmax).
    specialize (Hmax doc Hdoc (Z.le_refl _)).
    apply elem_of_put in Hin as [-> | [_ Hne]]; [done | lia].
  - rewrite closestGoal_none in E. specialize (E doc Hdoc). lia.
Qed.

Lemma zeros_goalOf l :
  goalOf {[ "cantonese" := 0; "english" := 0; "japanese" := 0; "spanish" := 0 ]} l = 0.
Proof.
  unfold goalOf. change (default 0 (DEFAULT_DAILY_GOAL !! l) = 0).
  rewrite DEFAULT_DAILY_GOAL_zero. by case_bool_decide.
Qed.

Lemma normalizeVisibility_lookup v l :
  normalizeVisibility v !! l
  = if bool_decide (l ∈ Language) then Some (visibleOr v l) else None.
Proof.
  unfold normalizeVisibility, Language.
  case_bool_decide as Hl.
  - repeat (apply elem_of_cons in Hl as [-> | Hl]; [by simplify_map_eq |]).
    by apply elem_of_nil in Hl.
  - rewrite !lookup_insert_ne, lookup_singleton_ne; [done | ..]; set_solver.
Qed.

Lemma loadGoals_some store inMonth now today st g :
  getDailyGoal store today = Some g →
  loadGoals store inMonth now today st
  = {| goalInputs := goals g;
       languageVisibility :=
         normalizeVisibility (Some (default (languageVisibility st) (visibility g)));
       monthGoals := List.filter inMonth (getAllDailyGoals store) |}.
Proof. intros Hg. unfold loadGoals. by rewrite Hg. Qed.



End GoalFacts.

(** ** Aggregation *)

Section AggregateFacts.
Import History Calendar JsObject MergeSpec AggregateSpec.
Context `{LocalTime}.

Lemma totalWhere_cons (P : PlaybackRecord → Prop) `{!∀ r, Decision (P r)} r rs :
  totalWhere P (r :: rs) = (if decide (P r) then duration r else 0) + totalWhere P rs.
Proof.
  unfold totalWhere. rewrite filter_cons.
  destruct (decide (P r)); [rewrite fmap_cons |]; unfold sumZ; cbn [foldr]; lia.
Qed.

Lemma Language_not_inherited l : l ∈ Language → l ∉ inheritedNames.
Proof.
  unfold Language. rewrite !elem_of_cons, elem_of_nil.
  intros [-> | [-> | [-> | [-> | []]]]]; apply (bool_decide_unpack _); by vm_compute.
Qed.

Lemma zeroTotals_lookup l :
  zeroTotals !! l = if bool_decide (l ∈ Language) then Some (Num 0) else None.
Proof.
  unfold zeroTotals, Language. case_bool_decide as Hl.
  - repeat (apply elem_of_cons in Hl as [-> | Hl]; [by simplify_map_eq |]).
    by apply elem_of_nil in Hl.
  - rewrite !lookup_insert_ne, lookup_singleton_ne; [done | ..];
      intros <-; apply Hl; repeat constructor.
Qed.

Lemma setText_lookup_ne obj k l : k ≠ l → setText obj k !! l = obj !! l.
Proof.
  intros Hne. unfold setText. case_bool_decide; [done |].
  by rewrite lookup_insert_ne.
Qed.

Lemma setText_number obj k l n :
  setText obj k !! l = Some (Num n) → obj !! l = Some (Num n).
Proof.
  unfold setText. case_bool_decide; [done |].
  destruct (decide (k = l)) as [-> | Hne];
    [by rewrite lookup_insert_eq | by rewrite lookup_insert_ne].
Qed.

(** *** getLanguageStats *)

Lemma addToStats_lookup stats r l :
  l ∉ inheritedNames →
  addToStats stats r !! l
  = match stats !! l with
    | Some (Num n) => Some (Num (n + if decide (language r = l) then duration r else 0))
    | o => o
    end.
Proof.
  intros Hl. unfold addToStats, hasProperty.
  destruct (decide (language r = l)) as [-> | Hne].
  - rewrite (bool_decide_eq_false_2 (l ∈ inheritedNames)) by done.
    rewrite orb_false_r.
    destruct (stats !! l) as [[n|]|] eqn:E.
    + rewrite bool_decide_eq_true_2 by (by eexists). by rewrite lookup_insert_eq.
    + by rewrite bool_decide_eq_true_2 by (by eexists).
    + by rewrite bool_decide_eq_false_2 by (by intros [? ?]).
  - assert ((if bool_decide (is_Some (stats !! language r))
                || bool_decide (language r ∈ inheritedNames)
             then match stats !! language r with
                  | Some (Num n) => <[language r := Num (n + duration r)]> stats
                  | Some Text => stats
                  | None => setText stats (language r)
                  end
             else stats) !! l = stats !! l) as ->.
    { destruct (_ || _); [| done].
      destruct (stats !! language r) as [[n|]|];
        [by rewrite lookup_insert_ne | done | by apply setText_lookup_ne]. }
    destruct (stats !! l) as [[n|]|]; [| done | done]. do 2 f_equal. lia.
Qed.

Lemma stats_fold rs stats l :
  l ∉ inheritedNames →
  fold_left addToStats rs stats !! l
  = match stats !! l with
    | Some (Num n) => Some (Num (n + totalWhere (λ r, language r = l) rs))
    | o => o
    end.
Proof.
  intros Hl. revert stats. induction rs as [|r rs IH]; intros stats; simpl.
  - unfold totalWhere, sumZ; simpl.
    destruct (stats !! l) as [[n|]|]; [| done | done]. do 2 f_equal. lia.
  - rewrite IH, addToStats_lookup, totalWhere_cons by done.
    destruct (stats !! l) as [[n|]|]; [| done | done]. do 2 f_equal. lia.
Qed.

Lemma addToStats_no_new_number stats r l :
  (∀ n, stats !! l ≠ Some (Num n)) → ∀ n, addToStats stats r !! l ≠ Some (Num n).
Proof.
  intros Hno n. unfold addToStats. destruct (hasProperty _ _); [| apply Hno].
  destruct (stats !! language r) as [[m|]|] eqn:E.
  - destruct (decide (language r = l)) as [<- | Hne]; [by destruct (Hno m) |].
    rewrite lookup_insert_ne by done. apply Hno.
  - apply Hno.
  - intros Hx%setText_number. by apply (Hno n).
Qed.

Lemma stats_fold_no_new_number rs stats l :
  (∀ n, stats !! l ≠ Some (Num n)) →
  ∀ n, fold_left addToStats rs stats !! l ≠ Some (Num n).
Proof.
  revert stats. induction rs as [|r rs IH]; intros stats Hno; simpl; [done |].
  apply IH. by apply addToStats_no_new_number.
Qed.

(** *** updateDailyDurations *)

Lemma dayRecord_read (durations : gmap string (gmap string total)) day :
  (∀ d, durations !! day = Some d → DayKept d) →
  DayKept (default zeroTotals (durations !! day))
  ∧ ∀ l, numberOr0 (default zeroTotals (durations !! day) !! l)
         = dayTotal durations day l.
Proof.
  intros Hd. unfold dayTotal. destruct (durations !! day) as [d|]; simpl.
  - split; [by apply Hd | done].
  - split.
    + split; intros l Hl; rewrite zeroTotals_lookup.
      * by case_bool_decide.
      * rewrite bool_decide_eq_true_2 by done. by eexists.
    + intros l. rewrite zeroTotals_lookup. by case_bool_decide.
Qed.

Lemma insert_number_DayKept d k n :
  DayKept d → DayKept (<[k := Num n]> d).
Proof.
  intros [Hnt Hkn]. split; intros l Hl;
    (destruct (decide (k = l)) as [<- | Hne];
     [rewrite lookup_insert_eq | rewrite lookup_insert_ne by done]);
    [done | by apply Hnt | by eexists | by apply Hkn].
Qed.

Lemma addToDay_AllKept durations r :
  AllKept durations → AllKept (addToDay durations r).
Proof.
  intros Hm day d. unfold addToDay.
  destruct (decide (dateStr (date r) = day)) as [<- | Hne].
  2:{ rewrite lookup_insert_ne by done. apply Hm. }
  rewrite lookup_insert_eq. intros [= <-].
  destruct (dayRecord_read durations (dateStr (date r)) (Hm _)) as [Hdr _].
  destruct (default zeroTotals (durations !! dateStr (date r)) !! language r)
    as [[n|]|] eqn:E.
  - by apply insert_number_DayKept.
  - done.
  - case_bool_decide as Hinh; [| by apply insert_number_DayKept].
    destruct Hdr as [Hnt Hkn]. split; intros l Hl.
    + rewrite setText_lookup_ne; [by apply Hnt | by intros <-].
    + rewrite setText_lookup_ne; [by apply Hkn |].
      intros <-. by apply Language_not_inherited in Hl.
Qed.

Lemma addToDay_total durations r day l :
  AllKept durations → l ∉ inheritedNames →
  dayTotal (addToDay durations r) day l
  = dayTotal durations day l
    + if decide (dateStr (date r) = day ∧ language r = l) then duration r else 0.
Proof.
  intros Hm Hl. unfold addToDay.
  destruct (decide (dateStr (date r) = day)) as [<- | Hday].
  2:{ unfold dayTotal. rewrite lookup_insert_ne by done.
      rewrite decide_False by tauto. lia. }
  destruct (dayRecord_read durations (dateStr (date r)) (Hm _)) as [[Hnt Hkn] Hread].
  unfold dayTotal at 1. rewrite lookup_insert_eq. cbn [mbind option_bind].
  rewrite <- Hread.
  set (dayRecord := default zeroTotals (durations !! dateStr (date r))) in *.
  destruct (decide (language r = l)) as [<- | Hne].
  - rewrite decide_True by done.
    destruct (dayRecord !! language r) as [[n|]|] eqn:E.
    + rewrite lookup_insert_eq. simpl. lia.
    + by destruct (Hnt (language r) Hl).
    + rewrite bool_decide_eq_false_2 by done. rewrite lookup_insert_eq. simpl. lia.
  - rewrite decide_False by tauto.
    assert (match dayRecord !! language r with
            | Some (Num n) => <[language r := Num (n + duration r)]> dayRecord
            | Some Text => dayRecord
            | None =>
                if bool_decide (language r ∈ inheritedNames)
                then setText dayRecord (language r)
                else <[language r := Num (0 + duration r)]> dayRecord
            end !! l = dayRecord !! l) as ->; [| lia].
    destruct (dayRecord !! language r) as [[n|]|];
      [by rewrite lookup_insert_ne | done |].
    case_bool_decide; [by apply setText_lookup_ne | by rewrite lookup_insert_ne].
Qed.

Lemma durations_fold rs durations :
  AllKept durations →
  AllKept (fold_left addToDay rs durations)
  ∧ ∀ day l, l ∉ inheritedNames →
      dayTotal (fold_left addToDay rs durations) day l
      = dayTotal durations day l
        + totalWhere (λ r, dateStr (date r) = day ∧ language r = l) rs.
Proof.
  revert durations. induction rs as [|r rs IH]; intros durations Hm; simpl.
  - split; [done |]. intros day l _. unfold totalWhere, sumZ; simpl. lia.
  - destruct (IH _ (addToDay_AllKept _ r Hm)) as [Hkept Hsum].
    split; [done |]. intros day l Hl.
    rewrite Hsum, addToDay_total, totalWhere_cons by done. lia.
Qed.

(** C7, as amended. Both passes are total functions of the records, so a
    record with a language outside the four fails neither.  In
    [getLanguageStats] such a record is left out: no number is kept for a
    language outside the four.  In the calendar's pass a record whose
    language tag is not a name that every object inherits
    ([inheritedNames]) is totalled under its own language key in the entry
    of its day.  In both passes the total of a known language is the sum
    over the records with that language (of that day, in the calendar). *)
Theorem aggregation_tolerates_unknown_language (rs : list PlaybackRecord) :
  (∀ l, l ∈ Language →
        getLanguageStats rs !! l = Some (Num (totalWhere (λ r, language r = l) rs)))
  ∧ (∀ l n, l ∉ Language → getLanguageStats rs !! l ≠ Some (Num n))
  ∧ (∀ day d l, updateDailyDurations rs !! day = Some d → l ∈ Language →
        d !! l = Some (Num (totalWhere
                              (λ r, dateStr (date r) = day ∧ language r = l) rs)))
  ∧ (∀ day l, l ∉ inheritedNames →
        dayTotal (updateDailyDurations rs) day l
        = totalWhere (λ r, dateStr (date r) = day ∧ language r = l) rs).
Proof.
  assert (AllKept (∅ : gmap string (gmap string total))) as Hempty
    by (intros day d Hd; by rewrite lookup_empty in Hd).
  destruct (durations_fold rs ∅ Hempty) as [Hkept Hsum].
  fold (updateDailyDurations rs) in Hkept, Hsum.
  split_and!.
  - intros l Hl. unfold getLanguageStats.
    rewrite stats_fold by (by apply Language_not_inherited).
    by rewrite zeroTotals_lookup, bool_decide_eq_true_2 by done.
  - intros l n Hl. unfold getLanguageStats. apply stats_fold_no_new_number.
    intros m. by rewrite zeroTotals_lookup, bool_decide_eq_false_2.
  - intros day d l Hd Hl.
    destruct (Hkept day d Hd) as [_ Hkn]. destruct (Hkn l Hl) as [n Hn].
    specialize (Hsum day l (Language_not_inherited l Hl)).
    unfold dayTotal in Hsum. rewrite Hd, lookup_empty in Hsum. simpl in Hsum.
    rewrite Hn in Hsum. simpl in Hsum. rewrite Hn. do 2 f_equal. lia.
  - intros day l Hl. rewrite Hsum by done.
    unfold dayTotal. rewrite lookup_empty. simpl. lia.
Qed.

End AggregateFacts.

(** C7, the claim as stated fails for the calendar's pass: the record
    [klingon], whose language is none of the four, is not left out of the
    per-language totals of its day; its 600 seconds stand under its own
    key. *)
Lemma calendar_totals_unknown_language :
  (language Samples.klingon ∉ Language)
  ∧ ∃ d, Calendar.updateDailyDurations [Samples.klingon] !! "2024-03-01" = Some d
         ∧ d !! language Samples.klingon = Some (JsObject.Num 600).
Proof.
  split.
  - apply (bool_decide_unpack _). by vm_compute.
  - eexists. split; vm_compute; reflexivity.
Qed.

(** Why the amended statement speaks of tags that are no inherited name:
    for the tag [toString] the calendar's pass reads the inherited
    function, and what it stores under the tag is a text, which the cell
    reads as 0. *)
Lemma calendar_keeps_text_for_inherited_tag :
  (language Samples.inheritedTag ∈ JsObject.inheritedNames)
  ∧ (∃ d, Calendar.updateDailyDurations [Samples.inheritedTag] !! "2024-03-01" = Some d
          ∧ d !! language Samples.inheritedTag = Some JsObject.Text)
  ∧ AggregateSpec.dayTotal (Calendar.updateDailyDurations [Samples.inheritedTag])
                           "2024-03-01" (language Samples.inheritedTag) = 0.
Proof.
  split_and!.
  - apply (bool_decide_unpack _). by vm_compute.
  - eexists. split; vm_compute; reflexivity.
  - by vm_compute.
Qed.

(** ** Import *)

Section ImportFacts.
Import History AggregateSpec.

Lemma saveAll_storable records :
  Forall (λ r, ∃ id, getProp r "sessionId" = Some (JStr id)) records →
  saveAll records = (records, true).
Proof.
  induction 1 as [|r rs [id Hid] _ IH]; simpl; [done |].
  assert (Database.saveRecordResolves r = true) as ->.
  { unfold Database.saveRecordResolves. destruct r; try done. by rewrite Hid. }
  by rewrite IH.
Qed.

(** The loop of the import: either every call resolves and all records
    are handed over, or the calls end with the first record that is
    rejected. *)
Lemma saveAll_calls records :
  (Forall accepted records ∧ saveAll records = (records, true))
  ∨ (∃ before rejected rest,
        records = before ++ rejected :: rest
        ∧ Forall accepted before
        ∧ ¬ accepted rejected
        ∧ saveAll records = (before ++ [rejected], false)).
Proof.
  induction records as [|r rs IH]; [by left |].
  simpl. destruct (Database.saveRecordResolves r) eqn:Er.
  - destruct IH as [[Hall ->] | (before & rejected & rest & -> & Hb & Hr & ->)].
    + left. split; [by constructor | done].
    + right. exists (r :: before), rejected, rest.
      split_and!; [done | by constructor | done | done].
  - right. exists [], r, rs. split_and!; [done | constructor | | done].
    unfold accepted. by rewrite Er.
Qed.

Lemma validated_import data records :
  validated data records →
  importData (Some data)
  = ((saveAll records).1, if (saveAll records).2 then Imported else ImportFailed).
Proof.
  intros [Hv Hr]. unfold importData. rewrite Hv, Hr. simpl.
  destruct (saveAll records) as [calls ok]. by destruct data.
Qed.

(** C8, as amended. A document that did not parse, or has no [version]
    (or a falsy one), or whose [records] is missing or no array, fails the
    import with no [saveRecord] call issued.  For a document with a truthy
    version and an array of records, the records are handed to
    [saveRecord] in the order of the array, up to and including the first
    one whose call is rejected: when no call is rejected every record of
    the array is handed over and the import succeeds; otherwise the
    records before the rejected one have been handed over, the ones after
    it never are, and the import fails.  No call is rejected for a
    document of the export format. *)
Theorem import_validates_document (parsed : option json) :
  (malformed parsed → importData parsed = ([], ImportFailed))
  ∧ (∀ data, parsed = Some data → truthy (getProp data "version") = false →
             importData parsed = ([], ImportFailed))
  ∧ (∀ data records, parsed = Some data → validated data records →
       (Forall accepted records ∧ importData parsed = (records, Imported))
       ∨ (∃ before rejected rest,
             records = before ++ rejected :: rest
             ∧ Forall accepted before
             ∧ ¬ accepted rejected
             ∧ importData parsed = (before ++ [rejected], ImportFailed)))
  ∧ (∀ data records, parsed = Some data → wellFormed data records →
                     importData parsed = (records, Imported)).
Proof.
  split_and!.
  - destruct parsed as [data|]; [| done]. unfold malformed, importData.
    intros [Hv | Hr]; destruct data; try done.
    + by rewrite Hv.
    + destruct (truthy (getProp (JObj props) "version")); [| done].
      destruct (getProp (JObj props) "records") as [[]|] eqn:E;
        simpl; rewrite ?orb_true_r; try done.
      destruct Hr. by eexists.
  - intros data -> Hv. unfold importData. rewrite Hv. by destruct data.
  - intros data records -> Hvalid. rewrite (validated_import _ _ Hvalid).
    destruct (saveAll_calls records)
      as [[Hall ->] | (before & rejected & rest & -> & Hb & Hr & ->)].
    + by left.
    + right. by exists before, rejected, rest.
  - intros data records -> (Hv & Hr & Hrs).
    rewrite (validated_import data records) by done.
    by rewrite (saveAll_storable _ Hrs).
Qed.

Lemma import_exported_doc_witness :
  importData (Some Samples.exportedDoc)
  = ([JObj [("sessionId", JStr "s1"); ("duration", JNum (QArith_base.inject_Z 300))];
      JObj [("sessionId", JStr "s2"); ("duration", JNum (QArith_base.inject_Z 240))]],
     Imported)
  ∧ importData (Some (JObj [("records", JArr [JObj [("sessionId", JStr "s1")]])]))
    = ([], ImportFailed).
Proof.
  split.
  - apply (proj2 (proj2 (proj2 (import_validates_document (Some Samples.exportedDoc))))
                 Samples.exportedDoc _ eq_refl).
    split_and!; [reflexivity | reflexivity |].
    repeat constructor; eexists; reflexivity.
  - apply (proj1 (import_validates_document _)). left. reflexivity.
Defined.

(** C8, the claim as stated fails: [docMissingId] is not missing its
    version and its [records] is an array, so it is none of the malformed
    documents of the claim; yet its third record is never handed to
    [saveRecord], the call for its second record is rejected, and the
    import fails after the first record has been stored. *)
Lemma import_stops_at_rejected_record :
  ¬ malformed (Some Samples.docMissingId)
  ∧ getProp Samples.docMissingId "records"
    = Some (JArr [JObj [("sessionId", JStr "s1")];
                  JObj [("title", JStr "no id")];
                  JObj [("sessionId", JStr "s3")]])
  ∧ importData (Some Samples.docMissingId)
    = ([JObj [("sessionId", JStr "s1")]; JObj [("title", JStr "no id")]],
       ImportFailed)
  ∧ Database.saveRecordResolves (JObj [("title", JStr "no id")]) = false
  ∧ JObj [("sessionId", JStr "s3")] ∉ (importData (Some Samples.docMissingId)).1.
Proof.
  split_and!; [| reflexivity | reflexivity | reflexivity |].
  - intros [Hv | Hr]; [discriminate Hv |]. apply Hr. by eexists.
  - intros Hin. vm_compute in Hin.
    repeat (apply elem_of_cons in Hin as [Hin | Hin]; [discriminate Hin |]).
    by apply elem_of_nil in Hin.
Qed.

End ImportFacts.

(** ** Calendar cells *)

Section CalendarFacts.
Import Calendar.

(** C4. A language is achieved for a day exactly when its goal is
    positive and the whole minutes of the day's seconds reach the goal;
    the cell is drawn as achieved in exactly that case.  3600 seconds
    reach a goal of 60 minutes, 3599 seconds do not, and with goal 0, set
    or unset, no duration is achieved. *)
Theorem achieved_iff_goal_reached (goalInputs : gmap string Z) (lang : string) (seconds : Z) :
  let goal := default 0 (goalInputs !! lang) in
  (achieved goalInputs lang seconds = true ↔ 0 < goal ∧ goal ≤ seconds / 60)
  ∧ (achieved goalInputs lang seconds = true ↔ 0 < goal ∧ 60 * goal ≤ seconds)
  ∧ ((∃ cell, langDuration goalInputs lang (Some (JsObject.Num seconds)) = Some cell
              ∧ opacityPercent cell = 70)
     ↔ achieved goalInputs lang seconds = true)
  ∧ (goal = 60 → achieved goalInputs lang 3600 = true
                 ∧ achieved goalInputs lang 3599 = false)
  ∧ (goal = 0 → ∀ s, achieved goalInputs lang s = false).
Proof.
  intros goal. unfold achieved. fold goal.
  assert ((0 <? goal) && (goal <=? seconds / 60) = true
          ↔ 0 < goal ∧ goal ≤ seconds / 60) as Hiff
    by (rewrite andb_true_iff, Z.ltb_lt, Z.leb_le; tauto).
  split_and!.
  - exact Hiff.
  - rewrite Hiff. split; intros [Hg Hs]; (split; [done |]).
    + pose proof (Z.mul_div_le seconds 60). lia.
    + apply Z.div_le_lower_bound; lia.
  - unfold langDuration, achieved. fold goal. simpl. split.
    + intros (cell & Hc & Ho). destruct (seconds <=? 0); [done |].
      injection Hc as <-. simpl in Ho.
      by destruct ((0 <? goal) && (goal <=? seconds / 60)).
    + intros Ha. pose proof (proj1 Hiff Ha) as [Hg Hs].
      assert (0 < seconds).
      { destruct (Z.le_gt_cases seconds 0) as [Hneg |]; [| done].
        assert (seconds / 60 ≤ 0) by (apply Z.div_le_upper_bound; lia). lia. }
      destruct (Z.leb_spec seconds 0); [lia |].
      eexists. split; [done |]. simpl. by rewrite Ha.
  - intros ->. by vm_compute.
  - intros -> s. done.
Qed.

End CalendarFacts.

(** ** Merge key *)

Section KeyFacts.
Import History.

(** C3. The merge key reads the channel name and the title, both trimmed
    and lower-cased, and the language, and nothing else of a record: two
    records with the same language whose titles, and whose channel names,
    differ at most in surrounding white space and letter case have the same
    key, whatever their URLs (and ids, durations, dates and logos) are. *)
Theorem merge_key_ignores_url_case_and_padding (r1 r2 : PlaybackRecord) :
  language r1 = language r2 →
  sameUpToCaseAndPadding (title r1) (title r2) →
  sameUpToCaseAndPadding (orEmpty (channelName r1)) (orEmpty (channelName r2)) →
  getVideoKey r1 = getVideoKey r2.
Proof.
  intros Hl Ht Hc. unfold getVideoKey.
  by rewrite (normalize_sameUpToCaseAndPadding _ _ Ht),
             (normalize_sameUpToCaseAndPadding _ _ Hc), Hl.
Qed.

Lemma merge_key_ignores_url_witness :
  url Samples.linkA ≠ url Samples.linkB
  ∧ getVideoKey Samples.linkA = getVideoKey Samples.linkB.
Proof.
  split; [by vm_compute |].
  apply (merge_key_ignores_url_case_and_padding Samples.linkA Samples.linkB).
  - reflexivity.
  - exists " ", " ", "", "", "My Video", "my video". by vm_compute.
  - exists "", "", "  ", "", "Chan", "CHAN". by vm_compute.
Defined.

(** C1, at three plays of one day.  [play2] and [play3] are consecutive,
    have the same key and fall on the same calendar day, yet end in two
    display records: [play2] was folded into the accumulator of [play1],
    whose missing channel name was then filled in from [play2], which
    changed the accumulator's key. *)
Example same_key_same_day_not_merged :
  getVideoKey Samples.play2 = getVideoKey Samples.play3
  ∧ getVideoKey Samples.play1 = getVideoKey Samples.play2
  ∧ crossesDay (date Samples.play2) (date Samples.play3) = false
  ∧ mergedSessionIds <$>
      buildDisplayRecords [Samples.play1; Samples.play2; Samples.play3] true
    = [["s1"; "s2"]; ["s3"]]
  ∧ (getVideoKey ∘ base) <$>
      buildDisplayRecords [Samples.play1; Samples.play2; Samples.play3] true
    = ["::::b::english"; ":::b::english"].
Proof. by vm_compute. Qed.

Lemma consecutive_same_key_merge_witness :
  MergeSpec.foldedInto (runMerge [Samples.scenarioA])
                       (runMerge [Samples.scenarioA; Samples.scenarioB])
                       Samples.scenarioB.
Proof.
  apply (proj2 (consecutive_same_key_merge [] Samples.scenarioA Samples.scenarioB
                  I eq_refl)).
  intros [_ Hgap]. unfold MergeSpec.gapOver2h in Hgap. by vm_compute in Hgap.
Defined.

Lemma two_records_merge_witness :
  mergedSessionIds <$> buildDisplayRecords [Samples.linkA; Samples.linkB] true
  = [["a"]; ["b"]].
Proof.
  apply (two_records_merge Samples.linkA Samples.linkB).
  - by vm_compute.
  - split; [by vm_compute |]. unfold MergeSpec.gapOver2h. by vm_compute.
Defined.

End KeyFacts.

Section StoreFacts.
Import History Records ActionSpec.

Lemma keyBefore_spec a b : keyBefore a b ↔ String.compare a b = Lt.
Proof.
  unfold keyBefore, String.ltb. destruct (String.compare a b); simpl; split; try done.
Qed.

Lemma compare_refl a : String.compare a a = Eq.
Proof.
  pose proof (String.compare_antisym a a) as Ha.
  destruct (String.compare a a); simpl in Ha; congruence.
Qed.

Lemma keyBefore_irrefl a : ¬ keyBefore a a.
Proof. rewrite keyBefore_spec, compare_refl. done. Qed.

Lemma keyBefore_asym a b : keyBefore a b → ¬ keyBefore b a.
Proof.
  rewrite !keyBefore_spec, (String.compare_antisym a b).
  destruct (String.compare b a); simpl; congruence.
Qed.

Lemma keyBefore_total a b : a ≠ b → keyBefore a b ∨ keyBefore b a.
Proof.
  intros Hne. rewrite !keyBefore_spec.
  pose proof (String.compare_eq_iff a b) as He.
  rewrite (String.compare_antisym b a).
  destruct (String.compare a b); simpl; auto.
  exfalso. auto.
Qed.

Lemma keyBefore_trans a b c : keyBefore a b → keyBefore b c → keyBefore a c.
Proof.
  rewrite !keyBefore_spec. intros H1 H2.
  pose proof (OrdersEx.String_as_OT.compare_spec a b) as Hab.
  pose proof (OrdersEx.String_as_OT.compare_spec b c) as Hbc.
  pose proof (OrdersEx.String_as_OT.compare_spec a c) as Hac.
  change (OrdersEx.String_as_OT.compare a b) with (String.compare a b) in Hab.
  change (OrdersEx.String_as_OT.compare b c) with (String.compare b c) in Hbc.
  change (OrdersEx.String_as_OT.compare a c) with (String.compare a c) in Hac.
  rewrite H1 in Hab. rewrite H2 in Hbc. inversion Hab. inversion Hbc.
  pose proof OrdersEx.String_as_OT.lt_strorder as [Hi Ht].
  assert (OrdersEx.String_as_OT.lt a c) by (eapply Ht; eauto).
  inversion Hac; auto.
  - unfold OrdersEx.String_as_OT.eq in *. subst. exfalso. eapply Hi; eauto.
  - exfalso. eapply Hi. eapply Ht; eauto.
Qed.

Lemma elem_of_putRecord doc store r :
  r ∈ putRecord doc store ↔ r = doc ∨ (r ∈ store ∧ sessionId r ≠ sessionId doc).
Proof.
  unfold putRecord. rewrite elem_of_app, elem_of_cons, !list_elem_of_filter.
  split.
  - intros [[Hlt Hin] | [-> | [Hlt Hin]]]; auto; right; split; auto.
    + intros Heq. rewrite Heq in Hlt. by apply keyBefore_irrefl in Hlt.
    + intros Heq. rewrite Heq in Hlt. by apply keyBefore_irrefl in Hlt.
  - intros [-> | [Hin Hne]]; auto.
    destruct (keyBefore_total _ _ Hne); auto.
Qed.

Lemma orNull_idem o : orNull (orNull o) = orNull o.
Proof. unfold orNull. destruct (falsy o) eqn:E; simpl; [done | by rewrite E]. Qed.

Lemma completeRecord_normalised r : normalised (completeRecord r).
Proof. unfold normalised, completeRecord. simpl. by rewrite !orNull_idem. Qed.

Lemma StronglySorted_filter_keys (P : PlaybackRecord → Prop) `{!∀ r, Decision (P r)}
    (store : RecordStore) :
  StronglySorted (λ a b, keyBefore (sessionId a) (sessionId b)) store →
  StronglySorted (λ a b, keyBefore (sessionId a) (sessionId b)) (filter P store).
Proof.
  induction 1 as [| x l Hs IH Hall]; [constructor |].
  rewrite filter_cons. destruct (decide (P x)); [| done].
  constructor; [done |].
  apply Forall_forall. intros y [_ Hy]%list_elem_of_filter.
  rewrite Forall_forall in Hall. auto.
Qed.

Lemma Kept_putRecord doc store : Kept store → normalised doc → Kept (putRecord doc store).
Proof.
  intros [Hs Hn] Hd. split.
  - unfold putRecord. apply StronglySorted_app_2.
    + intros x1 x2 [H1 _]%list_elem_of_filter [-> | [H2 _]%list_elem_of_filter]%elem_of_cons.
      * done.
      * eapply keyBefore_trans; eauto.
    + by apply StronglySorted_filter_keys.
    + constructor; [by apply StronglySorted_filter_keys |].
      apply Forall_forall. by intros y [Hy _]%list_elem_of_filter.
  - apply Forall_forall. intros r [-> | [Hr _]]%elem_of_putRecord; [done |].
    rewrite Forall_forall in Hn. auto.
Qed.

Lemma Kept_saveRecord store r : Kept store → Kept (saveRecord store r).
Proof. intros. apply Kept_putRecord; [done | apply completeRecord_normalised]. Qed.

Lemma Kept_deleteRecord store id : Kept store → Kept (deleteRecord store id).
Proof.
  intros [Hs Hn]. split.
  - by apply StronglySorted_filter_keys.
  - apply Forall_forall. intros r [_ Hr]%list_elem_of_filter.
    rewrite Forall_forall in Hn. auto.
Qed.

Lemma Kept_NoDup store : Kept store → NoDup (sessionId <$> store).
Proof.
  intros [Hs _]. induction Hs as [| x l Hs IH Hall]; csimpl; constructor; auto.
  intros (y & Heq & Hy)%list_elem_of_fmap.
  rewrite Forall_forall in Hall. specialize (Hall y Hy).
  rewrite Heq in Hall. by apply keyBefore_irrefl in Hall.
Qed.

Lemma filter_all {A} (P : A → Prop) `{!∀ x, Decision (P x)} (l : list A) :
  (∀ x, x ∈ l → P x) → filter P l = l.
Proof.
  induction l as [| x l IH]; [done |]. intros Hall.
  rewrite filter_cons, decide_True by (apply Hall; left).
  f_equal. apply IH. intros y Hy. apply Hall. by right.
Qed.

Lemma filter_none {A} (P : A → Prop) `{!∀ x, Decision (P x)} (l : list A) :
  (∀ x, x ∈ l → ¬ P x) → filter P l = [].
Proof.
  induction l as [| x l IH]; [done |]. intros Hall.
  rewrite filter_cons, decide_False by (apply Hall; left).
  apply IH. intros y Hy. apply Hall. by right.
Qed.

Lemma putRecord_putRecord d1 d2 store :
  sessionId d1 = sessionId d2 → putRecord d2 (putRecord d1 store) = putRecord d2 store.
Proof.
  intros Hk. unfold putRecord at 1 3. f_equal; [| f_equal].
  - unfold putRecord. rewrite filter_app, filter_cons, decide_False
      by (rewrite Hk; apply keyBefore_irrefl).
    rewrite (filter_all _ (filter _ store)), (filter_none _ (filter _ store)), Hk.
    + by rewrite app_nil_r.
    + intros x [Hx _]%list_elem_of_filter. rewrite <- Hk. by apply keyBefore_asym.
    + intros x [Hx _]%list_elem_of_filter. by rewrite <- Hk.
  - unfold putRecord. rewrite filter_app, filter_cons, decide_False
      by (rewrite Hk; apply keyBefore_irrefl).
    rewrite (filter_none _ (filter _ store)), (filter_all _ (filter _ store)), Hk.
    + done.
    + intros x [Hx _]%list_elem_of_filter. by rewrite <- Hk.
    + intros x [Hx _]%list_elem_of_filter. rewrite <- Hk. by apply keyBefore_asym.
Qed.

(** A stored record that is put again leaves a kept store as it is. *)
Lemma putRecord_stored doc store :
  StronglySorted (λ a b, keyBefore (sessionId a) (sessionId b)) store →
  doc ∈ store → putRecord doc store = store.
Proof.
  intros Hs Hin. apply list_elem_of_split in Hin as (l1 & l2 & ->).
  apply StronglySorted_app in Hs as (H12 & Hs1 & Hs2).
  apply StronglySorted_inv in Hs2 as [Hs2 Hall]. rewrite Forall_forall in Hall.
  unfold putRecord. rewrite !filter_app, !filter_cons, !decide_False
    by apply keyBefore_irrefl.
  rewrite (filter_all _ l1), (filter_none _ l2), (filter_none _ l1), (filter_all _ l2).
  - by rewrite app_nil_r.
  - done.
  - intros x Hx. apply keyBefore_asym. apply (H12 x doc); [done | left].
  - intros x Hx. apply keyBefore_asym. by apply Hall.
  - intros x Hx. apply (H12 x doc); [done | left].
Qed.

(** What [getAllRecords] returns after [saveRecord]: the record given,
    with an empty channel name or logo replaced by null, and the records
    stored before under other session ids; no record stored before under
    the same session id is left. *)
Theorem saved_record_is_read_back (store : RecordStore) (record r : PlaybackRecord) :
  (r ∈ getAllRecords (saveRecord store record)
   ↔ r = completeRecord record
     ∨ (r ∈ getAllRecords store ∧ sessionId r ≠ sessionId record))
  ∧ channelName (completeRecord record) ≠ Some EmptyString
  ∧ channelLogo (completeRecord record) ≠ Some EmptyString.
Proof.
  split_and!.
  - unfold saveRecord, getAllRecords. by rewrite elem_of_putRecord.
  - simpl. unfold orNull. destruct (channelName record) as [[|]|]; simpl; congruence.
  - simpl. unfold orNull. destruct (channelLogo record) as [[|]|]; simpl; congruence.
Qed.

Lemma Kept_runOps ops : Kept (runOps ops).
Proof.
  unfold runOps. induction ops as [| op ops IH] using rev_ind.
  - split; constructor.
  - rewrite fold_left_app. simpl. destruct op; simpl.
    + by apply Kept_saveRecord.
    + by apply Kept_deleteRecord.
Qed.

(** Whatever calls of [saveRecord] and [deleteRecord] were made on an
    empty store, [getAllRecords] returns the records in ascending order of
    their session ids, no two with the same session id, and each with a
    channel name and logo that is absent or non-empty. *)
Theorem store_has_one_record_per_session (ops : list StoreOp) :
  StronglySorted (λ a b, keyBefore (sessionId a) (sessionId b))
                 (getAllRecords (runOps ops))
  ∧ NoDup (sessionId <$> getAllRecords (runOps ops))
  ∧ Forall (λ r, channelName r ≠ Some EmptyString ∧ channelLogo r ≠ Some EmptyString)
           (getAllRecords (runOps ops)).
Proof.
  pose proof (Kept_runOps ops) as HK. split_and!.
  - apply HK.
  - by apply Kept_NoDup.
  - destruct HK as [_ Hn]. eapply Forall_impl; [exact Hn |].
    intros r <-. simpl. unfold orNull.
    destruct (channelName r) as [[|]|], (channelLogo r) as [[|]|]; simpl; split; congruence.
Qed.

(** Saving a record under a session id that was just saved replaces
    it: the store is as if only the second record had been saved. *)
Theorem saving_again_overwrites (store : RecordStore) (r1 r2 : PlaybackRecord) :
  sessionId r1 = sessionId r2 →
  saveRecord (saveRecord store r1) r2 = saveRecord store r2.
Proof. intros Hk. unfold saveRecord. by apply putRecord_putRecord. Qed.

End StoreFacts.

(** ** Sorting *)

Section SortFacts.
Import Database.
Context {A : Type} (cmp : A → A → Z).
Hypothesis cmp_total : ∀ a b, cmp a b ≤ 0 ∨ cmp b a ≤ 0.
Hypothesis cmp_trans : ∀ a b c, cmp a b ≤ 0 → cmp b c ≤ 0 → cmp a c ≤ 0.

Lemma sortInsert_perm x l : sortInsert cmp x l ≡ₚ x :: l.
Proof.
  induction l as [| y l IH]; simpl; [done |].
  destruct (cmp x y <=? 0); [done |]. rewrite IH. apply Permutation_swap.
Qed.

Lemma sort_perm l : sort cmp l ≡ₚ l.
Proof.
  induction l as [| x l IH]; simpl; [done |].
  unfold sort in *. simpl. rewrite sortInsert_perm. by constructor.
Qed.

Lemma sortInsert_sorted x l :
  StronglySorted (λ a b, cmp a b ≤ 0) l →
  StronglySorted (λ a b, cmp a b ≤ 0) (sortInsert cmp x l).
Proof.
  induction 1 as [| y l Hs IH Hall]; simpl.
  - repeat constructor.
  - destruct (cmp x y <=? 0) eqn:E.
    + apply Z.leb_le in E. constructor; [by constructor |].
      constructor; [done |]. eapply Forall_impl; [exact Hall |].
      intros z Hz. by eapply cmp_trans.
    + apply Z.leb_gt in E. constructor; [done |].
      apply Forall_forall. intros z Hz.
      rewrite sortInsert_perm in Hz. apply elem_of_cons in Hz as [-> | Hz].
      * destruct (cmp_total y x); [done | lia].
      * rewrite Forall_forall in Hall. auto.
Qed.

Lemma sort_sorted l : StronglySorted (λ a b, cmp a b ≤ 0) (sort cmp l).
Proof.
  induction l as [| x l IH]; [constructor |].
  unfold sort in *. simpl. by apply sortInsert_sorted.
Qed.

Lemma filter_sortInsert (P : A → Prop) `{!∀ x, Decision (P x)} x l :
  StronglySorted (λ a b, cmp a b ≤ 0) l →
  filter P (sortInsert cmp x l)
  = if decide (P x) then sortInsert cmp x (filter P l) else filter P l.
Proof.
  induction 1 as [| y l Hs IH Hall]; simpl.
  - rewrite filter_cons. by destruct (decide (P x)).
  - destruct (cmp x y <=? 0) eqn:E.
    + apply Z.leb_le in E. rewrite filter_cons.
      destruct (decide (P x)); [| done].
      assert (Hhead : ∀ l', (∀ z, z ∈ l' → cmp x z ≤ 0) → sortInsert cmp x l' = x :: l').
      { intros [| z l'] Hl'; simpl; [done |].
        rewrite (proj2 (Z.leb_le _ _)); [done |]. apply Hl'. left. }
      symmetry. apply Hhead. intros z [_ Hz]%list_elem_of_filter.
      apply elem_of_cons in Hz as [-> | Hz]; [done |].
      rewrite Forall_forall in Hall. eapply cmp_trans; eauto.
    + rewrite !(filter_cons _ y). destruct (decide (P y)).
      * rewrite IH. destruct (decide (P x)); [| done]. simpl. by rewrite E.
      * done.
Qed.

Lemma StronglySorted_weaken (R S : A → A → Prop) l :
  (∀ a b, R a b → S a b) → StronglySorted R l → StronglySorted S l.
Proof.
  intros HRS. induction 1 as [| x l Hs IH Hall]; constructor; [done |].
  eapply Forall_impl; [exact Hall | auto].
Qed.

Lemma filter_sort (P : A → Prop) `{!∀ x, Decision (P x)} l :
  filter P (sort cmp l) = sort cmp (filter P l).
Proof.
  induction l as [| x l IH]; [done |].
  change (sort cmp (x :: l)) with (sortInsert cmp x (sort cmp l)).
  rewrite filter_sortInsert by apply sort_sorted.
  rewrite filter_cons, IH. by destruct (decide (P x)).
Qed.

End SortFacts.

(** ** Loading and deleting *)

Section LoadFacts.
Import Database History Records Actions JsLocalDate ActionSpec MergeSpec.
Context `{LocalDates}.

Lemma newest_first_total (a b : PlaybackRecord) :
  date b - date a ≤ 0 ∨ date a - date b ≤ 0.
Proof. lia. Qed.

Lemma newest_first_trans (a b c : PlaybackRecord) :
  date b - date a ≤ 0 → date c - date b ≤ 0 → date c - date a ≤ 0.
Proof. lia. Qed.

(** [loadRecords] lists the stored records that pass the language and
    date filters, each once, newest first; with a language filter other
    than "all", every record listed has that language. *)
Theorem loaded_records_newest_first (store : RecordStore)
    (languageFilter dateFilter : string) (now : Z) :
  StronglySorted (λ a b, date b ≤ date a)
                 (loadRecords store languageFilter dateFilter now)
  ∧ loadRecords store languageFilter dateFilter now
    ≡ₚ filter (keeps languageFilter dateFilter now) (getAllRecords store)
  ∧ (languageFilter ≠ "all" →
     Forall (λ r, language r = languageFilter)
            (loadRecords store languageFilter dateFilter now)).
Proof.
  unfold loadRecords. split_and!.
  - eapply StronglySorted_weaken;
      [| apply (sort_sorted _ newest_first_total newest_first_trans)].
    intros a b. simpl. lia.
  - apply sort_perm.
  - intros Hne. apply Forall_forall. intros r Hr.
    rewrite sort_perm in Hr. apply list_elem_of_filter in Hr as [Hk _].
    unfold keeps in Hk. rewrite bool_decide_eq_false_2 in Hk by done. simpl in Hk.
    by destruct (bool_decide (language r = languageFilter)) eqn:E;
      [apply bool_decide_eq_true in E |].
Qed.

Lemma filter_comm {A} (P Q : A → Prop) `{!∀ x, Decision (P x)} `{!∀ x, Decision (Q x)}
    (l : list A) :
  filter P (filter Q l) = filter Q (filter P l).
Proof.
  induction l as [| x l IH]; [done |].
  rewrite !(filter_cons _ x).
  destruct (decide (P x)), (decide (Q x));
    rewrite ?filter_cons_True, ?filter_cons_False by done; by rewrite IH.
Qed.

Lemma elem_of_uniq x l : x ∈ uniq l ↔ x ∈ l.
Proof.
  induction l as [| y l IH]; simpl; [done |].
  rewrite !elem_of_cons, list_elem_of_filter, IH.
  destruct (decide (x = y)); tauto.
Qed.

Lemma NoDup_uniq l : NoDup (uniq l).
Proof.
  induction l as [| y l IH]; simpl; constructor.
  - rewrite list_elem_of_filter. by intros [? _].
  - by apply NoDup_filter.
Qed.

Lemma deleteRecord_all (ids : list string) (store : RecordStore) :
  fold_left deleteRecord ids store = filter (λ r, sessionId r ∉ ids) store.
Proof.
  revert store. induction ids as [| id ids IH]; intros store; simpl.
  - symmetry. apply filter_all. intros r _. apply not_elem_of_nil.
  - rewrite IH. unfold deleteRecord. rewrite list_filter_filter.
    apply list_filter_iff. intros r. rewrite not_elem_of_cons. tauto.
Qed.

Lemma loadRecords_filter (P : PlaybackRecord → Prop) `{!∀ r, Decision (P r)}
    (store : RecordStore) languageFilter dateFilter now :
  loadRecords (filter P store) languageFilter dateFilter now
  = filter P (loadRecords store languageFilter dateFilter now).
Proof.
  unfold loadRecords, getAllRecords.
  rewrite (filter_sort _ newest_first_total newest_first_trans).
  f_equal. apply filter_comm.
Qed.

(** The ids of the cards, in order, are the session ids of the records. *)
Lemma card_ids rs mergeConsecutive :
  concat (mergedSessionIds <$> buildDisplayRecords rs mergeConsecutive)
  = sessionId <$> rs.
Proof.
  destruct (build_groups rs mergeConsecutive) as (groups & <- & Hem).
  induction Hem as [|d g ds gs [Hd Hm] _ IH]; [done |].
  simpl. rewrite fmap_app. f_equal; [| exact IH].
  by destruct Hd as [-> _].
Qed.

(** A card stands for at least one record. *)
Lemma card_ids_nonempty rs mergeConsecutive d :
  d ∈ buildDisplayRecords rs mergeConsecutive → mergedSessionIds d ≠ [].
Proof.
  destruct (build_groups rs mergeConsecutive) as (groups & _ & Hem).
  intros Hd. apply list_elem_of_lookup in Hd as [i Hi].
  destruct (Forall2_lookup_l _ _ _ _ _ Hem Hi) as (g & _ & [Hc _]).
  destruct Hc as (Hids & _ & _ & _ & [Hin _] & _).
  rewrite Hids. destruct g; [| done]. by apply elem_of_nil in Hin.
Qed.

Lemma fmap_filter_ids (ids : list string) (rs : list PlaybackRecord) :
  sessionId <$> filter (λ r, sessionId r ∉ ids) rs
  = filter (λ id, id ∉ ids) (sessionId <$> rs).
Proof.
  induction rs as [| r rs IH]; [done |].
  rewrite fmap_cons, !filter_cons.
  destruct (decide (sessionId r ∉ ids)); csimpl; by rewrite IH.
Qed.

(** Deleting a card: when the question is answered with no, the store
    and the selection stay as they are.  When it is answered with yes,
    the reloaded list is the old list without the records of the given
    session ids, in the same order; the cards built from it hold the old
    cards' session ids without the given ones; and the given ids leave the
    selection. *)
Theorem deleting_a_card_removes_its_sessions (store : RecordStore)
    (selectedRecords sessionIds : list string)
    (languageFilter dateFilter : string) (now : Z) (mergeConsecutive : bool) :
  deleteRecordGroup (λ _, false) store selectedRecords sessionIds
    = (store, selectedRecords)
  ∧ let after := deleteRecordGroup (λ _, true) store selectedRecords sessionIds in
    let old := loadRecords store languageFilter dateFilter now in
    let new := loadRecords after.1 languageFilter dateFilter now in
    new = filter (λ r, sessionId r ∉ sessionIds) old
    ∧ concat (mergedSessionIds <$> buildDisplayRecords new mergeConsecutive)
      = filter (λ id, id ∉ sessionIds)
               (concat (mergedSessionIds <$> buildDisplayRecords old mergeConsecutive))
    ∧ after.2 = filter (λ id, id ∉ sessionIds) selectedRecords.
Proof.
  split.
  - unfold deleteRecordGroup. by case_bool_decide.
  - simpl.
    assert (Hst : (deleteRecordGroup (λ _, true) store selectedRecords sessionIds).1
                  = filter (λ r, sessionId r ∉ sessionIds) store).
    { unfold deleteRecordGroup. case_bool_decide as Hlen; simpl.
      - destruct sessionIds; [| done]. symmetry. apply filter_all.
        intros r _. apply not_elem_of_nil.
      - rewrite deleteRecord_all. apply list_filter_iff. intros r.
        by rewrite elem_of_uniq. }
    assert (Hsel : (deleteRecordGroup (λ _, true) store selectedRecords sessionIds).2
                   = filter (λ id, id ∉ sessionIds) selectedRecords).
    { unfold deleteRecordGroup. case_bool_decide as Hlen; simpl.
      - destruct sessionIds; [| done]. symmetry. apply filter_all.
        intros r _. apply not_elem_of_nil.
      - apply list_filter_iff. intros r. by rewrite elem_of_uniq. }
    rewrite Hst, Hsel, loadRecords_filter. split_and!; [done | | done].
    by rewrite !card_ids, fmap_filter_ids.
Qed.

(** Batch delete: answered with no, or with nothing selected, it
    changes nothing.  Answered with yes, it removes from the store exactly
    the records whose session id is selected, whether the list shows them
    or not, and empties the selection, so that no card of the reloaded
    list is selected. *)
Theorem batch_delete_removes_the_selection (store : RecordStore)
    (selectedRecords : list string)
    (languageFilter dateFilter : string) (now : Z) (mergeConsecutive : bool) :
  batchDelete (λ _, false) store selectedRecords = (store, selectedRecords)
  ∧ batchDelete (λ _, true) store [] = (store, [])
  ∧ let after := batchDelete (λ _, true) store selectedRecords in
    (∀ r, r ∈ getAllRecords after.1
          ↔ r ∈ getAllRecords store ∧ sessionId r ∉ selectedRecords)
    ∧ after.2 = []
    ∧ Forall (λ d, isSelected after.2 d = false)
             (buildDisplayRecords (loadRecords after.1 languageFilter dateFilter now)
                                  mergeConsecutive).
Proof.
  split_and!.
  - unfold batchDelete. by case_bool_decide.
  - done.
  - simpl. unfold batchDelete. case_bool_decide as Hlen; simpl.
    + destruct selectedRecords; [| done]. split_and!.
      * intros r. split; [intros ?; split; [done | apply not_elem_of_nil] | by intros [? _]].
      * done.
      * apply Forall_forall. intros d Hd%card_ids_nonempty. unfold isSelected.
        destruct (mergedSessionIds d) as [| id ids]; [done |].
        cbn [forallb]. apply andb_false_intro1, bool_decide_eq_false_2, not_elem_of_nil.
    + split_and!.
      * intros r. unfold getAllRecords.
        rewrite deleteRecord_all, list_elem_of_filter, elem_of_uniq. tauto.
      * done.
      * apply Forall_forall. intros d Hd%card_ids_nonempty. unfold isSelected.
        destruct (mergedSessionIds d) as [| id ids]; [done |].
        cbn [forallb]. apply andb_false_intro1, bool_decide_eq_false_2, not_elem_of_nil.
Qed.

End LoadFacts.

(** ** Selecting *)

Section SelectFacts.
Import History Records Actions ActionSpec MergeSpec.
Context `{LocalTime}.

Lemma elem_of_delete_all (ids next : list string) x :
  x ∈ fold_left (λ next id, filter (λ y, y ≠ id) next) ids next
  ↔ x ∈ next ∧ x ∉ ids.
Proof.
  revert next. induction ids as [| id ids IH]; intros next; simpl.
  - split; [intros ?; split; [done | apply not_elem_of_nil] | by intros [? _]].
  - rewrite IH, list_elem_of_filter, not_elem_of_cons. tauto.
Qed.

Lemma NoDup_delete_all (ids next : list string) :
  NoDup next → NoDup (fold_left (λ next id, filter (λ y, y ≠ id) next) ids next).
Proof.
  revert next. induction ids as [| id ids IH]; intros next Hn; simpl; [done |].
  apply IH. by apply NoDup_filter.
Qed.

Lemma elem_of_add_all (ids next : list string) x :
  x ∈ fold_left (λ next id, if bool_decide (id ∈ next) then next else next ++ [id])
                ids next
  ↔ x ∈ next ∨ x ∈ ids.
Proof.
  revert next. induction ids as [| id ids IH]; intros next; simpl.
  - split; [by left | intros [? | Hx]; [done | by apply elem_of_nil in Hx]].
  - rewrite IH, elem_of_cons. case_bool_decide as Hin.
    + split; [tauto |]. intros [? | [-> | ?]]; auto.
    + rewrite elem_of_app, list_elem_of_singleton. tauto.
Qed.

Lemma NoDup_add_all (ids next : list string) :
  NoDup next →
  NoDup (fold_left (λ next id, if bool_decide (id ∈ next) then next else next ++ [id])
                   ids next).
Proof.
  revert next. induction ids as [| id ids IH]; intros next Hn; simpl; [done |].
  apply IH. case_bool_decide as Hin; [done |].
  apply NoDup_app. split_and!; [done | | apply NoDup_singleton].
  intros x Hx ->%list_elem_of_singleton. done.
Qed.

Lemma all_selected_spec (ids selected : list string) :
  forallb (λ id, bool_decide (id ∈ selected)) ids = true ↔ ∀ id, id ∈ ids → id ∈ selected.
Proof.
  rewrite forallb_forall. split.
  - intros Hall id Hid. apply (bool_decide_unpack _). apply Is_true_true, Hall.
    by apply list_elem_of_In.
  - intros Hall id Hid. apply bool_decide_eq_true, Hall. by apply list_elem_of_In.
Qed.

(** What a click on a card with the ids [ids] does to the selection. *)
Lemma toggle_spec (ids prev : list string) :
  NoDup (toggleRecordSelection (inr ids) prev)
  ∧ ((∀ id, id ∈ ids → id ∈ prev) →
     ∀ x, x ∈ toggleRecordSelection (inr ids) prev ↔ x ∈ prev ∧ x ∉ ids)
  ∧ (¬ (∀ id, id ∈ ids → id ∈ prev) →
     ∀ x, x ∈ toggleRecordSelection (inr ids) prev ↔ x ∈ prev ∨ x ∈ ids).
Proof.
  unfold toggleRecordSelection.
  destruct (forallb _ ids) eqn:Eall.
  - pose proof (proj1 (all_selected_spec _ _) Eall) as Hsel. split_and!.
    + apply NoDup_delete_all, NoDup_uniq.
    + intros _ x. by rewrite elem_of_delete_all, elem_of_uniq.
    + intros Hn. destruct Hn. intros id Hid. rewrite <- elem_of_uniq. auto.
  - assert (¬ ∀ id, id ∈ ids → id ∈ uniq prev) as Hn.
    { intros Hall. apply (proj2 (all_selected_spec _ _)) in Hall. congruence. }
    split_and!.
    + apply NoDup_add_all, NoDup_uniq.
    + intros Hall. destruct Hn. intros id Hid. rewrite elem_of_uniq. auto.
    + intros _ x. by rewrite elem_of_add_all, elem_of_uniq.
Qed.

(** A click on a card of the list toggles it: a card that was not
    selected becomes selected, a selected one becomes unselected.  The
    selection afterwards holds no id twice, and the ids that are not the
    card's are selected exactly as before. *)
Theorem clicking_a_card_toggles_its_selection (rs : list PlaybackRecord)
    (mergeConsecutive : bool) (prev : list string) (d : DisplayRecord) :
  d ∈ buildDisplayRecords rs mergeConsecutive →
  let next := toggleRecordSelection (inr (mergedSessionIds d)) prev in
  isSelected next d = negb (isSelected prev d)
  ∧ NoDup next
  ∧ ∀ id, id ∉ mergedSessionIds d → (id ∈ next ↔ id ∈ prev).
Proof.
  intros Hd%card_ids_nonempty. simpl.
  destruct (toggle_spec (mergedSessionIds d) prev) as (Hnd & Hoff & Hon).
  split_and!; [| done |].
  - unfold isSelected.
    destruct (forallb _ (mergedSessionIds d)) eqn:Eprev at 2; simpl.
    + pose proof (proj1 (all_selected_spec _ _) Eprev) as Hall.
      apply not_true_is_false. intros Hnext.
      pose proof (proj1 (all_selected_spec _ _) Hnext) as Hnext'.
      destruct (mergedSessionIds d) as [| id ids] eqn:Eids; [done |].
      assert (id ∈ id :: ids) as Hid by left.
      apply Hnext', (Hoff Hall) in Hid as [_ Hid]. apply Hid. left.
    + assert (¬ ∀ id, id ∈ mergedSessionIds d → id ∈ prev) as Hn.
      { intros Hall. apply (proj2 (all_selected_spec _ _)) in Hall. congruence. }
      apply all_selected_spec. intros id Hid. apply (Hon Hn). by right.
  - intros id Hid.
    destruct (forallb (λ id, bool_decide (id ∈ prev)) (mergedSessionIds d)) eqn:Eprev.
    + rewrite (Hoff (proj1 (all_selected_spec _ _) Eprev)). tauto.
    + rewrite Hon; [tauto |].
      intros Hall. apply (proj2 (all_selected_spec _ _)) in Hall. congruence.
Qed.

End SelectFacts.

(** ** Entering and editing *)

Section EntryFacts.
Import History Records Actions ActionSpec MergeSpec AggregateSpec JsLocalDate.

Lemma isoDay_of_day t : isoDay (isoDay t * msPerDay) = isoDay t.
Proof. unfold isoDay. apply Z.div_mul. by vm_compute. Qed.

Lemma updatedRecord_minutes r title url minutes language date :
  duration (updatedRecord r title url minutes language date) / 60 = minutes.
Proof.
  simpl. destruct (minutes =? duration r / 60) eqn:E.
  - apply Z.eqb_eq in E. by rewrite E.
  - apply Z.div_mul. lia.
Qed.

Lemma updatedRecord_day r title url minutes language date :
  isoDay (Types.date (updatedRecord r title url minutes language date)) = isoDay date.
Proof.
  simpl. destruct (isoDay date =? isoDay (Types.date r)) eqn:E; [| done].
  apply Z.eqb_eq in E. by rewrite E.
Qed.

(** An edit that is accepted stores one record under the session id
    of the edited record, with the title and the language entered; its
    whole minutes are the minutes entered and its UTC day is the day
    entered.  Minutes left as they were keep the seconds, a day left as it
    was keeps the time of day.  The records of other session ids stay as
    they are. *)
Theorem accepted_edit_stores_the_entered_values (store store' : RecordStore)
    (editingRecord : PlaybackRecord) (form : EntryForm) :
  handleEditEntry store (Some editingRecord) form = Saved store' →
  ∃ saved minutes day,
    fieldDuration form = Some minutes ∧ fieldDate form = Some day
    ∧ (∀ r, r ∈ getAllRecords store' ∧ sessionId r = sessionId editingRecord
            ↔ r = saved)
    ∧ (∀ r, sessionId r ≠ sessionId editingRecord →
            (r ∈ getAllRecords store' ↔ r ∈ getAllRecords store))
    ∧ title saved = fieldTitle form
    ∧ language saved = fieldLanguage form
    ∧ duration saved / 60 = minutes
    ∧ isoDay (date saved) = isoDay day
    ∧ (minutes = duration editingRecord / 60 → duration saved = duration editingRecord)
    ∧ (isoDay day = isoDay (date editingRecord) → date saved = date editingRecord).
Proof.
  unfold handleEditEntry.
  destruct (fieldDuration form) as [minutes|]; [| done].
  destruct (fieldDate form) as [day|]; [| done].
  destruct (_ || _); [done |]. intros [= <-].
  set (u := updatedRecord editingRecord (fieldTitle form) (fieldUrl form) minutes
                          (fieldLanguage form) day).
  exists (completeRecord u), minutes, day. split_and!; try done.
  - intros r. unfold saveRecord, getAllRecords. rewrite elem_of_putRecord. simpl.
    split; [intros [[-> | [_ Hne]] Hid]; done | intros ->; auto].
  - intros r Hne. unfold saveRecord, getAllRecords. rewrite elem_of_putRecord. simpl.
    split; [intros [-> | [? _]]; done | auto].
  - apply updatedRecord_minutes.
  - apply (updatedRecord_day editingRecord).
  - intros ->. simpl. by rewrite Z.eqb_refl.
  - intros Hd. simpl. by rewrite Hd, Z.eqb_refl.
Qed.

(** The language the select of the edit form holds is one of its options. *)
Lemma selectValue_option language : selectValue language ∈ editLanguageOptions.
Proof.
  unfold selectValue. case_bool_decide; [done |].
  apply (bool_decide_unpack _). by vm_compute.
Qed.

Lemma selectValue_fixed language :
  selectValue language = language ↔ language ∈ editLanguageOptions.
Proof.
  split.
  - intros <-. apply selectValue_option.
  - intros Hin. unfold selectValue. by rewrite bool_decide_eq_true_2.
Qed.

(** What the store holds after the edit form of [r] is submitted as it
    was opened. *)
Lemma untouched_edit_saves (store : RecordStore) (r : PlaybackRecord) :
  textValue (title r) ≠ EmptyString → duration r / 60 ≠ 0 →
  handleEditEntry store (Some r) (editDefaults r)
  = Saved (saveRecord store
             {| sessionId := sessionId r;
                title := textValue (title r);
                url := if isEmpty (urlValue (url r)) then url r else urlValue (url r);
                duration := duration r;
                language := selectValue (language r);
                date := date r;
                channelName := channelName r;
                channelLogo := channelLogo r |}).
Proof.
  intros Ht Hd. unfold handleEditEntry, editDefaults. simpl.
  assert (isEmpty (selectValue (language r)) = false) as ->.
  { unfold isEmpty. apply bool_decide_eq_false_2. intros He.
    pose proof (selectValue_option (language r)) as Hin. rewrite He in Hin.
    revert Hin. apply (bool_decide_unpack (EmptyString ∉ editLanguageOptions)).
    by vm_compute. }
  unfold isEmpty at 1. rewrite bool_decide_eq_false_2 by done.
  rewrite (proj2 (Z.eqb_neq _ _) Hd). simpl. do 2 f_equal.
  unfold updatedRecord. by rewrite isoDay_of_day, !Z.eqb_refl.
Qed.

(** Submitting the edit form as it was opened, for a stored record with
    a title and at least one whole minute, in a store kept by the
    service.  The store stays as it is exactly when the form holds the
    record's own values: the title has no line break for the text input
    to strip, the url is left as it is by the url input (or is stripped
    to nothing, in which case the handler keeps the old url), and the
    language is one of the four options of the select.  Otherwise the
    submit rewrites the record. *)
Theorem unchanged_edit_keeps_the_store (store : RecordStore) (r : PlaybackRecord) :
  Kept store → r ∈ store →
  textValue (title r) ≠ EmptyString → duration r / 60 ≠ 0 →
  handleEditEntry store (Some r) (editDefaults r) = Saved store
  ↔ textValue (title r) = title r
    ∧ (urlValue (url r) = url r ∨ urlValue (url r) = EmptyString)
    ∧ language r ∈ editLanguageOptions.
Proof.
  intros Hkept Hin Ht Hd. rewrite untouched_edit_saves by done.
  set (u := mkPlaybackRecord _ _ _ _ _ _ _ _).
  assert (completeRecord r = r) as Hnorm.
  { destruct Hkept as [_ Hn]. rewrite Forall_forall in Hn. by apply Hn. }
  split.
  - intros [= Hstore].
    assert (completeRecord u ∈ store) as Hu.
    { rewrite <- Hstore. unfold saveRecord. apply elem_of_putRecord. by left. }
    assert (completeRecord u = r) as Heq.
    { pose proof (Kept_NoDup store Hkept) as Hnd.
      apply list_elem_of_lookup in Hu as [i Hi].
      apply list_elem_of_lookup in Hin as [j Hj].
      assert (i = j) as ->.
      { apply (NoDup_lookup _ _ _ (sessionId r) Hnd);
          rewrite list_lookup_fmap; [by rewrite Hi | by rewrite Hj]. }
      congruence. }
    assert (title u = title r) as Etitle by (by rewrite <- Heq).
    assert (url u = url r) as Eurl by (by rewrite <- Heq).
    assert (language u = language r) as Elang by (by rewrite <- Heq).
    simpl in Etitle, Eurl, Elang. split_and!.
    + done.
    + unfold isEmpty in Eurl. case_bool_decide; [by right | by left].
    + by apply selectValue_fixed.
  - intros (Etitle & Eurl & Elang). f_equal.
    assert (u = r) as ->.
    { unfold u. rewrite Etitle, (proj2 (selectValue_fixed _) Elang).
      assert ((if isEmpty (urlValue (url r)) then url r else urlValue (url r))
              = url r) as ->.
      { unfold isEmpty. case_bool_decide as He; [done |]. by destruct Eurl. }
      by destruct r. }
    unfold saveRecord. rewrite Hnorm. destruct Hkept as [Hs _].
    by apply putRecord_stored.
Qed.

(** A record of less than a minute cannot be saved from the edit
    form while the duration field is left as it was opened: whatever the
    other fields hold, the submit is refused. *)
Theorem edit_of_short_record_is_refused (store : RecordStore) (r : PlaybackRecord)
    (form : EntryForm) :
  0 ≤ duration r < 60 →
  fieldDuration form = fieldDuration (editDefaults r) →
  handleEditEntry store (Some r) form = Refused.
Proof.
  intros Hd Hf. unfold handleEditEntry. rewrite Hf. simpl.
  rewrite Z.div_small by done. destruct (fieldDate form); [| done].
  by rewrite orb_true_r.
Qed.

Lemma totalWhere_perm (P : PlaybackRecord → Prop) `{!∀ r, Decision (P r)} l1 l2 :
  l1 ≡ₚ l2 → totalWhere P l1 = totalWhere P l2.
Proof.
  induction 1 as [| x l1 l2 _ IH | x y l | l1 l2 l3 _ IH1 _ IH2].
  - done.
  - by rewrite !totalWhere_cons, IH.
  - rewrite !totalWhere_cons. lia.
  - congruence.
Qed.

Lemma putRecord_fresh_perm doc (store : RecordStore) :
  (∀ r, r ∈ store → sessionId r ≠ sessionId doc) → putRecord doc store ≡ₚ doc :: store.
Proof.
  intros Hfresh. unfold putRecord. rewrite <- Permutation_middle. constructor.
  induction store as [| r store IH]; [done |].
  assert (sessionId r ≠ sessionId doc) as Hne by (apply Hfresh; left).
  assert (∀ r, r ∈ store → sessionId r ≠ sessionId doc) as Hrest
    by (intros r' Hr'; apply Hfresh; by right).
  rewrite !(filter_cons _ r).
  destruct (keyBefore_total _ _ Hne) as [Hlt | Hgt].
  - rewrite decide_True by done.
    rewrite decide_False by (by apply keyBefore_asym).
    simpl. constructor. by apply IH.
  - rewrite decide_False by (by apply keyBefore_asym).
    rewrite decide_True by done.
    rewrite <- Permutation_middle. constructor. by apply IH.
Qed.

Lemma known_language_stat rs l :
  l ∈ Language →
  getLanguageStats rs !! l = Some (JsObject.Num (totalWhere (λ r, language r = l) rs)).
Proof.
  intros Hl. unfold getLanguageStats.
  rewrite stats_fold by (by apply Language_not_inherited).
  by rewrite zeroTotals_lookup, bool_decide_eq_true_2 by done.
Qed.

(** A manual entry that is accepted, under a session id not yet in
    the store, raises the statistic of its language by sixty times the
    minutes entered when the new record passes the filters of the list,
    and leaves the statistics of the other known languages as they
    were. *)
Theorem manual_entry_adds_its_minutes `{LocalDates} (store store' : RecordStore)
    (now : Z) (random : string) (form : EntryForm)
    (languageFilter dateFilter : string) (clock : Z) (l : string) :
  handleManualEntry store now random form = Saved store' →
  (∀ r, r ∈ store → sessionId r ≠ generateSessionId now random) →
  l ∈ Language →
  ∃ record minutes n,
    fieldDuration form = Some minutes
    ∧ fieldDate form = Some (date record)
    ∧ sessionId record = generateSessionId now random
    ∧ duration record = minutes * 60
    ∧ language record = fieldLanguage form
    ∧ record ∈ getAllRecords store'
    ∧ getLanguageStats (loadRecords store languageFilter dateFilter clock) !! l
      = Some (JsObject.Num n)
    ∧ getLanguageStats (loadRecords store' languageFilter dateFilter clock) !! l
      = Some (JsObject.Num
                (n + if keeps languageFilter dateFilter clock record
                        && bool_decide (language record = l)
                     then minutes * 60 else 0)).
Proof.
  unfold handleManualEntry.
  destruct (fieldDate form) as [day|]; [| done].
  destruct (fieldDuration form) as [minutes|]; [| done].
  destruct (_ || _); [done |]. intros [= <-] Hfresh Hl.
  match goal with |- context [saveRecord store ?r] => set (rec := r) end.
  exists (completeRecord rec), minutes,
    (totalWhere (λ r, language r = l) (loadRecords store languageFilter dateFilter clock)).
  split_and!; try done.
  - unfold saveRecord, getAllRecords. apply elem_of_putRecord. by left.
  - by apply known_language_stat.
  - rewrite known_language_stat by done. do 2 f_equal.
    unfold loadRecords, getAllRecords, saveRecord.
    rewrite !(totalWhere_perm _ _ _ (sort_perm _ _)).
    rewrite (totalWhere_perm _ _ _
               (filter_Permutation _ _ _
                  (putRecord_fresh_perm (completeRecord rec) store Hfresh))).
    destruct (keeps languageFilter dateFilter clock (completeRecord rec)) eqn:Ek.
    + rewrite filter_cons_True by (by rewrite Ek). rewrite totalWhere_cons. simpl.
      destruct (decide (fieldLanguage form = l));
        [rewrite bool_decide_eq_true_2 by done | rewrite bool_decide_eq_false_2 by done];
        lia.
    + rewrite filter_cons_False by (rewrite Ek; exact id). simpl. lia.
Qed.

End EntryFacts.

(** ** Visibility of a language *)

Section VisibilityFacts.
Import Database History Records Actions ActionSpec MergeSpec AggregateSpec JsLocalDate.
Context `{LocalDates}.

Lemma truthyAt_insert vis l b : truthyAt (<[l := b]> vis) l = b.
Proof. unfold truthyAt. by rewrite lookup_insert_eq. Qed.

Lemma truthyAt_insert_ne vis l k b : l ≠ k → truthyAt (<[l := b]> vis) k = truthyAt vis k.
Proof. intros Hne. unfold truthyAt. by rewrite lookup_insert_ne. Qed.

(** The visibility of a language after [normalizeVisibility]. *)
Lemma truthyAt_normalized vis l :
  l ∈ Language → truthyAt (normalizeVisibility (Some vis)) l = default true (vis !! l).
Proof.
  intros Hl. unfold truthyAt.
  by rewrite normalizeVisibility_lookup, bool_decide_eq_true_2.
Qed.

Lemma flipped_hidden vis l :
  truthyAt vis l = true → default true (flipped vis l !! l) = false.
Proof. intros Hv. unfold flipped. by rewrite lookup_insert_eq, Hv. Qed.

(** What the updater of [toggleLanguageVisibility] sets off. *)
Lemma toggle_result store now today st languageFilter language :
  toggleLanguageVisibility store now today st languageFilter language
  = (put {| goalDate := today;
            goals := match getDailyGoal store today with
                     | Some g => goals g
                     | None => goalInputs st
                     end;
            visibility :=
              Some (normalizeVisibility (Some (flipped (languageVisibility st) language)));
            updatedAt := now |} store,
     {| goalInputs := goalInputs st;
        languageVisibility := flipped (languageVisibility st) language;
        monthGoals := monthGoals st |},
     if truthyAt (languageVisibility st) language
        && bool_decide (languageFilter = language)
     then "all" else languageFilter).
Proof.
  unfold toggleLanguageVisibility, flipped, saveDailyGoal. cbn [goalDate goals visibility].
  by rewrite truthyAt_insert, negb_involutive.
Qed.

(** The filter the component is left with. *)
Lemma afterToggle_filter seesFirst seesSecond goalStore recordStore inSelectedMonth
    now today dateFilter screen language :
  shownFilter (afterToggle seesFirst seesSecond goalStore recordStore inSelectedMonth
                           now today dateFilter screen language).2
  = if truthyAt (languageVisibility (goalState screen)) language
       && bool_decide (shownFilter screen = language)
    then "all" else shownFilter screen.
Proof. unfold afterToggle. rewrite toggle_result. by case_bool_decide. Qed.

(** The component when the filter stays: the state the updater returns. *)
Lemma afterToggle_stays seesFirst seesSecond goalStore recordStore inSelectedMonth
    now today dateFilter screen language :
  shownFilter (afterToggle seesFirst seesSecond goalStore recordStore inSelectedMonth
                           now today dateFilter screen language).2
  = shownFilter screen →
  (afterToggle seesFirst seesSecond goalStore recordStore inSelectedMonth
               now today dateFilter screen language).2
  = {| goalState :=
         {| goalInputs := goalInputs (goalState screen);
            languageVisibility := flipped (languageVisibility (goalState screen)) language;
            monthGoals := monthGoals (goalState screen) |};
       shownFilter := shownFilter screen;
       shownRecords := shownRecords screen |}.
Proof.
  rewrite afterToggle_filter. intros Hf. unfold afterToggle. rewrite toggle_result.
  rewrite Hf. by rewrite bool_decide_eq_true_2.
Qed.

(** The component when the filter changes: the effect has loaded the
    goals and the records again. *)
Lemma afterToggle_reloads seesFirst seesSecond goalStore recordStore inSelectedMonth
    now today dateFilter screen language :
  let after := afterToggle seesFirst seesSecond goalStore recordStore inSelectedMonth
                           now today dateFilter screen language in
  shownFilter after.2 ≠ shownFilter screen →
  shownFilter after.2 = "all"
  ∧ shownRecords after.2 = loadRecords recordStore "all" dateFilter now
  ∧ goalInputs (goalState after.2)
    = goalInputs (loadGoals (if seesFirst then after.1 else goalStore)
                            inSelectedMonth now today
                            {| goalInputs := goalInputs (goalState screen);
                               languageVisibility :=
                                 flipped (languageVisibility (goalState screen)) language;
                               monthGoals := monthGoals (goalState screen) |})
  ∧ languageVisibility (goalState after.2)
    = languageVisibility (loadGoals (if seesFirst then after.1 else goalStore)
                            inSelectedMonth now today
                            {| goalInputs := goalInputs (goalState screen);
                               languageVisibility :=
                                 flipped (languageVisibility (goalState screen)) language;
                               monthGoals := monthGoals (goalState screen) |}).
Proof.
  cbv zeta. rewrite afterToggle_filter. unfold afterToggle. rewrite toggle_result.
  destruct (truthyAt _ _ && bool_decide _) eqn:E; [| done]. intros Hne.
  rewrite bool_decide_eq_false_2 by done. by destruct seesFirst.
Qed.

(** The snapshot [persist] has stored under today's date. *)
Lemma afterToggle_store seesFirst seesSecond goalStore recordStore inSelectedMonth
    now today dateFilter screen language :
  (afterToggle seesFirst seesSecond goalStore recordStore inSelectedMonth
               now today dateFilter screen language).1
  = put {| goalDate := today;
           goals := match getDailyGoal goalStore today with
                    | Some g => goals g
                    | None => goalInputs (goalState screen)
                    end;
           visibility :=
             Some (normalizeVisibility
                     (Some (flipped (languageVisibility (goalState screen)) language)));
           updatedAt := now |} goalStore.
Proof. unfold afterToggle. rewrite toggle_result. by case_bool_decide. Qed.

(** Toggling the visibility of a language.  In the store, [persist]
    leaves under today's date a snapshot with the goals that were
    resolved for today before (the goals of the form when no snapshot
    was) and with the visibility of the four languages after the toggle;
    snapshots of other dates stay as they are.  In the component, while
    the language filter stays, the visibility is the toggled one and the
    goals of the form, the goals of the month and the records are
    untouched.  When hiding the language resets the filter, goals and
    records are loaded again: the goals of the form are replaced by the
    goals resolved for today (the goals of the form come back only when
    no snapshot was resolved before and the reload finds the one
    [persist] wrote), and when the reload finds that snapshot the
    visibility of the four languages is the stored one. *)
Theorem visibility_toggle_keeps_goals (seesFirst seesSecond : bool)
    (goalStore : GoalStore) (recordStore : RecordStore)
    (inSelectedMonth : DailyGoal → bool) (now today : Z) (dateFilter : string)
    (screen : Screen) (language : string) :
  let st := goalState screen in
  let next := flipped (languageVisibility st) language in
  let after := afterToggle seesFirst seesSecond goalStore recordStore inSelectedMonth
                           now today dateFilter screen language in
  let store' := after.1 in
  let st' := goalState after.2 in
  (∃ doc, getDailyGoal store' today = Some doc
          ∧ goals doc = match getDailyGoal goalStore today with
                        | Some g => goals g
                        | None => goalInputs st
                        end
          ∧ (∀ l, l ∈ Language → visibleOr (visibility doc) l = default true (next !! l))
          ∧ (shownFilter after.2 ≠ shownFilter screen → seesFirst = true →
             ∀ l, l ∈ Language →
                  languageVisibility st' !! l = Some (visibleOr (visibility doc) l)))
  ∧ (∀ g, goalDate g ≠ today →
          (g ∈ getAllDailyGoals store' ↔ g ∈ getAllDailyGoals goalStore))
  ∧ shownFilter after.2
    = (if truthyAt (languageVisibility st) language
          && bool_decide (shownFilter screen = language)
       then "all" else shownFilter screen)
  ∧ (shownFilter after.2 = shownFilter screen →
     languageVisibility st' = next
     ∧ goalInputs st' = goalInputs st
     ∧ monthGoals st' = monthGoals st
     ∧ shownRecords after.2 = shownRecords screen)
  ∧ (shownFilter after.2 ≠ shownFilter screen →
     goalInputs st'
     = match getDailyGoal goalStore today with
       | Some g => goals g
       | None => if seesFirst then goalInputs st else Constants.DEFAULT_DAILY_GOAL
       end).
Proof.
  cbv zeta.
  pose proof (afterToggle_store seesFirst seesSecond goalStore recordStore
                inSelectedMonth now today dateFilter screen language) as Hstore.
  set (doc := {| goalDate := today;
                 goals := match getDailyGoal goalStore today with
                          | Some g => goals g
                          | None => goalInputs (goalState screen)
                          end;
                 visibility :=
                   Some (normalizeVisibility
                           (Some (flipped (languageVisibility (goalState screen))
                                          language)));
                 updatedAt := now |}) in *.
  assert (getDailyGoal (put doc goalStore) today = Some doc) as Hdoc
    by apply (getDailyGoal_put doc).
  assert (∀ l, l ∈ Language →
               visibleOr (visibility doc) l
               = default true
                   (flipped (languageVisibility (goalState screen)) language !! l))
    as Hvis.
  { intros l Hl. unfold visibleOr at 1. simpl.
    by rewrite normalizeVisibility_lookup, bool_decide_eq_true_2. }
  split_and!.
  - exists doc. rewrite Hstore. split_and!; [done | done | done |].
    intros Hne -> l Hl.
    destruct (afterToggle_reloads true seesSecond goalStore recordStore
                inSelectedMonth now today dateFilter screen language Hne)
      as (_ & _ & _ & ->).
    rewrite Hstore, (loadGoals_some _ _ _ _ _ doc Hdoc). simpl.
    by rewrite normalizeVisibility_lookup, bool_decide_eq_true_2.
  - intros g Hg. rewrite Hstore. unfold getAllDailyGoals. rewrite elem_of_put. simpl.
    split; [intros [-> | [? _]]; done | auto].
  - apply afterToggle_filter.
  - intros Hsame. by rewrite afterToggle_stays.
  - intros Hne.
    destruct (afterToggle_reloads seesFirst seesSecond goalStore recordStore
                inSelectedMonth now today dateFilter screen language Hne)
      as (_ & _ & -> & _).
    destruct seesFirst.
    + rewrite Hstore, (loadGoals_some _ _ _ _ _ doc Hdoc). simpl.
      by destruct (getDailyGoal goalStore today).
    + unfold loadGoals. by destruct (getDailyGoal goalStore today).
Qed.

(** Hiding one of the four languages while it is shown.  The language
    filter does not stay on the hidden language.  When the filter was on
    something else, it stays, and the cards of the language, and only
    they, leave the list of cards shown.  When the filter was on the
    language itself, it is set to "all" and the records are loaded again
    with that filter; the language is then hidden in the component, and
    none of its cards is shown, provided the goals loaded again come from
    the snapshot [persist] wrote or from no snapshot with a visibility of
    its own.  When the reload finds an older snapshot with a visibility,
    the component takes the visibility of the language from there, and
    shows the language again where that snapshot shows it. *)
Theorem hiding_a_language_hides_its_cards (seesFirst seesSecond : bool)
    (goalStore : GoalStore) (recordStore : RecordStore)
    (inSelectedMonth : DailyGoal → bool) (now today : Z) (dateFilter : string)
    (screen : Screen) (language : string) (mergeDisplay : bool) :
  language ∈ Language →
  truthyAt (languageVisibility (goalState screen)) language = true →
  let after := (afterToggle seesFirst seesSecond goalStore recordStore inSelectedMonth
                            now today dateFilter screen language).2 in
  shownFilter after ≠ language
  ∧ (shownFilter screen ≠ language →
     shownFilter after = shownFilter screen
     ∧ shownCards mergeDisplay after
       = filter (λ d, Types.language (base d) ≠ language) (shownCards mergeDisplay screen)
     ∧ Forall (λ lang, key lang ≠ language)
              (visibleLanguages (languageVisibility (goalState after))))
  ∧ (shownFilter screen = language →
     shownFilter after = "all"
     ∧ shownRecords after = loadRecords recordStore "all" dateFilter now
     ∧ (seesFirst = true ∨ getDailyGoal goalStore today ≫= visibility = None →
        truthyAt (languageVisibility (goalState after)) language = false
        ∧ Forall (λ d, Types.language (base d) ≠ language) (shownCards mergeDisplay after)
        ∧ Forall (λ lang, key lang ≠ language)
                 (visibleLanguages (languageVisibility (goalState after))))
     ∧ (seesFirst = false →
        ∀ g vis, getDailyGoal goalStore today = Some g → visibility g = Some vis →
                 truthyAt (languageVisibility (goalState after)) language
                 = default true (vis !! language))).
Proof.
  intros Hlang Hshown. cbv zeta.
  assert ("all" ≠ language) as Hall.
  { intros <-. revert Hlang.
    apply (bool_decide_unpack ("all" ∉ Language)). by vm_compute. }
  pose proof (afterToggle_filter seesFirst seesSecond goalStore recordStore
                inSelectedMonth now today dateFilter screen language) as Hfilter.
  rewrite Hshown in Hfilter. simpl in Hfilter.
  assert (∀ vis, truthyAt vis language = false →
            (∀ records,
               Forall (λ d, Types.language (base d) ≠ language)
                      (filteredDisplayRecords vis records))
            ∧ Forall (λ lang, key lang ≠ language) (visibleLanguages vis)) as Hhidden.
  { intros vis Hv. split.
    - intros records. apply Forall_forall.
      intros d [Hd _]%list_elem_of_filter Heq. rewrite Heq, Hv in Hd. done.
    - apply Forall_forall. intros lang [Hd _]%list_elem_of_filter Heq.
      rewrite Heq, Hv in Hd. done. }
  split_and!.
  - rewrite Hfilter. case_bool_decide; [done | congruence].
  - intros Hne. rewrite bool_decide_eq_false_2 in Hfilter by done.
    rewrite (afterToggle_stays _ _ _ _ _ _ _ _ _ _ Hfilter).
    unfold shownCards. simpl. split_and!.
    + done.
    + unfold filteredDisplayRecords. rewrite list_filter_filter.
      apply list_filter_iff. intros d. unfold flipped.
      destruct (decide (Types.language (base d) = language)) as [-> | Hd].
      * rewrite truthyAt_insert, Hshown. simpl. tauto.
      * rewrite truthyAt_insert_ne by done. tauto.
    + apply Hhidden. unfold flipped. by rewrite truthyAt_insert, Hshown.
  - intros Heq. rewrite bool_decide_eq_true_2 in Hfilter by done.
    assert (shownFilter
              (afterToggle seesFirst seesSecond goalStore recordStore inSelectedMonth
                           now today dateFilter screen language).2
            ≠ shownFilter screen) as Hne by congruence.
    destruct (afterToggle_reloads seesFirst seesSecond goalStore recordStore
                inSelectedMonth now today dateFilter screen language Hne)
      as (_ & Hrecords & _ & Hvis).
    rewrite (afterToggle_store seesFirst seesSecond) in Hvis.
    split_and!; [done | done | |].
    + intros Hcase.
      assert (truthyAt
                (languageVisibility
                   (goalState
                      (afterToggle seesFirst seesSecond goalStore recordStore
                                   inSelectedMonth now today dateFilter screen
                                   language).2)) language = false) as Hv.
      { rewrite Hvis. destruct Hcase as [-> | Hnone].
        - erewrite loadGoals_some by apply getDailyGoal_put. simpl.
          rewrite truthyAt_normalized by done.
          rewrite normalizeVisibility_lookup, bool_decide_eq_true_2 by done. simpl.
          unfold visibleOr. simpl. by apply flipped_hidden.
        - assert (languageVisibility
                    (loadGoals goalStore inSelectedMonth now today
                       {| goalInputs := goalInputs (goalState screen);
                          languageVisibility :=
                            flipped (languageVisibility (goalState screen)) language;
                          monthGoals := monthGoals (goalState screen) |})
                  = normalizeVisibility
                      (Some (flipped (languageVisibility (goalState screen)) language)))
            as Hold.
          { unfold loadGoals. simpl.
            destruct (getDailyGoal goalStore today) as [g|]; simpl in *; [| done].
            by rewrite Hnone. }
          destruct seesFirst.
          + erewrite loadGoals_some by apply getDailyGoal_put. simpl.
            rewrite truthyAt_normalized by done.
            rewrite normalizeVisibility_lookup, bool_decide_eq_true_2 by done. simpl.
            unfold visibleOr. simpl. by apply flipped_hidden.
          + rewrite Hold, truthyAt_normalized by done. by apply flipped_hidden. }
      split; [done |]. unfold shownCards. destruct (Hhidden _ Hv) as [Hc Hl].
      split; [apply Hc | apply Hl].
    + intros -> g vis Hg Hgv. rewrite Hvis.
      rewrite (loadGoals_some _ _ _ _ _ g Hg). simpl. rewrite Hgv. simpl.
      by rewrite truthyAt_normalized.
Qed.

End VisibilityFacts.

(** ** Cards *)

Section CardFacts.
Import Database History Records Actions ActionSpec MergeSpec AggregateSpec.
Context `{LocalTime}.

(** The record [pushCurrent] emits for an accumulator. *)
Lemma pushCurrent_some m cur :
  pushCurrent m (Some cur)
  = m ++ [mkDisplayRecord (base cur) (mergedSessionIds cur) (totalDuration cur)
            (startDate cur) (bool_decide (1 < length (mergedSessionIds cur))%nat)
            (spanStart cur) (spanEnd cur) (segments cur)].
Proof. done. Qed.

Section Invariant.
Variable Ok : PlaybackRecord → Prop.
Variable Q : DisplayRecord → list PlaybackRecord → Prop.
Hypothesis Q_single : ∀ r, Ok r → Q (single r) [r].
Hypothesis Q_fold : ∀ cur g r d,
  Ok r → Q cur g → shouldMerge cur d r = true → Q (foldInto cur r) (g ++ [r]).
Hypothesis Q_push : ∀ cur g b,
  Q cur g →
  Q (mkDisplayRecord (base cur) (mergedSessionIds cur) (totalDuration cur)
       (startDate cur) b (spanStart cur) (spanEnd cur) (segments cur)) g.

Lemma run_groups_with rs :
  Forall Ok rs →
  ∃ groups, Forall2 (λ d g, Emitted d g ∧ Q d g) (merged (runMerge rs)) groups ∧
    match current (runMerge rs) with
    | None => rs = [] ∧ groups = []
    | Some cur =>
        ∃ g a, rs = concat groups ++ g ++ [a]
               ∧ Constituents cur (g ++ [a]) ∧ Q cur (g ++ [a])
    end.
Proof.
  induction rs as [| r rs IH] using rev_ind; intros Hok.
  - exists []. split; [constructor | done].
  - apply Forall_app in Hok as [Hok Hr]. rewrite Forall_singleton in Hr.
    destruct (IH Hok) as (groups & Hem & Hcur).
    rewrite runMerge_snoc. unfold forEachBody.
    destruct (current (runMerge rs)) as [cur|] eqn:Ecur.
    + destruct Hcur as (g & a & -> & Hc & Hq).
      destruct (shouldMerge cur _ r) eqn:Es.
      * exists groups. split; [done |]. simpl.
        exists (g ++ [a]), r. split_and!; [by rewrite <- !app_assoc | |].
        -- by apply Constituents_foldInto.
        -- exact (Q_fold _ _ _ _ Hr Hq Es).
      * exists (groups ++ [g ++ [a]]). split.
        -- cbn [merged]. rewrite pushCurrent_some. apply Forall2_app; [done |].
           constructor; [| constructor]. split; [by split |]. by apply Q_push.
        -- simpl. exists [], r. rewrite concat_app; simpl. rewrite app_nil_r.
           split_and!; [by rewrite <- !app_assoc | apply Constituents_single |].
           by apply Q_single.
    + destruct Hcur as [-> ->]. exists []. split; [done |]. simpl.
      exists [], r. split_and!; [done | apply Constituents_single | by apply Q_single].
Qed.

(** The cards stand for groups of consecutive records that make up the
    input, and [Q] holds of each card and its group. *)
Lemma build_groups_with rs mergeConsecutive :
  Forall Ok rs →
  ∃ groups, concat groups = rs
            ∧ Forall2 (λ d g, Emitted d g ∧ Q d g)
                      (buildDisplayRecords rs mergeConsecutive) groups.
Proof.
  intros Hok. unfold buildDisplayRecords. destruct mergeConsecutive; simpl.
  - destruct (run_groups_with rs Hok) as (groups & Hem & Hcur).
    destruct (current (runMerge rs)) as [cur|].
    + destruct Hcur as (g & a & -> & Hc & Hq).
      exists (groups ++ [g ++ [a]]). split.
      * rewrite concat_app; simpl. by rewrite app_nil_r.
      * rewrite pushCurrent_some. apply Forall2_app; [done |].
        constructor; [| constructor]. split; [by split |]. by apply Q_push.
    + destruct Hcur as [-> ->]. by exists [].
  - exists ((λ r, [r]) <$> rs). split.
    + clear Hok. induction rs as [|r rs IH]; csimpl; [done | by rewrite IH].
    + induction Hok as [|r rs Hr Hok IH]; simpl; constructor; [| done].
      split; [| by apply Q_single].
      split; [apply Constituents_single | done].
Qed.

End Invariant.

(** The date a card shows is the start of the earliest of its
    sessions, which is also where its timeline begins: each card stands
    for a group of consecutive records, the groups making up the input,
    and its [startDate] is the least date of the group and equals its
    [spanStart]. *)
Theorem card_date_is_earliest_start (rs : list PlaybackRecord) (mergeConsecutive : bool) :
  ∃ groups : list (list PlaybackRecord),
    concat groups = rs
    ∧ Forall2 (λ d g, mergedSessionIds d = sessionId <$> g
                      ∧ startDate d = spanStart d
                      ∧ isEarliest (startDate d) (date <$> g))
              (buildDisplayRecords rs mergeConsecutive) groups.
Proof.
  destruct (build_groups_with (λ _, True) (λ d _, startDate d = spanStart d))
    with (rs := rs) (mergeConsecutive := mergeConsecutive)
    as (groups & Hcat & Hall).
  - done.
  - intros cur g r d _ Hq _. simpl. rewrite Hq.
    destruct (date r <? spanStart cur) eqn:E.
    + apply Z.ltb_lt in E. lia.
    + apply Z.ltb_ge in E. lia.
  - done.
  - apply Forall_forall. done.
  - exists groups. split; [done |].
    eapply Forall2_impl; [exact Hall |].
    intros d g [[(Hids & _ & _ & _ & Hmin & _) _] Hq]. simpl in Hq.
    split_and!; [done | done | by rewrite Hq].
Qed.

Lemma chars_app s t :
  String.list_ascii_of_string (s +:+ t)
  = String.list_ascii_of_string s ++ String.list_ascii_of_string t.
Proof. induction s as [| c s IH]; simpl; [done | by rewrite IH]. Qed.

(** Among the four languages, records with one key have one language:
    the keys end with the language, and none of the four names ends with
    another. *)
Lemma key_language a b :
  language a ∈ Language → language b ∈ Language →
  getVideoKey a = getVideoKey b → language a = language b.
Proof.
  intros Ha Hb Hk. apply (f_equal String.list_ascii_of_string) in Hk.
  unfold getVideoKey in Hk. rewrite !chars_app, !app_assoc in Hk.
  apply (f_equal reverse) in Hk.
  rewrite !(reverse_app _ (String.list_ascii_of_string (language _))) in Hk.
  apply (f_equal (take 7)) in Hk.
  unfold Language in Ha, Hb. rewrite !elem_of_cons, elem_of_nil in Ha, Hb.
  destruct Ha as [Ha | [Ha | [Ha | [Ha | []]]]], Hb as [Hb | [Hb | [Hb | [Hb | []]]]];
    rewrite Ha, Hb in *; try done; simpl in Hk; discriminate Hk.
Qed.

Lemma totalWhere_app (P : PlaybackRecord → Prop) `{!∀ r, Decision (P r)} l1 l2 :
  totalWhere P (l1 ++ l2) = totalWhere P l1 + totalWhere P l2.
Proof. unfold totalWhere. by rewrite filter_app, fmap_app, sumZ_app. Qed.

Lemma totalWhere_all (P : PlaybackRecord → Prop) `{!∀ r, Decision (P r)} l :
  (∀ r, r ∈ l → P r) → totalWhere P l = sumZ (duration <$> l).
Proof. intros Hall. unfold totalWhere. by rewrite filter_all. Qed.

Lemma totalWhere_none (P : PlaybackRecord → Prop) `{!∀ r, Decision (P r)} l :
  (∀ r, r ∈ l → ¬ P r) → totalWhere P l = 0.
Proof. intros Hall. unfold totalWhere. by rewrite filter_none. Qed.

(** For records of the four languages, a card never mixes
    languages: every record it stands for has the language the card
    shows.  So the statistic of a language is the sum of the total
    durations of the cards of that language. *)
Theorem cards_and_statistics_agree (rs : list PlaybackRecord) (mergeConsecutive : bool) :
  Forall (λ r, language r ∈ Language) rs →
  (∃ groups : list (list PlaybackRecord),
     concat groups = rs
     ∧ Forall2 (λ d g, mergedSessionIds d = sessionId <$> g
                       ∧ ∀ r, r ∈ g → language r = language (base d))
               (buildDisplayRecords rs mergeConsecutive) groups)
  ∧ ∀ l, l ∈ Language →
      getLanguageStats rs !! l
      = Some (JsObject.Num
                (sumZ (totalDuration
                         <$> filter (λ d, language (base d) = l)
                                    (buildDisplayRecords rs mergeConsecutive)))).
Proof.
  intros Hok.
  destruct (build_groups_with
              (λ r, language r ∈ Language)
              (λ d g, language (base d) ∈ Language
                      ∧ ∀ r, r ∈ g → language r = language (base d)))
    with (rs := rs) (mergeConsecutive := mergeConsecutive)
    as (groups & Hcat & Hall).
  - intros r Hr. split; [done |]. by intros r' ->%list_elem_of_singleton.
  - intros cur g r d Hr [Hb Hg] Hs. simpl. split; [done |].
    intros r' [Hr' | ->%list_elem_of_singleton]%elem_of_app; [by apply Hg |].
    symmetry. apply key_language; [done | done |].
    unfold shouldMerge in Hs. apply andb_true_iff in Hs as [Hs _].
    by apply bool_decide_eq_true in Hs.
  - done.
  - done.
  - split.
    + exists groups. split; [done |].
      eapply Forall2_impl; [exact Hall |].
      by intros d g [[(Hids & _) _] [_ Hq]].
    + intros l Hl. rewrite known_language_stat by done. do 2 f_equal.
      set (cards := buildDisplayRecords rs mergeConsecutive) in *. clearbody cards.
      rewrite <- Hcat. clear Hcat Hok.
      induction Hall as [| d g ds gs [[Hc _] [_ Hq]] _ IH]; [reflexivity |].
      simpl. rewrite totalWhere_app, IH, filter_cons.
      destruct (decide (language (base d) = l)) as [Hd | Hd].
      * rewrite fmap_cons. rewrite totalWhere_all
          by (intros r Hr; by rewrite (Hq r Hr)).
        destruct Hc as (_ & -> & _). done.
      * rewrite totalWhere_none; [done |].
        intros r Hr. by rewrite (Hq r Hr).
Qed.

Lemma percent_nonneg part whole :
  0 ≤ part → 0 < whole → QArith_base.Qle (QArith_base.inject_Z 0) (percent part whole).
Proof.
  intros Hp Hw. destruct whole as [| w | w]; try lia.
  unfold percent, QArith_base.Qle, QArith_base.Qmult, QArith_base.Qdiv,
    QArith_base.Qinv, QArith_base.inject_Z. simpl. lia.
Qed.

Lemma percent_sum p1 p2 whole :
  0 < whole → p1 + p2 ≤ whole →
  QArith_base.Qle (QArith_base.Qplus (percent p1 whole) (percent p2 whole))
                  (QArith_base.inject_Z 100).
Proof.
  intros Hw Hp. destruct whole as [| w | w]; try lia.
  unfold percent, QArith_base.Qle, QArith_base.Qplus, QArith_base.Qmult,
    QArith_base.Qdiv, QArith_base.Qinv, QArith_base.inject_Z. simpl.
  rewrite !Pos.mul_1_r. nia.
Qed.

Lemma shownWidth_min record segment :
  QArith_base.Qle (QArith_base.inject_Z 1) (shownWidth record segment).
Proof.
  unfold shownWidth.
  destruct (QArith_base.Qle_bool _ _) eqn:E.
  - apply QArith_base.Qle_refl.
  - apply QArith_base.Qlt_le_weak, QArith_base.Qnot_le_lt.
    intros Hle. apply QArith_base.Qle_bool_iff in Hle. congruence.
Qed.

Lemma oldest_first_total (a b : TimelineSegment) :
  segStart a - segStart b ≤ 0 ∨ segStart b - segStart a ≤ 0.
Proof. lia. Qed.

Lemma oldest_first_trans (a b c : TimelineSegment) :
  segStart a - segStart b ≤ 0 → segStart b - segStart c ≤ 0 →
  segStart a - segStart c ≤ 0.
Proof. lia. Qed.

(** The timeline of a card, for records whose durations are not
    negative: the segments drawn are the card's segments ordered by
    their start, and each lies within the bar: its left edge and its
    width are not negative, left edge plus width is at most 100 percent,
    and it is drawn at least 1 percent wide. *)
Theorem timeline_segments_lie_within_the_bar (rs : list PlaybackRecord)
    (mergeConsecutive : bool) :
  Forall (λ r, 0 ≤ duration r) rs →
  Forall (λ d,
            orderedSegments d ≡ₚ segments d
            ∧ StronglySorted (λ a b, segStart a ≤ segStart b) (orderedSegments d)
            ∧ ∀ s, s ∈ orderedSegments d →
                QArith_base.Qle (QArith_base.inject_Z 0) (segmentLeft d s)
                ∧ QArith_base.Qle (QArith_base.inject_Z 0) (segmentWidth d s)
                ∧ QArith_base.Qle
                    (QArith_base.Qplus (segmentLeft d s) (segmentWidth d s))
                    (QArith_base.inject_Z 100)
                ∧ QArith_base.Qle (QArith_base.inject_Z 1) (shownWidth d s))
         (buildDisplayRecords rs mergeConsecutive).
Proof.
  intros Hok.
  destruct (build_groups_with (λ r, 0 ≤ duration r) (λ _ g, Forall (λ r, 0 ≤ duration r) g))
    with (rs := rs) (mergeConsecutive := mergeConsecutive)
    as (groups & Hcat & Hall).
  - intros r Hr. by apply Forall_singleton.
  - intros cur g r d Hr Hg _. apply Forall_app. split; [done | by apply Forall_singleton].
  - done.
  - done.
  - apply Forall_forall. intros d Hd.
    apply list_elem_of_lookup in Hd as [i Hi].
    destruct (Forall2_lookup_l _ _ _ _ _ Hall Hi) as (g & _ & [[Hc _] Hg]).
    destruct Hc as (_ & _ & Hseg & _ & [_ Hmin] & [_ Hmax]).
    split_and!.
    + apply sort_perm.
    + eapply StronglySorted_weaken;
        [| apply (sort_sorted _ oldest_first_total oldest_first_trans)].
      intros a b. simpl. lia.
    + intros s Hs. unfold orderedSegments in Hs. rewrite sort_perm, Hseg in Hs.
      apply list_elem_of_fmap in Hs as (r & -> & Hr).
      rewrite Forall_forall in Hg. pose proof (Hg r Hr) as Hdur.
      assert (spanStart d ≤ date r) as Hlo
        by (apply Hmin, list_elem_of_fmap; by exists r).
      assert (date r + duration r * 1000 ≤ spanEnd d) as Hhi
        by (apply Hmax, list_elem_of_fmap; by exists r).
      unfold segmentLeft, segmentWidth, spanDuration. simpl.
      split_and!.
      * apply percent_nonneg; lia.
      * apply percent_nonneg; lia.
      * apply percent_sum; lia.
      * apply shownWidth_min.
Qed.

End CardFacts.

(** ** Runs *)

Section RunsFacts.
Import GroupSpec.
Context {A : Type} (R : A → A → bool).

Lemma runs_head a l : ∃ h hs, runs R (a :: l) = (a :: h) :: hs.
Proof.
  simpl. destruct (runs R l) as [| [| b g] gs]; eauto.
  destruct (R a b); eauto.
Qed.

Lemma runs_cons a b l h hs :
  runs R (b :: l) = (b :: h) :: hs →
  runs R (a :: b :: l)
  = if R a b then (a :: b :: h) :: hs else [a] :: (b :: h) :: hs.
Proof.
  intros Hb.
  change (runs R (a :: b :: l)) with
    (match runs R (b :: l) with
     | (b :: g) :: gs => if R a b then (a :: b :: g) :: gs else [a] :: (b :: g) :: gs
     | _ => [[a]]
     end).
  by rewrite Hb.
Qed.

Lemma snocRun_cons b g g' G :
  snocRun R b (g :: g' :: G) = g :: snocRun R b (g' :: G).
Proof. done. Qed.

Lemma snocRun_single b g a :
  last g = Some a → snocRun R b [g] = if R a b then [g ++ [b]] else [g; [b]].
Proof. intros Ha. cbn [snocRun]. by rewrite Ha. Qed.

Lemma snocRun_app b M g : snocRun R b (M ++ [g]) = M ++ snocRun R b [g].
Proof.
  induction M as [| m M IH]; [done |].
  destruct M as [| m' M]; [done |].
  change ((m :: m' :: M) ++ [g]) with (m :: m' :: (M ++ [g])).
  rewrite snocRun_cons. change (m' :: M ++ [g]) with ((m' :: M) ++ [g]).
  by rewrite IH.
Qed.

Lemma runs_snoc l b : runs R (l ++ [b]) = snocRun R b (runs R l).
Proof.
  induction l as [| x l IH]; [done |].
  destruct l as [| y l].
  - simpl. by destruct (R x b).
  - destruct (runs_head y l) as (h & hs & Hy).
    destruct (runs_head y (l ++ [b])) as (h' & hs' & Hy').
    change ((x :: y :: l) ++ [b]) with (x :: y :: (l ++ [b])).
    rewrite (runs_cons x y (l ++ [b]) h' hs' Hy'), (runs_cons x y l h hs Hy).
    change (y :: l ++ [b]) with ((y :: l) ++ [b]) in Hy'.
    rewrite IH, Hy in Hy'.
    destruct hs as [| g hs].
    + destruct (last (y :: h)) as [a|] eqn:Ea; [| by apply last_None in Ea].
      assert (last (x :: y :: h) = Some a) as Ea' by done.
      rewrite (snocRun_single _ _ _ Ea) in Hy'.
      destruct (R x y).
      * rewrite (snocRun_single _ _ _ Ea').
        destruct (R a b); by injection Hy' as <- <-.
      * rewrite snocRun_cons, (snocRun_single _ _ _ Ea).
        destruct (R a b); by injection Hy' as <- <-.
    + rewrite snocRun_cons in Hy'. injection Hy' as <- <-.
      by destruct (R x y).
Qed.

Lemma mirror_cons (g : list A) G : mirror (g :: G) = mirror G ++ [reverse g].
Proof. unfold mirror. by rewrite fmap_cons, reverse_cons. Qed.

(** Read backwards, a list has the runs of the list, read backwards, when
    the relation is symmetric. *)
Lemma runs_reverse l :
  (∀ a b, R a b = R b a) → runs R (reverse l) = mirror (runs R l).
Proof.
  intros Hsym. induction l as [| x l IH]; [done |].
  rewrite reverse_cons, runs_snoc, IH.
  destruct l as [| y l]; [done |].
  destruct (runs_head y l) as (h & hs & Hy).
  rewrite (runs_cons x y l h hs Hy), Hy, mirror_cons, snocRun_app.
  rewrite reverse_cons, (snocRun_single _ _ y) by apply last_snoc.
  rewrite (Hsym y x). destruct (R x y).
  - by rewrite mirror_cons, !reverse_cons.
  - by rewrite !mirror_cons, reverse_cons, <- app_assoc.
Qed.

End RunsFacts.

(** ** Cards as runs of the list *)

Section GroupFacts.
Import History MergeSpec GroupSpec.
Context `{LocalTime}.

Lemma shouldMerge_joins cur a r :
  getVideoKey (base cur) = getVideoKey a →
  shouldMerge cur (Some (date a)) r = joins a r.
Proof. unfold shouldMerge, joins. by intros ->. Qed.

Lemma joins_sym a b : joins a b = joins b a.
Proof.
  unfold joins, crossesDay, gapExceeds2, gapHours.
  rewrite (Z.eqb_sym (getFullYear (date a))), (Z.eqb_sym (getMonth (date a))),
    (Z.eqb_sym (getDate (date a))).
  replace (Z.abs (date a - date b)) with (Z.abs (date b - date a)) by lia.
  f_equal. apply bool_decide_ext. split; congruence.
Qed.

(** The pass from a state whose accumulator stands for a group that ends
    with [a]: the rest of the list continues that group as the runs of
    [a :: rs] say. *)
Lemma merge_from rs : ∀ st G0 g0 a cur h hs,
  Forall channelSafe rs →
  current st = Some cur → lastMergedDate st = Some (date a) →
  getVideoKey (base cur) = getVideoKey a →
  Forall2 Emitted (merged st) G0 → Constituents cur (g0 ++ [a]) →
  runs joins (a :: rs) = (a :: h) :: hs →
  Forall2 Emitted
    (pushCurrent (merged (fold_left forEachBody rs st))
                 (current (fold_left forEachBody rs st)))
    (G0 ++ (g0 ++ a :: h) :: hs).
Proof.
  induction rs as [| r rs IH]; intros st G0 g0 a cur h hs Hsafe Hcur Hlast Hkey Hem Hc Hruns.
  - simpl in *. injection Hruns as <- <-. rewrite Hcur.
    by apply Emitted_pushCurrent.
  - apply Forall_cons in Hsafe as [Hr Hsafe].
    destruct (runs_head joins r rs) as (h' & hs' & Hr').
    rewrite (runs_cons joins a r rs h' hs' Hr') in Hruns.
    cbn [fold_left]. unfold forEachBody at 2 4. rewrite Hcur, Hlast.
    rewrite (shouldMerge_joins cur a r Hkey).
    destruct (joins a r) eqn:Ej.
    + injection Hruns as <- <-.
      assert (getVideoKey a = getVideoKey r) as Hk.
      { unfold joins in Ej. apply andb_true_iff in Ej as [Ej _].
        by apply bool_decide_eq_true in Ej. }
      replace (g0 ++ a :: r :: h') with ((g0 ++ [a]) ++ r :: h')
        by (by rewrite <- app_assoc).
      apply (IH _ G0 (g0 ++ [a]) r (foldInto cur r)); try done.
      * rewrite foldInto_key by congruence. congruence.
      * by apply Constituents_foldInto.
    + injection Hruns as <- <-.
      replace (G0 ++ (g0 ++ [a]) :: (r :: h') :: hs')
        with ((G0 ++ [g0 ++ [a]]) ++ ([] ++ r :: h') :: hs')
        by (by rewrite <- app_assoc).
      apply (IH _ (G0 ++ [g0 ++ [a]]) [] r (single r)); try done.
      * simpl. by apply Emitted_pushCurrent.
      * apply Constituents_single.
Qed.

Lemma cards_runs rs :
  Forall channelSafe rs →
  Forall2 Emitted (buildDisplayRecords rs true) (runs joins rs).
Proof.
  intros Hsafe. unfold buildDisplayRecords, runMerge. cbn [negb].
  destruct rs as [| a rs]; [constructor |].
  apply Forall_cons in Hsafe as [_ Hsafe].
  destruct (runs_head joins a rs) as (h & hs & Ha). rewrite Ha.
  cbn [fold_left].
  apply (merge_from rs _ [] [] a (single a) h hs); try done.
  apply Constituents_single.
Qed.

(** With merging on, and no channel name that begins with a colon,
    the cards are the runs of the list: the maximal stretches of
    neighbours that have the same merge key and are not on different
    calendar days more than two hours apart.  Each card holds the session
    ids, the summed duration and the segments of its run. *)
Theorem cards_are_the_runs_of_the_list (rs : list PlaybackRecord) :
  Forall channelSafe rs →
  Forall2 (λ d g, mergedSessionIds d = sessionId <$> g
                  ∧ totalDuration d = sumZ (duration <$> g)
                  ∧ segments d = segmentOf <$> g)
          (buildDisplayRecords rs true) (runs joins rs).
Proof.
  intros Hsafe. eapply Forall2_impl; [by apply cards_runs |].
  by intros d g [(? & ? & ? & _) _].
Qed.

Lemma Forall2_share {X Y Z} (P : X → Z → Prop) (Q : Y → Z → Prop) xs ys zs :
  Forall2 P xs zs → Forall2 Q ys zs → Forall2 (λ x y, ∃ z, P x z ∧ Q y z) xs ys.
Proof.
  intros HP. revert ys. induction HP as [| x z xs zs Hx _ IH]; intros ys HQ.
  - apply Forall2_nil_inv_r in HQ as ->. constructor.
  - apply Forall2_cons_inv_r in HQ as (y & ys' & Hy & HQ & ->).
    constructor; [by exists z | by apply IH].
Qed.

Lemma sumZ_reverse l : sumZ (reverse l) = sumZ l.
Proof.
  induction l as [| x l IH]; [done |].
  rewrite reverse_cons, sumZ_app, IH. unfold sumZ. simpl. lia.
Qed.

(** With merging on, and no channel name that begins with a colon,
    the order of the list does not matter to the cards: the list read
    backwards gives the same cards in the opposite order, each with the
    same session ids (in the opposite order), the same total duration and
    the same span. *)
Theorem cards_of_the_reversed_list (rs : list PlaybackRecord) :
  Forall channelSafe rs →
  Forall2 (λ d d', mergedSessionIds d' = reverse (mergedSessionIds d)
                   ∧ totalDuration d' = totalDuration d
                   ∧ spanStart d' = spanStart d
                   ∧ spanEnd d' = spanEnd d
                   ∧ isMerged d' = isMerged d)
          (reverse (buildDisplayRecords rs true))
          (buildDisplayRecords (reverse rs) true).
Proof.
  intros Hsafe.
  pose proof (cards_runs rs Hsafe) as H1.
  pose proof (cards_runs (reverse rs) (proj2 (Forall_reverse _ _) Hsafe)) as H2.
  rewrite (runs_reverse joins rs joins_sym) in H2. unfold mirror in H2.
  apply Forall2_reverse in H1.
  rewrite <- fmap_reverse, Forall2_fmap_r in H2.
  eapply Forall2_impl; [exact (Forall2_share _ _ _ _ _ H1 H2) |].
  intros d d' (g & [Hd Hm] & [Hd' Hm']). simpl in Hd'.
  destruct Hd as (Hids & Htot & _ & _ & [Hin Hmin] & [Hin2 Hmax]).
  destruct Hd' as (Hids' & Htot' & _ & _ & [Hin' Hmin'] & [Hin2' Hmax']).
  rewrite fmap_reverse in Hids'. rewrite fmap_reverse, sumZ_reverse in Htot'.
  rewrite fmap_reverse, elem_of_reverse in Hin'.
  rewrite fmap_reverse, elem_of_reverse in Hin2'.
  setoid_rewrite fmap_reverse in Hmin'. setoid_rewrite elem_of_reverse in Hmin'.
  setoid_rewrite fmap_reverse in Hmax'. setoid_rewrite elem_of_reverse in Hmax'.
  split_and!.
  - by rewrite Hids', Hids.
  - by rewrite Htot', Htot.
  - specialize (Hmin _ Hin'). specialize (Hmin' _ Hin). lia.
  - specialize (Hmax _ Hin2'). specialize (Hmax' _ Hin2). lia.
  - by rewrite Hm, Hm', Hids', Hids, length_reverse.
Qed.

End GroupFacts.

(** ** Export and the calendar grid *)

Section ExportFacts.
Import History Records Actions JsLocalDate DataExport AggregateSpec.
Context `{LocalDates}.

(** A file written by [exportData] is accepted by [importData]: the
    import hands every exported record to [saveRecord], in the order of
    the list, and succeeds.  The exported records are those the list
    shows, that is, the stored records that pass the filters; the goals
    of the file are not imported. *)
Theorem exported_file_imports_back (toISOString : Z → string) (store : RecordStore)
    (languageFilter dateFilter : string) (now : Z) (goals : list json) :
  let records := loadRecords store languageFilter dateFilter now in
  importData (Some (exportData toISOString records goals now))
  = (recordJson toISOString <$> records, Imported).
Proof.
  simpl. unfold importData, exportData. simpl.
  rewrite saveAll_storable; [done |].
  apply Forall_forall. intros r (r' & -> & _)%list_elem_of_fmap.
  by exists (sessionId r').
Qed.

End ExportFacts.

Section GridFacts.
Import History Calendar CalendarGrid JsLocalDate JsObject AggregateSpec.
Context `{LocalDates}.

(** The calendar and the aggregation agree on the key of a day.
    For every day [i] of the month shown, the grid has, after the
    placeholders that align the first weekday, a cell for that day whose
    total for a language is the sum over the records that
    [updateDailyDurations] filed under the cell's key; and a record whose
    local year, month and day are those of the cell is filed under that
    key. *)
Theorem calendar_cell_shows_the_day_total (rs : list PlaybackRecord)
    (currentMonth now i : Z) (lang : string) :
  let year := getFullYear currentMonth in
  let month := getMonth currentMonth in
  let key := pretty year +:+ "-" +:+ padStart2 (pretty (month + 1))
             +:+ "-" +:+ padStart2 (pretty i) in
  1 ≤ i ≤ getDate (makeDate year (month + 1) 0) →
  lang ∉ inheritedNames →
  (∃ cell,
     generateCalendarDays currentMonth now (updateDailyDurations rs)
       !! (Z.to_nat (getDay (makeDate year month 1)) + Z.to_nat (i - 1))%nat
     = Some cell
     ∧ isPlaceholder cell = false
     ∧ cellDateStr cell = Some key
     ∧ numberOr0 (cellDuration cell ≫= (.!! lang))
       = totalWhere (λ r, dateStr (date r) = key ∧ language r = lang) rs)
  ∧ ∀ r, getFullYear (date r) = year → getMonth (date r) = month →
         getDate (date r) = i → dateStr (date r) = key.
Proof.
  intros year month key Hi Hlang. subst year month. split.
  - eexists. split_and!.
    + unfold generateCalendarDays. cbv zeta.
      rewrite lookup_app_r by (rewrite length_replicate; lia).
      rewrite length_replicate.
      match goal with |- context [(?a + ?b - ?a)%nat] =>
        replace (a + b - a)%nat with b by lia end.
      rewrite list_lookup_fmap, lookup_seqZ_lt by lia.
      replace (1 + Z.of_nat (Z.to_nat (i - 1))) with i by lia.
      simpl. reflexivity.
    + done.
    + done.
    + simpl.
      assert (AllKept (∅ : gmap string (gmap string total))) as Hempty
        by (intros day d Hd; by rewrite lookup_empty in Hd).
      destruct (durations_fold rs ∅ Hempty) as [_ Hsum].
      specialize (Hsum key lang Hlang). unfold dayTotal in Hsum.
      rewrite lookup_empty in Hsum. simpl in Hsum.
      unfold updateDailyDurations. fold key. rewrite Hsum. lia.
  - intros r Hy Hm Hd. unfold dateStr, key. by rewrite Hy, Hm, Hd.
Qed.

End GridFacts.

(** ** Date filters on a host in UTC *)

Section UtcFacts.
Import History Records Actions JsLocalDate Gregorian.

Lemma allFrom_spec fuel : ∀ n p, allFrom fuel n p = true →
  ∀ k, n ≤ k < n + Z.of_nat fuel → p k = true.
Proof.
  induction fuel as [| fuel IH]; intros n p Hall k Hk; [lia |].
  simpl in Hall. apply andb_true_iff in Hall as [Hn Hall].
  destruct (decide (k = n)) as [-> | Hne]; [done |].
  apply (IH (n + 1) p Hall). lia.
Qed.

Lemma cycle_checked : allFrom (Z.to_nat 146097) 0 dayOk = true.
Proof. by vm_compute. Qed.

Lemma cycle_day doe :
  0 ≤ doe < 146097 →
  let yoe := (doe - doe / 1460 + doe / 36524 - doe / 146096) / 365 in
  let doy := doe - (365 * yoe + yoe / 4 - yoe / 100) in
  0 ≤ yoe < 400 ∧ 0 ≤ doy ≤ 365
  ∧ doe < 365 * (yoe + 1) + (yoe + 1) / 4 - (yoe + 1) / 100 + (yoe + 1) / 400.
Proof.
  intros Hdoe. pose proof (allFrom_spec _ _ _ cycle_checked doe) as Hok.
  unfold dayOk in Hok. simpl. lia.
Qed.

(** The date of a day number is the date of that day. *)
Lemma days_civil_days n :
  daysFromCivil (civilFromDays n).1.1 (civilFromDays n).1.2 (civilFromDays n).2 = n.
Proof.
  unfold civilFromDays.
  set (z := n + 719468). set (era := z / 146097). set (doe := z - era * 146097).
  assert (0 ≤ doe < 146097) as Hdoe by (unfold doe, era; Z.to_euclidean_division_equations; lia).
  pose proof (cycle_day doe Hdoe) as (Hc1 & Hc2 & _). simpl in Hc1, Hc2.
  set (yoe := (doe - doe / 1460 + doe / 36524 - doe / 146096) / 365) in *.
  set (doy := doe - (365 * yoe + yoe / 4 - yoe / 100)) in *.
  set (mp := (5 * doy + 2) / 153).
  assert (0 ≤ mp < 12) as Hmp by (unfold mp; Z.to_euclidean_division_equations; lia).
  simpl. unfold daysFromCivil.
  destruct (mp <? 10) eqn:E.
  - apply Z.ltb_lt in E.
    replace (mp + 3 <=? 2) with false by (symmetry; apply Z.leb_gt; lia).
    replace ((yoe + era * 400) / 400) with era
      by (Z.to_euclidean_division_equations; lia).
    replace ((mp + 3 + 9) mod 12) with mp
      by (Z.to_euclidean_division_equations; lia).
    replace (yoe + era * 400 - era * 400) with yoe by lia.
    fold doy. unfold doe, z. lia.
  - apply Z.ltb_ge in E.
    replace (mp - 9 <=? 2) with true by (symmetry; apply Z.leb_le; lia).
    replace ((yoe + era * 400 + 1 - 1) / 400) with era
      by (Z.to_euclidean_division_equations; lia).
    replace ((mp - 9 + 9) mod 12) with mp
      by (Z.to_euclidean_division_equations; lia).
    replace (yoe + era * 400 + 1 - 1 - era * 400) with yoe by lia.
    fold doy. unfold doe, z. lia.
Qed.

Lemma civil_parts n :
  0 ≤ n →
  100 ≤ (civilFromDays n).1.1
  ∧ 1 ≤ (civilFromDays n).1.2 ≤ 12
  ∧ 1 ≤ (civilFromDays n).2.
Proof.
  intros Hn. unfold civilFromDays.
  set (z := n + 719468). set (era := z / 146097). set (doe := z - era * 146097).
  assert (4 ≤ era) as Hera
    by (unfold era, z; Z.to_euclidean_division_equations; lia).
  assert (0 ≤ doe < 146097) as Hdoe
    by (unfold doe, era; Z.to_euclidean_division_equations; lia).
  pose proof (cycle_day doe Hdoe) as (Hc1 & Hc2 & _). simpl in Hc1, Hc2.
  set (yoe := (doe - doe / 1460 + doe / 36524 - doe / 146096) / 365) in *.
  set (doy := doe - (365 * yoe + yoe / 4 - yoe / 100)) in *.
  clearbody yoe doy. clearbody era.
  set (mp := (5 * doy + 2) / 153).
  assert (0 ≤ mp < 12) as Hmp
    by (unfold mp; Z.to_euclidean_division_equations; lia).
  assert ((153 * mp + 2) / 5 ≤ doy) as Hday
    by (unfold mp; Z.to_euclidean_division_equations; lia).
  clearbody mp. simpl.
  destruct (mp <? 10) eqn:E.
  - apply Z.ltb_lt in E.
    replace (mp + 3 <=? 2) with false by (symmetry; apply Z.leb_gt; lia).
    lia.
  - apply Z.ltb_ge in E.
    replace (mp - 9 <=? 2) with true by (symmetry; apply Z.leb_le; lia).
    lia.
Qed.

Lemma daysFromCivil_day y m d k : daysFromCivil y m (d - k) = daysFromCivil y m d - k.
Proof. unfold daysFromCivil. lia. Qed.

Lemma msPerDay_pos : 0 < msPerDay.
Proof. by vm_compute. Qed.

Lemma dateOnly_days y m d : dateOnly y m d = daysFromCivil y m d * msPerDay.
Proof. unfold dateOnly, utc. lia. Qed.

Lemma utc_parts t :
  @getFullYear utcTime t = (civilFromDays (isoDay t)).1.1
  ∧ @getMonth utcTime t = (civilFromDays (isoDay t)).1.2 - 1
  ∧ @getDate utcTime t = (civilFromDays (isoDay t)).2
  ∧ @getDay utcTime utcDates t = (isoDay t + 4) mod 7.
Proof. done. Qed.

Lemma utc_makeDate year monthIndex day :
  @makeDate utcTime utcDates year monthIndex day
  = dateOnly ((if (0 <=? year) && (year <=? 99) then 1900 + year else year)
              + monthIndex / 12)
             (monthIndex mod 12 + 1) day.
Proof. done. Qed.

(** The local midnight of a day of the month of [q], on a host in UTC. *)
Lemma utc_makeDate_day q day :
  0 ≤ q →
  @makeDate utcTime utcDates (civilFromDays q).1.1 ((civilFromDays q).1.2 - 1) day
  = (q - ((civilFromDays q).2 - day)) * msPerDay.
Proof.
  intros Hq. pose proof (civil_parts q Hq) as (Hy & Hm & Hd).
  pose proof (days_civil_days q) as Hround.
  rewrite utc_makeDate, dateOnly_days.
  set (c := civilFromDays q) in *. clearbody c.
  replace ((0 <=? c.1.1) && (c.1.1 <=? 99)) with false
    by (symmetry; apply andb_false_iff; right; apply Z.leb_gt; lia).
  replace ((c.1.2 - 1) / 12) with 0 by (Z.to_euclidean_division_equations; lia).
  replace ((c.1.2 - 1) mod 12 + 1) with (c.1.2)
    by (Z.to_euclidean_division_equations; lia).
  replace (c.1.1 + 0) with (c.1.1) by lia.
  replace day with (c.2 - (c.2 - day)) at 1 by lia.
  by rewrite daysFromCivil_day, Hround.
Qed.

Lemma isoDay_midnight q : isoDay (q * msPerDay) = q.
Proof. unfold isoDay. apply Z.div_mul. pose proof msPerDay_pos. lia. Qed.

(** On a host in UTC, after 1970: the local midnight of today, of the
    Sunday that began the week, and of the first of the month. *)
Lemma utc_thresholds now :
  0 ≤ now →
  let today := @makeDate utcTime utcDates (getFullYear now) (getMonth now) (getDate now) in
  today = isoDay now * msPerDay
  ∧ @makeDate utcTime utcDates (getFullYear today) (getMonth today)
              (getDate today - getDay today)
    = (isoDay now - getDay now) * msPerDay
  ∧ @makeDate utcTime utcDates (getFullYear today) (getMonth today) 1
    = (isoDay now - (getDate now - 1)) * msPerDay
  ∧ 0 ≤ getDay now ∧ 1 ≤ getDate now.
Proof.
  intros Hnow. pose proof msPerDay_pos as Hpos.
  assert (0 ≤ isoDay now) as Hq by (apply Z.div_pos; lia).
  pose proof (civil_parts _ Hq) as (_ & _ & Hd).
  destruct (utc_parts now) as (Hy & Hm & Hdate & Hday).
  cbv zeta. rewrite Hy, Hm, Hdate, Hday.
  rewrite (utc_makeDate_day _ _ Hq).
  replace (isoDay now - ((civilFromDays (isoDay now)).2 - (civilFromDays (isoDay now)).2))
    with (isoDay now) by lia.
  destruct (utc_parts (isoDay now * msPerDay)) as (Hy' & Hm' & Hdate' & Hday').
  rewrite isoDay_midnight in Hy', Hm', Hdate', Hday'.
  rewrite Hy', Hm', Hdate', Hday', !(utc_makeDate_day _ _ Hq).
  split_and!; [done | f_equal; lia | done | | done].
  Z.to_euclidean_division_equations; lia.
Qed.


End UtcFacts.

(** ** Month navigation of the calendar *)

Section MonthFacts.
Import History Records Actions JsLocalDate Gregorian CalendarGrid.

(** The first day of a year of the cycle. *)
Lemma year_start_mono a b :
  a ≤ b → 365 * a + a / 4 - a / 100 ≤ 365 * b + b / 4 - b / 100.
Proof. intros Hab. Z.to_euclidean_division_equations; lia. Qed.

(** The year of the cycle of a day that lies in it. *)
Lemma year_of_day yoe doy :
  0 ≤ yoe < 400 → 0 ≤ doy ≤ 364 →
  let doe := 365 * yoe + yoe / 4 - yoe / 100 + doy in
  (doe - doe / 1460 + doe / 36524 - doe / 146096) / 365 = yoe.
Proof.
  intros Hy Hd doe.
  assert (0 ≤ doe < 146097) as Hdoe
    by (unfold doe; Z.to_euclidean_division_equations; lia).
  pose proof (cycle_day doe Hdoe) as (Hc1 & Hc2 & Hc3). simpl in Hc1, Hc2, Hc3.
  set (y2 := (doe - doe / 1460 + doe / 36524 - doe / 146096) / 365) in *.
  clearbody y2.
  destruct (Z.lt_trichotomy y2 yoe) as [Hlt | [Heq | Hgt]]; [| done |].
  - exfalso. pose proof (year_start_mono (y2 + 1) yoe ltac:(lia)) as Hm.
    assert ((y2 + 1) / 400 = 0) as H400
      by (Z.to_euclidean_division_equations; lia).
    unfold doe in *. lia.
  - exfalso. pose proof (year_start_mono (yoe + 1) y2 ltac:(lia)) as Hm.
    assert (365 * yoe + yoe / 4 - yoe / 100 + 365
            ≤ 365 * (yoe + 1) + (yoe + 1) / 4 - (yoe + 1) / 100) as Hnext
      by (Z.to_euclidean_division_equations; lia).
    unfold doe in *. lia.
Qed.

(** The date of the day number of a date, for a day of the month that
    every month has. *)
Lemma civil_days_civil y m d :
  1 ≤ m ≤ 12 → 1 ≤ d ≤ 28 →
  civilFromDays (daysFromCivil y m d) = (y, m, d).
Proof.
  intros Hm Hd. unfold daysFromCivil.
  set (y' := if m <=? 2 then y - 1 else y).
  set (era := y' / 400). set (yoe := y' - era * 400).
  set (mp := (m + 9) mod 12). set (doy := (153 * mp + 2) / 5 + d - 1).
  assert (0 ≤ yoe < 400) as Hyoe
    by (unfold yoe, era; Z.to_euclidean_division_equations; lia).
  assert (0 ≤ mp < 12) as Hmp by (unfold mp; Z.to_euclidean_division_equations; lia).
  assert (0 ≤ doy ≤ 364) as Hdoy
    by (unfold doy; Z.to_euclidean_division_equations; lia).
  assert ((5 * doy + 2) / 153 = mp) as Hmp'
    by (unfold doy; Z.to_euclidean_division_equations; lia).
  pose proof (year_of_day yoe doy Hyoe Hdoy) as Hyear. simpl in Hyear.
  set (doe := yoe * 365 + yoe / 4 - yoe / 100 + doy).
  assert (doe = 365 * yoe + yoe / 4 - yoe / 100 + doy) as Edoe by (unfold doe; lia).
  rewrite <- Edoe in Hyear.
  assert (0 ≤ doe < 146097) as Hdoe
    by (rewrite Edoe; Z.to_euclidean_division_equations; lia).
  unfold civilFromDays.
  replace (era * 146097 + doe - 719468 + 719468) with (era * 146097 + doe) by lia.
  replace ((era * 146097 + doe) / 146097) with era
    by (Z.to_euclidean_division_equations; lia).
  replace (era * 146097 + doe - era * 146097) with doe by lia.
  rewrite Hyear.
  replace (doe - (365 * yoe + yoe / 4 - yoe / 100)) with doy by lia.
  rewrite Hmp'.
  assert (m = if mp <? 10 then mp + 3 else mp - 9) as Em.
  { unfold mp. destruct (_ <? 10) eqn:E;
      [apply Z.ltb_lt in E | apply Z.ltb_ge in E];
      Z.to_euclidean_division_equations; lia. }
  rewrite <- Em. unfold doy.
  replace ((153 * mp + 2) / 5 + d - 1 - (153 * mp + 2) / 5 + 1) with d by lia.
  assert ((if m <=? 2 then yoe + era * 400 + 1 else yoe + era * 400) = y) as ->
    by (unfold yoe, y'; destruct (m <=? 2); lia).
  done.
Qed.

Lemma civil_month_day n :
  1 ≤ (civilFromDays n).1.2 ≤ 12 ∧ 1 ≤ (civilFromDays n).2.
Proof.
  unfold civilFromDays.
  set (z := n + 719468). set (era := z / 146097). set (doe := z - era * 146097).
  assert (0 ≤ doe < 146097) as Hdoe
    by (unfold doe, era; Z.to_euclidean_division_equations; lia).
  pose proof (cycle_day doe Hdoe) as (_ & Hc & _). simpl in Hc.
  set (yoe := (doe - doe / 1460 + doe / 36524 - doe / 146096) / 365) in *.
  set (doy := doe - (365 * yoe + yoe / 4 - yoe / 100)) in *.
  clearbody yoe doy. clearbody era.
  set (mp := (5 * doy + 2) / 153).
  assert (0 ≤ mp < 12) as Hmp
    by (unfold mp; Z.to_euclidean_division_equations; lia).
  assert ((153 * mp + 2) / 5 ≤ doy) as Hday
    by (unfold mp; Z.to_euclidean_division_equations; lia).
  clearbody mp. simpl. destruct (mp <? 10) eqn:E.
  - apply Z.ltb_lt in E. lia.
  - apply Z.ltb_ge in E. lia.
Qed.

Lemma utc_setMonth t monthIndex :
  @setMonth utcTime utcDates t monthIndex
  = daysFromCivil ((civilFromDays (isoDay t)).1.1 + monthIndex / 12)
                  (monthIndex mod 12 + 1) (civilFromDays (isoDay t)).2
    * msPerDay + t mod msPerDay.
Proof. done. Qed.

Lemma isoDay_within q r : 0 ≤ r < msPerDay → isoDay (q * msPerDay + r) = q.
Proof.
  intros Hr. unfold isoDay. rewrite Z.add_comm, Z.div_add by lia.
  rewrite Z.div_small by done. lia.
Qed.

(** The parts of an instant after [setMonth], on a host in UTC, for a day
    of the month that every month has. *)
Lemma utc_setMonth_parts t monthIndex :
  @getDate utcTime t ≤ 28 →
  let t' := @setMonth utcTime utcDates t monthIndex in
  @getFullYear utcTime t' = @getFullYear utcTime t + monthIndex / 12
  ∧ @getMonth utcTime t' = monthIndex mod 12
  ∧ @getDate utcTime t' = @getDate utcTime t
  ∧ t' mod msPerDay = t mod msPerDay.
Proof.
  intros Hd. pose proof msPerDay_pos as Hpos.
  destruct (utc_parts t) as (Hy & Hm & Hdate & _).
  rewrite Hdate in Hd.
  destruct (civil_month_day (isoDay t)) as [_ Hd1].
  assert (0 ≤ t mod msPerDay < msPerDay) as Hr by (apply Z.mod_pos_bound; lia).
  cbv zeta. rewrite utc_setMonth.
  destruct (utc_parts
              (daysFromCivil ((civilFromDays (isoDay t)).1.1 + monthIndex / 12)
                             (monthIndex mod 12 + 1) (civilFromDays (isoDay t)).2
               * msPerDay + t mod msPerDay)) as (Hy' & Hm' & Hdate' & _).
  rewrite (isoDay_within _ _ Hr) in Hy', Hm', Hdate'.
  rewrite civil_days_civil in Hy', Hm', Hdate'
    by (try (Z.to_euclidean_division_equations; lia); lia).
  cbn [fst snd] in Hy', Hm', Hdate'.
  rewrite Hy', Hm', Hdate', Hy, Hdate. split_and!; try done; try lia.
  rewrite Z.add_comm, Z.mod_add by lia. by rewrite Z.mod_mod by lia.
Qed.

(** Month navigation on a host whose local time is UTC.  When the day of
    the month shown is at most 28, "next" moves exactly one month on and
    "prev" one month back, keeping the day, and each undoes the other.
    From a later day the month can be skipped or kept: from 2024-01-31
    "next" leads to March 2, and from 2024-03-31 "prev" leads to March 2
    as well. *)
Theorem month_navigation_on_a_utc_host (t : Z) :
  (@getDate utcTime t ≤ 28 →
   let next := @changeMonth utcTime utcDates "next" t in
   let prev := @changeMonth utcTime utcDates "prev" t in
   getFullYear next * 12 + getMonth next = getFullYear t * 12 + getMonth t + 1
   ∧ getFullYear prev * 12 + getMonth prev = getFullYear t * 12 + getMonth t - 1
   ∧ getDate next = getDate t
   ∧ getDate prev = getDate t
   ∧ @changeMonth utcTime utcDates "prev" next = t
   ∧ @changeMonth utcTime utcDates "next" prev = t)
  ∧ (let shown := @changeMonth utcTime utcDates "next" (utc 2024 1 31 12 0 0) in
     (getFullYear shown, getMonth shown + 1, getDate shown) = (2024, 3, 2))
  ∧ (let shown := @changeMonth utcTime utcDates "prev" (utc 2024 3 31 12 0 0) in
     (getFullYear shown, getMonth shown + 1, getDate shown) = (2024, 3, 2)).
Proof.
  split; [| split; by vm_compute].
  intros Hd. pose proof msPerDay_pos as Hpos.
  unfold changeMonth. cbv zeta.
  rewrite (bool_decide_eq_false_2 ("next" = "prev")) by done.
  rewrite (bool_decide_eq_true_2 ("prev" = "prev")) by done.
  destruct (utc_setMonth_parts t (getMonth t + 1) Hd) as (Hy1 & Hm1 & Hd1 & Hr1).
  destruct (utc_setMonth_parts t (getMonth t - 1) Hd) as (Hy2 & Hm2 & Hd2 & Hr2).
  cbv zeta in Hy1, Hm1, Hd1, Hr1, Hy2, Hm2, Hd2, Hr2.
  set (next := @setMonth utcTime utcDates t (getMonth t + 1)) in *.
  set (prev := @setMonth utcTime utcDates t (getMonth t - 1)) in *.
  destruct (utc_parts t) as (Hy & Hm & Hdate & _).
  destruct (civil_month_day (isoDay t)) as [Hmonth _].
  assert (0 ≤ getMonth t < 12) as HM by (rewrite Hm; lia).
  assert (∀ u, getFullYear u = getFullYear t → getMonth u = getMonth t →
               getDate u = getDate t → u mod msPerDay = t mod msPerDay → u = t) as Hsame.
  { intros u Hu1 Hu2 Hu3 Hu4.
    destruct (utc_parts u) as (Ey & Em & Ed & _).
    pose proof (days_civil_days (isoDay u)) as Hru.
    pose proof (days_civil_days (isoDay t)) as Hrt.
    assert (isoDay u = isoDay t) as Hday.
    { rewrite <- Hru, <- Hrt. rewrite <- Ey, <- Ed, <- Hy, <- Hdate.
      replace ((civilFromDays (isoDay u)).1.2) with (getMonth u + 1) by lia.
      replace ((civilFromDays (isoDay t)).1.2) with (getMonth t + 1) by lia.
      by rewrite Hu1, Hu2, Hu3. }
    unfold isoDay in Hday.
    rewrite (Z.div_mod u msPerDay), (Z.div_mod t msPerDay) by lia.
    by rewrite Hday, Hu4. }
  split_and!.
  - rewrite Hy1, Hm1. Z.to_euclidean_division_equations; lia.
  - rewrite Hy2, Hm2. Z.to_euclidean_division_equations; lia.
  - done.
  - done.
  - assert (@getDate utcTime next ≤ 28) as Hd' by lia.
    destruct (utc_setMonth_parts next (getMonth next - 1) Hd') as (Ey & Em & Ed & Er).
    cbv zeta in Ey, Em, Ed, Er. apply Hsame.
    + rewrite Ey, Hy1, Hm1. Z.to_euclidean_division_equations; lia.
    + rewrite Em, Hm1. Z.to_euclidean_division_equations; lia.
    + by rewrite Ed.
    + by rewrite Er.
  - assert (@getDate utcTime prev ≤ 28) as Hd' by lia.
    destruct (utc_setMonth_parts prev (getMonth prev + 1) Hd') as (Ey & Em & Ed & Er).
    cbv zeta in Ey, Em, Ed, Er. apply Hsame.
    + rewrite Ey, Hy2, Hm2. Z.to_euclidean_division_equations; lia.
    + rewrite Em, Hm2. Z.to_euclidean_division_equations; lia.
    + by rewrite Ed.
    + by rewrite Er.
Qed.

End MonthFacts.

(** ** The theorems at sample inputs *)

Section Instances.
Import Database History Records Actions ActionSpec MergeSpec AggregateSpec GroupSpec
  JsLocalDate JsObject Calendar CalendarGrid.

Lemma saving_again_overwrites_witness :
  saveRecord (saveRecord [] Samples.scenarioA) MoreSamples.retitled
  = saveRecord [] MoreSamples.retitled.
Proof. apply (saving_again_overwrites [] Samples.scenarioA MoreSamples.retitled). reflexivity. Defined.

Lemma clicking_a_card_toggles_its_selection_witness :
  isSelected (toggleRecordSelection (inr ["e1"]) []) (single Samples.scenarioA) = true.
Proof.
  apply (proj1 (clicking_a_card_toggles_its_selection
                  [Samples.scenarioA] false [] (single Samples.scenarioA)
                  (list_elem_of_here _ _))).
Defined.

Lemma accepted_edit_stores_the_entered_values_witness :
  ∃ saved, saved ∈ getAllRecords
                     (saveRecord [Samples.scenarioA]
                        (updatedRecord Samples.scenarioA "A" "" 12 "english"
                                       (dateOnly 2024 3 2)))
           ∧ sessionId saved = "e1"
           ∧ duration saved / 60 = 12
           ∧ isoDay (date saved) = isoDay (dateOnly 2024 3 2).
Proof.
  destruct (accepted_edit_stores_the_entered_values
              [Samples.scenarioA] _ Samples.scenarioA MoreSamples.editedForm eq_refl)
    as (saved & minutes & day & Hm & Hd & Hsaved & _ & _ & _ & Hmin & Hday & _).
  injection Hm as <-. injection Hd as <-.
  exists saved. destruct (proj2 (Hsaved saved) eq_refl) as [Hin Hid].
  by split_and!.
Defined.

Lemma unchanged_edit_keeps_the_store_witness :
  handleEditEntry [Samples.scenarioA] (Some Samples.scenarioA)
                  (editDefaults Samples.scenarioA)
  = Saved [Samples.scenarioA]
  ∧ handleEditEntry [Samples.klingon] (Some Samples.klingon)
                    (editDefaults Samples.klingon)
    ≠ Saved [Samples.klingon].
Proof.
  split.
  - apply (proj2 (unchanged_edit_keeps_the_store
                    [Samples.scenarioA] Samples.scenarioA
                    ltac:(split; repeat constructor) ltac:(left)
                    ltac:(discriminate) ltac:(by vm_compute))).
    split_and!; [reflexivity | by left |].
    apply (bool_decide_unpack _). by vm_compute.
  - intros Hsaved.
    apply (proj1 (unchanged_edit_keeps_the_store
                    [Samples.klingon] Samples.klingon
                    ltac:(split; repeat constructor) ltac:(left)
                    ltac:(discriminate) ltac:(by vm_compute))) in Hsaved.
    destruct Hsaved as (_ & _ & Hlang). revert Hlang.
    apply (bool_decide_unpack (language Samples.klingon ∉ editLanguageOptions)).
    by vm_compute.
Defined.

Lemma edit_of_short_record_is_refused_witness :
  handleEditEntry [MoreSamples.glimpse] (Some MoreSamples.glimpse)
                  (editDefaults MoreSamples.glimpse)
  = Refused.
Proof.
  apply (edit_of_short_record_is_refused [MoreSamples.glimpse] MoreSamples.glimpse).
  - simpl. lia.
  - reflexivity.
Defined.

Lemma manual_entry_adds_its_minutes_witness :
  ∃ n, getLanguageStats (loadRecords [Samples.scenarioA] "all" "all" MoreSamples.friday)
         !! "english" = Some (Num n)
       ∧ getLanguageStats
           (loadRecords
              (saveRecord [Samples.scenarioA]
                 (mkPlaybackRecord (generateSessionId MoreSamples.friday "k3x9q")
                    "Podcast" "manual-entry" "english" (15 * 60)
                    (dateOnly 2024 3 1) None None))
              "all" "all" MoreSamples.friday)
         !! "english" = Some (Num (n + 15 * 60)).
Proof.
  destruct (manual_entry_adds_its_minutes
              [Samples.scenarioA] _ MoreSamples.friday "k3x9q" MoreSamples.manualForm
              "all" "all" MoreSamples.friday "english" eq_refl)
    as (record & minutes & n & Hm & Hd & _ & _ & Hl & _ & Hold & Hnew).
  - intros r ->%list_elem_of_singleton. vm_compute. discriminate.
  - apply (bool_decide_unpack _). by vm_compute.
  - injection Hm as <-. exists n. split; [exact Hold |].
    refine (eq_trans Hnew _). do 3 f_equal.
    assert (keeps "all" "all" MoreSamples.friday record = true) as -> by done.
    by rewrite Hl.
Defined.

Lemma hiding_a_language_hides_its_cards_witness :
  let hidden :=
    (@afterToggle utcTime utcDates true true [Samples.snapshotJan1]
                  [Samples.scenarioA; MoreSamples.siesta] (λ _, true)
                  0 (dateOnly 2024 3 1) "all" MoreSamples.englishOnly "english").2 in
  let stale :=
    (@afterToggle utcTime utcDates false false [Samples.snapshotJan1]
                  [Samples.scenarioA; MoreSamples.siesta] (λ _, true)
                  0 (dateOnly 2024 3 1) "all" MoreSamples.englishOnly "english").2 in
  (shownFilter hidden = "all"
   ∧ Forall (λ d, language (base d) ≠ "english") (@shownCards utcTime false hidden))
  ∧ truthyAt (languageVisibility (goalState stale)) "english" = true.
Proof.
  assert ("english" ∈ Language) as Hlang
    by (apply (bool_decide_unpack _); by vm_compute).
  split.
  - destruct (hiding_a_language_hides_its_cards
                true true [Samples.snapshotJan1] [Samples.scenarioA; MoreSamples.siesta]
                (λ _, true) 0 (dateOnly 2024 3 1) "all" MoreSamples.englishOnly
                "english" false Hlang eq_refl)
      as (_ & _ & Hreset).
    destruct (Hreset eq_refl) as (Hfilter & _ & Hhidden & _).
    destruct (Hhidden (or_introl eq_refl)) as (_ & Hcards & _).
    by split.
  - destruct (hiding_a_language_hides_its_cards
                false false [Samples.snapshotJan1] [Samples.scenarioA; MoreSamples.siesta]
                (λ _, true) 0 (dateOnly 2024 3 1) "all" MoreSamples.englishOnly
                "english" false Hlang eq_refl)
      as (_ & _ & Hreset).
    destruct (Hreset eq_refl) as (_ & _ & _ & Hstale).
    exact (Hstale eq_refl Samples.snapshotJan1 _ eq_refl eq_refl).
Defined.

Lemma cards_and_statistics_agree_witness :
  getLanguageStats [Samples.scenarioA; Samples.scenarioB] !! "english"
  = Some (Num (sumZ (totalDuration
                       <$> filter (λ d, language (base d) = "english")
                                  (buildDisplayRecords
                                     [Samples.scenarioA; Samples.scenarioB] true)))).
Proof.
  apply (proj2 (cards_and_statistics_agree [Samples.scenarioA; Samples.scenarioB] true
                  ltac:(repeat constructor))).
  repeat constructor.
Defined.

Lemma timeline_segments_lie_within_the_bar_witness :
  Forall (λ d, ∀ s, s ∈ orderedSegments d →
                    QArith_base.Qle (QArith_base.Qplus (segmentLeft d s) (segmentWidth d s))
                                    (QArith_base.inject_Z 100))
         (buildDisplayRecords [Samples.scenarioA; Samples.scenarioB] true).
Proof.
  eapply Forall_impl.
  - apply (timeline_segments_lie_within_the_bar
             [Samples.scenarioA; Samples.scenarioB] true).
    repeat (constructor; [by vm_compute |]). constructor.
  - intros d (_ & _ & Hd) s Hs. apply (Hd s Hs).
Defined.

Lemma cards_are_the_runs_of_the_list_witness :
  Forall2 (λ d g, mergedSessionIds d = sessionId <$> g
                  ∧ totalDuration d = sumZ (duration <$> g)
                  ∧ segments d = segmentOf <$> g)
          (buildDisplayRecords [Samples.scenarioA; Samples.scenarioB; Samples.klingon] true)
          [[Samples.scenarioA; Samples.scenarioB]; [Samples.klingon]].
Proof.
  replace [[Samples.scenarioA; Samples.scenarioB]; [Samples.klingon]]
    with (runs joins [Samples.scenarioA; Samples.scenarioB; Samples.klingon])
    by (by vm_compute).
  apply (cards_are_the_runs_of_the_list
           [Samples.scenarioA; Samples.scenarioB; Samples.klingon]).
  repeat constructor.
Defined.

Lemma cards_of_the_reversed_list_witness :
  Forall2 (λ d d', mergedSessionIds d' = reverse (mergedSessionIds d)
                   ∧ totalDuration d' = totalDuration d
                   ∧ spanStart d' = spanStart d
                   ∧ spanEnd d' = spanEnd d
                   ∧ isMerged d' = isMerged d)
          (reverse (buildDisplayRecords
                      [Samples.scenarioA; Samples.scenarioB; Samples.klingon] true))
          (buildDisplayRecords
             [Samples.klingon; Samples.scenarioB; Samples.scenarioA] true).
Proof.
  apply (cards_of_the_reversed_list
           [Samples.scenarioA; Samples.scenarioB; Samples.klingon]).
  repeat constructor.
Defined.

Lemma calendar_cell_shows_the_day_total_witness :
  ∃ cell,
    @generateCalendarDays utcTime utcDates MoreSamples.friday MoreSamples.friday
      (@updateDailyDurations utcTime
         [Samples.scenarioA; Samples.scenarioB; Samples.linkB])
      !! 5%nat = Some cell
    ∧ cellDateStr cell = Some "2024-03-01"
    ∧ numberOr0 (cellDuration cell ≫= (.!! "english")) = 900.
Proof.
  assert (1 ≤ 1 ≤ @getDate utcTime
                     (@makeDate utcTime utcDates (@getFullYear utcTime MoreSamples.friday)
                                (@getMonth utcTime MoreSamples.friday + 1) 0)) as Hday
    by (by vm_compute).
  assert ("english" ∉ inheritedNames) as Hlang
    by (apply (bool_decide_unpack _); by vm_compute).
  destruct (proj1 (@calendar_cell_shows_the_day_total utcTime utcDates
                     [Samples.scenarioA; Samples.scenarioB; Samples.linkB]
                     MoreSamples.friday MoreSamples.friday 1 "english" Hday Hlang))
    as (cell & Hcell & _ & Hkey & Htotal).
  exists cell. split_and!.
  - rewrite <- Hcell. by f_equal.
  - rewrite Hkey. by f_equal.
  - rewrite Htotal. by vm_compute.
Defined.


Lemma month_navigation_on_a_utc_host_witness :
  @changeMonth utcTime utcDates "prev"
    (@changeMonth utcTime utcDates "next" MoreSamples.friday)
  = MoreSamples.friday.
Proof.
  pose proof (proj1 (month_navigation_on_a_utc_host MoreSamples.friday)
                ltac:(by vm_compute)) as H.
  cbv zeta in H. exact (proj1 (proj2 (proj2 (proj2 (proj2 H))))).
Defined.

End Instances.
